(** * The Pelican events plugin ([events.py]): embedding and properties

    The plugin collects event metadata from articles, expands configured
    recurring events, exports an iCalendar file and fills two template
    variables.  Python values are embedded as follows.

    - [str] is [string]; a character is a code point below 256.
    - [dict] is stdpp's [gmap]; a missing key on [d[k]] is a [KeyError].
    - a [datetime] is a record of its integer fields; an aware one carries
      the utcoffset (in seconds) of its fixed-offset [tzinfo].
    - exceptions are values of [exn]; a computation is a function from the
      world (the module globals, the clock, the output files) to a result
      and the world it leaves behind. *)

From Stdlib Require Import ZArith Lia List Bool Ascii String.
From Stdlib Require Import Sorted Permutation DecimalString.
From stdpp Require Import base gmap strings list fin_maps sorting.

Local Open Scope string_scope.
Local Open Scope Z_scope.

(** ** Exceptions *)

Inductive exn : Type :=
| KeyError (key : string)
| ValueError (msg : string)
| RuntimeError (msg : string)
| TypeError (msg : string)
| AttributeError (msg : string)
| OverflowError (msg : string)
| IndexError (msg : string)
| UnboundLocalError (var : string).

Inductive result (A : Type) : Type :=
| Ok (a : A)
| Raise (e : exn).
Arguments Ok {A} a.
Arguments Raise {A} e.

Definition is_ok {A} (r : result A) : bool :=
  match r with Ok _ => true | Raise _ => false end.

(** ** Calendar arithmetic of CPython's [datetime] module *)

Module Cal.

Definition MAXORDINAL : Z := 3652059.
Definition DI400Y : Z := 146097.
Definition DI100Y : Z := 36524.
Definition DI4Y : Z := 1461.

(** [_is_leap] *)
Definition is_leap (year : Z) : bool :=
  (year mod 4 =? 0) && (negb (year mod 100 =? 0) || (year mod 400 =? 0)).

(** [_days_before_year]: days before January 1st of [year]. *)
Definition days_before_year (year : Z) : Z :=
  let y := year - 1 in
  y * 365 + y / 4 - y / 100 + y / 400.

(** [_DAYS_IN_MONTH], index 0 is the unused placeholder of the table. *)
Definition DAYS_IN_MONTH (month : Z) : Z :=
  match month with
  | 1 => 31 | 2 => 28 | 3 => 31 | 4 => 30 | 5 => 31 | 6 => 30
  | 7 => 31 | 8 => 31 | 9 => 30 | 10 => 31 | 11 => 30 | 12 => 31
  | _ => -1
  end.

(** [_DAYS_BEFORE_MONTH] *)
Definition DAYS_BEFORE_MONTH (month : Z) : Z :=
  match month with
  | 1 => 0 | 2 => 31 | 3 => 59 | 4 => 90 | 5 => 120 | 6 => 151
  | 7 => 181 | 8 => 212 | 9 => 243 | 10 => 273 | 11 => 304 | 12 => 334
  | _ => -1
  end.

Definition b2z (b : bool) : Z := if b then 1 else 0.

(** [_days_in_month] *)
Definition days_in_month (year month : Z) : Z :=
  if (month =? 2) && is_leap year then 29 else DAYS_IN_MONTH month.

(** [_days_before_month] *)
Definition days_before_month (year month : Z) : Z :=
  DAYS_BEFORE_MONTH month + b2z ((2 <? month) && is_leap year).

(** [_ymd2ord]: 0001-01-01 is day 1. *)
Definition ymd2ord (year month day : Z) : Z :=
  days_before_year year + days_before_month year month + day.

(** The tail of [_ord2ymd]: month and day of the [n]-th day (from 0) of
    a year, by an estimate of the month that is corrected when too
    large. *)
Definition month_and_day (n : Z) (leapyear : bool) : Z * Z :=
  let month := Z.shiftr (n + 50) 5 in
  let preceding := DAYS_BEFORE_MONTH month + b2z ((2 <? month) && leapyear) in
  let '(month, preceding) :=
    if n <? preceding
    then (month - 1,
          preceding - (DAYS_IN_MONTH (month - 1)
                       + b2z ((month - 1 =? 2) && leapyear)))
    else (month, preceding) in
  (month, n - preceding + 1).

(** [_ord2ymd] *)
Definition ord2ymd (ordinal : Z) : Z * Z * Z :=
  let n := ordinal - 1 in
  let n400 := n / DI400Y in
  let n := n mod DI400Y in
  let year := n400 * 400 + 1 in
  let n100 := n / DI100Y in
  let n := n mod DI100Y in
  let n4 := n / DI4Y in
  let n := n mod DI4Y in
  let n1 := n / 365 in
  let n := n mod 365 in
  let year := year + n100 * 100 + n4 * 4 + n1 in
  if (n1 =? 4) || (n100 =? 4) then (year - 1, 12, 31)
  else
    let leapyear := (n1 =? 3) && (negb (n4 =? 24) || (n100 =? 3)) in
    let '(month, day) := month_and_day n leapyear in
    (year, month, day).

(** What [_ord2ymd] asserts about the month and day it found. *)
Definition month_and_day_ok (leapyear : bool) (n : Z) : bool :=
  let '(m, d) := month_and_day n leapyear in
  (1 <=? m) && (m <=? 12) && (1 <=? d)
  && (d <=? DAYS_IN_MONTH m + b2z ((m =? 2) && leapyear))
  && (DAYS_BEFORE_MONTH m + b2z ((2 <? m) && leapyear) + d =? n + 1).

End Cal.

(** ** [datetime], [date] and [timedelta] values *)

(** A naive [datetime]: the fields CPython stores. *)
Record naive : Type := mk_naive {
  dt_year : Z; dt_month : Z; dt_day : Z;
  dt_hour : Z; dt_minute : Z; dt_second : Z; dt_microsecond : Z }.

(** An aware [datetime]: wall-clock fields and the utcoffset, in seconds,
    of its fixed-offset [tzinfo] (what [astimezone()] attaches). *)
Record aware : Type := mk_aware { wall : naive; utcoffset : Z }.

(** A [datetime] object of either kind, for untyped slots such as
    [metadata['date']]. *)
Inductive datetime : Type :=
| Naive (n : naive)
| Aware (a : aware).

Definition is_aware (d : datetime) : bool :=
  match d with Naive _ => false | Aware _ => true end.

(** A [date] object. *)
Record date : Type := mk_date { d_year : Z; d_month : Z; d_day : Z }.

(** A [timedelta], as its total number of microseconds. *)
Record timedelta : Type := mk_timedelta { total_us : Z }.

Definition US_PER_SECOND : Z := 1000000.
Definition US_PER_DAY : Z := 86400 * US_PER_SECOND.

(** The constructor's range checks ([_check_date_fields],
    [_check_time_fields]): every [datetime] object satisfies them. *)
Definition valid_naive (n : naive) : Prop :=
  1 <= dt_year n <= 9999 /\ 1 <= dt_month n <= 12 /\
  1 <= dt_day n <= Cal.days_in_month (dt_year n) (dt_month n) /\
  0 <= dt_hour n < 24 /\ 0 <= dt_minute n < 60 /\ 0 <= dt_second n < 60 /\
  0 <= dt_microsecond n < US_PER_SECOND.

Definition valid_date (d : date) : Prop :=
  1 <= d_year d <= 9999 /\ 1 <= d_month d <= 12 /\
  1 <= d_day d <= Cal.days_in_month (d_year d) (d_month d).

(** The utcoffset of a [timezone] is strictly between -24h and 24h. *)
Definition valid_aware (a : aware) : Prop :=
  valid_naive (wall a) /\ -86400 < utcoffset a < 86400.

(** [datetime.toordinal] *)
Definition toordinal (n : naive) : Z :=
  Cal.ymd2ord (dt_year n) (dt_month n) (dt_day n).

(** Seconds since midnight. *)
Definition seconds_of_day (n : naive) : Z :=
  dt_hour n * 3600 + dt_minute n * 60 + dt_second n.

(** Microseconds from the start of day 0 to the wall-clock reading. *)
Definition wall_us (n : naive) : Z :=
  (toordinal n * 86400 + seconds_of_day n) * US_PER_SECOND + dt_microsecond n.

(** The instant an aware datetime denotes, in microseconds on the UTC
    time line.  Two aware datetimes compare as their instants do. *)
Definition instant (a : aware) : Z :=
  wall_us (wall a) - utcoffset a * US_PER_SECOND.

(** The datetime whose reading is [us] microseconds after the start of
    day 0 ([datetime.__add__] after the deltas are summed): the day must
    be in [1, MAXORDINAL], else [OverflowError]. *)
Definition of_wall_us (us : Z) : result naive :=
  let days := us / US_PER_DAY in
  let rest := us mod US_PER_DAY in
  let secs := rest / US_PER_SECOND in
  let micro := rest mod US_PER_SECOND in
  let hour := secs / 3600 in
  let rem := secs mod 3600 in
  let minute := rem / 60 in
  let second := rem mod 60 in
  if (0 <? days) && (days <=? Cal.MAXORDINAL) then
    let '(y, m, d) := Cal.ord2ymd days in
    Ok (mk_naive y m d hour minute second micro)
  else Raise (OverflowError "date value out of range").

(** [datetime.__add__] on the wall-clock fields. *)
Definition naive_add (n : naive) (td : timedelta) : result naive :=
  of_wall_us (wall_us n + total_us td).

(** [aware + timedelta]: the fields move, the [tzinfo] stays. *)
Definition aware_add (a : aware) (td : timedelta) : result aware :=
  match naive_add (wall a) td with
  | Ok n => Ok (mk_aware n (utcoffset a))
  | Raise e => Raise e
  end.

(** [datetime.date()]: the wall-clock date, no conversion. *)
Definition date_of (n : naive) : date :=
  mk_date (dt_year n) (dt_month n) (dt_day n).

(** [date.toordinal] *)
Definition date_toordinal (d : date) : Z :=
  Cal.ymd2ord (d_year d) (d_month d) (d_day d).

(** [date.__ge__]: comparison of the tuples (year, month, day). *)
Definition date_ge (a b : date) : bool :=
  if d_year a =? d_year b then
    if d_month a =? d_month b then d_day b <=? d_day a
    else d_month b <? d_month a
  else d_year b <? d_year a.

(** [a <= b] on naive datetimes: comparison of the tuples of fields. *)
Definition naive_le (a b : naive) : bool :=
  if dt_year a =? dt_year b then
    if dt_month a =? dt_month b then
      if dt_day a =? dt_day b then
        if dt_hour a =? dt_hour b then
          if dt_minute a =? dt_minute b then
            if dt_second a =? dt_second b
            then dt_microsecond a <=? dt_microsecond b
            else dt_second a <? dt_second b
          else dt_minute a <? dt_minute b
        else dt_hour a <? dt_hour b
      else dt_day a <? dt_day b
    else dt_month a <? dt_month b
  else dt_year a <? dt_year b.

(** [a >= b] on aware datetimes.  CPython compares the fields when both
    values share their [tzinfo] and the instants otherwise; on datetimes
    of the calendar with one offset the two agree
    ([naive_le_wall_us]). *)
Definition aware_ge (a b : aware) : bool := instant b <=? instant a.

(** ** String formatting *)

(** The decimal digits of a non-negative integer. *)
Definition digits (n : Z) : string :=
  DecimalString.NilZero.string_of_uint (N.to_uint (Z.to_N n)).

Fixpoint zeros (k : nat) : string :=
  match k with
  | O => EmptyString
  | S k' => String "0"%char (zeros k')
  end.

Definition zero_pad (width : nat) (s : string) : string :=
  zeros (width - String.length s) +:+ s.

(** ["%0<width>d" % n] *)
Definition fmt_d (width : nat) (n : Z) : string :=
  if n <? 0 then String "-"%char (zero_pad (width - 1) (digits (- n)))
  else zero_pad width (digits n).

(** [datetime.isoformat(timespec='seconds')] of a naive datetime. *)
Definition isoformat_seconds (n : naive) : string :=
  fmt_d 4 (dt_year n) +:+ "-" +:+ fmt_d 2 (dt_month n) +:+ "-"
  +:+ fmt_d 2 (dt_day n) +:+ "T" +:+ fmt_d 2 (dt_hour n) +:+ ":"
  +:+ fmt_d 2 (dt_minute n) +:+ ":" +:+ fmt_d 2 (dt_second n).

(** [s.replace(old, new)] for a one-character [old]. *)
Fixpoint str_replace (old : ascii) (new : string) (s : string) : string :=
  match s with
  | EmptyString => EmptyString
  | String c rest =>
      if Ascii.eqb c old then new +:+ str_replace old new rest
      else String c (str_replace old new rest)
  end.

(** ** The host: Python's library and the machine the build runs on

    Functions of the standard library and of the third-party packages the
    plugin calls, and the readings of the environment, are the fields of
    one class.  The development is parametric in it. *)

Class Host : Type := {
  (** the reading returned by the [k]-th call of [datetime.now()] *)
  clock : nat -> naive;
  (** the utcoffset, in seconds, of the system's local zone at a
      wall-clock reading *)
  local_utcoffset : naive -> Z;
  (** [datetime.strptime(s, '%Y-%m-%d %H:%M')] *)
  strptime : string -> result naive;
  (** Python's [float] objects and [float(s)]; [None] is [ValueError] *)
  float : Type;
  float_of_str : string -> option float;
  (** the [timedelta] constructor called with keyword arguments
      (weeks, days, hours, minutes, seconds) holding floats *)
  timedelta_kwargs : gmap string float -> result timedelta;
  (** the text chunks [HTMLParser.feed] hands to [handle_data] *)
  html_data : string -> list string;
  (** [RecurringEvent(now_date=d).parse(rule)] then [get_RFC_rrule()] *)
  rfc_rrule : naive -> string -> result string;
  (** [rrule.rrulestr(s).after(d)] for a naive [d]: the occurrences are
      compared with [d], so that one is returned only if it is naive
      too; [None] when the rule has no later occurrence *)
  rrule_after : string -> naive -> result (option naive);
  (** [os.path.join] *)
  path_join : string -> string -> string;
  (** [str(d)] for a [datetime] *)
  datetime_str : datetime -> string
}.

(** ** The plugin's data *)

(** A metadata value: a string, or a [datetime] (the [date] entry). *)
Inductive mvalue : Type :=
| MStr (s : string)
| MDate (d : datetime).

(** [content.event_plugin_data].  Both entries are only ever built by
    [astimezone()] or by adding a [timedelta] to such a value. *)
Record event_plugin_data : Type := mk_epd { dtstart : aware; dtend : aware }.

(** A member of [events]: an article, or the [AttributeDict] standing for
    a recurring event. *)
Record event : Type := mk_event {
  url : string;
  location : option string;
  metadata : gmap string mvalue;
  plugin_data : event_plugin_data }.

(** A content object as [content_object_init] delivers it. *)
Record content : Type := mk_content {
  is_article : bool;
  c_url : string;
  c_metadata : gmap string mvalue;
  c_plugin_data : option event_plugin_data }.

(** A value of the [PLUGIN_EVENTS] dict. *)
Inductive pvalue : Type :=
| PNone
| PStr (s : string)
| PList (l : list (gmap string string)).

Record settings : Type := mk_settings {
  PLUGIN_EVENTS : gmap string pvalue;
  OUTPUT_PATH : string;
  SITEURL : string;
  DEFAULT_LANG : string;
  PLUGINS : list string }.

(** A calendar component built by [icalendar.Event(...)]. *)
Record vevent : Type := mk_vevent {
  ve_summary : string;
  ve_dtstart : string;
  ve_dtend : string;
  ve_dtstamp : string;
  ve_priority : Z;
  ve_uid : string;
  ve_location : option mvalue }.

(** An [icalendar.Calendar]: its properties in the order added, then its
    components. *)
Record vcalendar : Type := mk_vcalendar {
  cal_properties : list (string * string);
  cal_components : list vevent }.

(** A template variable: a list, or a dict of lists in item order. *)
Inductive ctx_value : Type :=
| CtxList (l : list event)
| CtxDict (d : list (string * list event)).

(** The module globals and the environment.  [localized_events] keeps
    its keys in insertion order, as a Python dict does. *)
Record world : Type := mk_world {
  events : list event;
  localized_events : list (string * list event);
  ticks : nat;
  files : gmap string vcalendar;
  context : gmap string ctx_value }.

(** ** Computations *)

Definition M (A : Type) : Type := world -> result A * world.

Definition ret {A} (a : A) : M A := fun w => (Ok a, w).
Definition raise {A} (e : exn) : M A := fun w => (Raise e, w).
Definition bind {A B} (m : M A) (k : A -> M B) : M B :=
  fun w => match m w with
           | (Ok a, w') => k a w'
           | (Raise e, w') => (Raise e, w')
           end.
Definition lift {A} (r : result A) : M A := fun w => (r, w).

Notation "'let*' x ':=' m 'in' k" := (bind m (fun x => k))
  (at level 10, x pattern, m at level 100, k at level 200).

(** [d[k]] *)
Definition getitem {V} (d : gmap string V) (k : string) : result V :=
  match d !! k with
  | Some v => Ok v
  | None => Raise (KeyError k)
  end.

(** Truth value of a settings entry. *)
Definition truthy (v : pvalue) : bool :=
  match v with
  | PNone => false
  | PStr s => negb (String.eqb s "")
  | PList l => match l with [] => false | _ => true end
  end.

(** ** [sorted]

    CPython's [list.sort] is stable; any stable sort returns the same
    list, and insertion from the right is the simplest one.  With
    [reverse=True] CPython reverses the list, sorts it, and reverses the
    result, which keeps elements with equal keys in their original
    order. *)

Section Sorted.
Context {A K : Type} (key : A -> K) (lt : K -> K -> bool).

Fixpoint insert_sorted (x : A) (l : list A) : list A :=
  match l with
  | [] => [x]
  | y :: l' =>
      if lt (key y) (key x) then y :: insert_sorted x l'
      else x :: y :: l'
  end.

Fixpoint stable_sort (l : list A) : list A :=
  match l with
  | [] => []
  | x :: l' => insert_sorted x (stable_sort l')
  end.

Definition sorted (reverse : bool) (l : list A) : list A :=
  if reverse then rev (stable_sort (rev l)) else stable_sort l.

End Sorted.

(** ** The plugin ([events.py]) *)

Section Plugin.
Context `{H : Host}.

(** [datetime.now()]: one more reading of the clock. *)
Definition datetime_now : M naive :=
  fun w => (Ok (clock (ticks w)),
            mk_world (events w) (localized_events w) (S (ticks w))
                     (files w) (context w)).

(** The value of [d.astimezone()] for a naive [d]: the system's local
    zone is assumed and attached. *)
Definition astimezone (n : naive) : aware :=
  mk_aware n (local_utcoffset n).

(** The call [d.astimezone()] for a naive [d].  CPython converts [d] to
    UTC first, subtracting the utcoffset, and attaches the local zone
    to the result: the subtraction raises [OverflowError] when it leaves
    the years 1 to 9999. *)
Definition astimezone_call (n : naive) : result aware :=
  match of_wall_us (instant (astimezone n)) with
  | Ok _ => Ok (astimezone n)
  | Raise e => Raise e
  end.

(** [d.astimezone(timezone.utc).replace(tzinfo=None)]: the wall-clock
    reading at UTC of the instant [d] denotes; a naive [d] is taken to be
    in the local zone. *)
Definition utc_wall (d : datetime) : result naive :=
  match d with
  | Aware a => of_wall_us (instant a)
  | Naive n => of_wall_us (instant (astimezone n))
  end.

Definition TIME_MULTIPLIERS (c : ascii) : option string :=
  if Ascii.eqb c "w" then Some "weeks"
  else if Ascii.eqb c "d" then Some "days"
  else if Ascii.eqb c "h" then Some "hours"
  else if Ascii.eqb c "m" then Some "minutes"
  else if Ascii.eqb c "s" then Some "seconds"
  else None.

(** [MLStripper]: [handle_data] writes every chunk to [self.text]. *)
Definition strip_html_tags (html : string) : string :=
  fold_left String.append (html_data html) EmptyString.

(** The handlers of [parse_tstamp] and [parse_timedelta] format a log
    line with [metadata['title']] before they raise. *)
Definition log_title_then_raise {A} (metadata : gmap string mvalue) (e : exn)
  : result A :=
  match getitem metadata "title" with
  | Ok _ => Raise e
  | Raise e' => Raise e'
  end.

Definition parse_tstamp (metadata : gmap string mvalue) (field_name : string)
  : result aware :=
  let parsed :=
    match getitem metadata field_name with
    | Ok (MStr s) =>
        match strptime s with
        | Ok n => astimezone_call n
        | Raise e => Raise e
        end
    | Ok (MDate _) =>
        Raise (TypeError
                 "strptime() argument 1 must be str, not datetime.datetime")
    | Raise e => Raise e
    end in
  match parsed with
  | Ok a => Ok a
  | Raise e => log_title_then_raise metadata e
  end.

(** Characters [str.split()] treats as white space. *)
Definition is_space (c : ascii) : bool :=
  let n := nat_of_ascii c in
  ((9 <=? n) && (n <=? 13))%nat || ((28 <=? n) && (n <=? 32))%nat
  || (n =? 133)%nat || (n =? 160)%nat.

(** [s.split()]: the maximal runs of non-space characters. *)
Fixpoint split_from (cur : string) (s : string) : list string :=
  match s with
  | EmptyString => if String.eqb cur "" then [] else [cur]
  | String c rest =>
      if is_space c
      then (if String.eqb cur "" then split_from "" rest
            else cur :: split_from "" rest)
      else split_from (cur +:+ String c "") rest
  end.

Definition split (s : string) : list string := split_from "" s.

(** [c[-1]] and [c[:-1]] *)
Fixpoint last_char (c : string) : option ascii :=
  match c with
  | EmptyString => None
  | String a EmptyString => Some a
  | String _ rest => last_char rest
  end.

Fixpoint but_last (c : string) : string :=
  match c with
  | EmptyString => EmptyString
  | String _ EmptyString => EmptyString
  | String a rest => String a (but_last rest)
  end.

(** The body of the loop of [parse_timedelta] for one chunk: the
    updated [tdargs], or the exception to raise. *)
Definition parse_chunk (metadata : gmap string mvalue)
    (tdargs : gmap string float) (c : string) : result (gmap string float) :=
  match last_char c with
  | None => Raise (IndexError "string index out of range")
  | Some u =>
      match TIME_MULTIPLIERS u with
      | None =>
          log_title_then_raise metadata
            (RuntimeError ("Unknown time multiplier '" +:+ c +:+ "'"))
      | Some m =>
          match float_of_str (but_last c) with
          | None =>
              log_title_then_raise metadata
                (ValueError ("Unable to parse '" +:+ c +:+ "'"))
          | Some val => Ok (<[m := val]> tdargs)
          end
      end
  end.

Fixpoint parse_chunks (metadata : gmap string mvalue)
    (tdargs : gmap string float) (chunks : list string)
  : result (gmap string float) :=
  match chunks with
  | [] => Ok tdargs
  | c :: rest =>
      match parse_chunk metadata tdargs c with
      | Ok tdargs' => parse_chunks metadata tdargs' rest
      | Raise e => Raise e
      end
  end.

(** A chunk the loop accepts, as the keyword and the magnitude it
    assigns: its last character is a known multiplier and the rest is a
    float literal. *)
Definition token_of (c : string) : option (string * float) :=
  match last_char c with
  | None => None
  | Some u =>
      match TIME_MULTIPLIERS u, float_of_str (but_last c) with
      | Some m, Some val => Some (m, val)
      | _, _ => None
      end
  end.

Definition parse_timedelta (metadata : gmap string mvalue) : result timedelta :=
  match getitem metadata "event-duration" with
  | Ok (MStr s) =>
      match parse_chunks metadata ∅ (split s) with
      | Ok tdargs => timedelta_kwargs tdargs
      | Raise e => Raise e
      end
  | Ok (MDate _) => Raise (AttributeError "object has no attribute 'split'")
  | Raise e => Raise e
  end.

Definition basic_utc_isoformat (datetime_value : datetime) : result string :=
  match utc_wall datetime_value with
  | Ok pure_datetime =>
      let iso_timestamp := isoformat_seconds pure_datetime in
      let stripped_iso_timestamp :=
        str_replace ":" "" (str_replace "-" "" iso_timestamp) in
      Ok (stripped_iso_timestamp +:+ "Z")
  | Raise e => Raise e
  end.


(** [str(v)], as ['%s' % v] formats it. *)
Definition str_of (v : mvalue) : string :=
  match v with
  | MStr s => s
  | MDate d => datetime_str d
  end.

(** [events.append(e)] *)
Definition events_append (e : event) : M unit :=
  fun w => (Ok tt,
            mk_world (events w ++ [e]) (localized_events w) (ticks w)
                     (files w) (context w)).

(** An article in [events], seen through the attributes the plugin
    reads. *)
Definition event_of_content (c : content) (d : event_plugin_data) : event :=
  mk_event (c_url c) None (c_metadata c) d.

Definition is_draft (metadata : gmap string mvalue) : bool :=
  match metadata !! "status" with
  | Some (MStr s) => String.eqb s "draft"
  | _ => false
  end.

(** [parse_article]; the result is the content object as the call leaves
    it (with [event_plugin_data] set when an event was built). *)
Definition parse_article (c : content) : M content :=
  if negb (is_article c) then ret c
  else
    match c_metadata c !! "event-start" with
    | None => ret c
    | Some _ =>
        let* dtstart := lift (parse_tstamp (c_metadata c) "event-start") in
        let* dtend :=
          match c_metadata c !! "event-end" with
          | Some _ => lift (parse_tstamp (c_metadata c) "event-end")
          | None =>
              match c_metadata c !! "event-duration" with
              | Some _ =>
                  let* dtdelta := lift (parse_timedelta (c_metadata c)) in
                  lift (aware_add dtstart dtdelta)
              | None =>
                  let* title := lift (getitem (c_metadata c) "title") in
                  raise (ValueError
                    ("Either 'event-end' or 'event-duration' must be"
                     +:+ " speciefied in the event named '"
                     +:+ str_of title +:+ "'"))
              end
          end in
        let data := mk_epd dtstart dtend in
        let c' := mk_content (is_article c) (c_url c) (c_metadata c)
                             (Some data) in
        if is_draft (c_metadata c) then ret c'
        else let* _ := events_append (event_of_content c' data) in ret c'
    end.

(** What [parse_article] leaves in [events] for a record [data] built
    from the article [c]. *)
Definition recorded (c : content) (data : event_plugin_data) (w : world)
  : world :=
  if is_draft (c_metadata c) then w
  else mk_world (events w ++ [event_of_content c data])
         (localized_events w) (ticks w) (files w) (context w).

Definition with_data (c : content) (data : event_plugin_data) : content :=
  mk_content (is_article c) (c_url c) (c_metadata c) (Some data).

(** The body of the loop of [insert_recurring_events]. *)
Definition insert_recurring_event (ev : gmap string string) : M unit :=
  let* recurring_rule := lift (getitem ev "recurring_rule") in
  let* now1 := datetime_now in
  let* rfc := lift (rfc_rrule now1 recurring_rule) in
  let* now2 := datetime_now in
  let* next_occurrence := lift (rrule_after rfc now2) in
  let* event_duration := lift (parse_timedelta (MStr <$> ev)) in
  let* page_url := lift (getitem ev "page_url") in
  let* loc := lift (getitem ev "location") in
  let* title := lift (getitem ev "title") in
  let* summary := lift (getitem ev "summary") in
  match next_occurrence with
  | None =>
      raise (AttributeError
               "'NoneType' object has no attribute 'astimezone'")
  | Some occ =>
      let* dtstart := lift (astimezone_call occ) in
      let* start := lift (astimezone_call occ) in
      let* dtend := lift (aware_add start event_duration) in
      events_append
        (mk_event ("pages/" +:+ page_url) (Some loc)
           (<["title" := MStr title]>
            (<["summary" := MStr summary]>
             (<["date" := MDate (Naive occ)]>
              (<["event-location" := MStr loc]> ∅))))
           (mk_epd dtstart dtend))
  end.

Fixpoint insert_recurring_loop (l : list (gmap string string)) : M unit :=
  match l with
  | [] => ret tt
  | ev :: rest =>
      let* _ := insert_recurring_event ev in insert_recurring_loop rest
  end.

Definition insert_recurring_events (st : settings) : M unit :=
  match PLUGIN_EVENTS st !! "recurring_events" with
  | None => ret tt
  | Some (PList l) => insert_recurring_loop l
  | Some PNone => raise (TypeError "'NoneType' object is not iterable")
  | Some (PStr s) =>
      if String.eqb s "" then ret tt
      else raise (TypeError "string indices must be integers")
  end.

(** [initialize_events] *)
Definition initialize_events (st : settings) : M unit :=
  let* _ := (fun w => (Ok tt, mk_world [] [] (ticks w) (files w) (context w))) in
  insert_recurring_events st.

(** [localized_events[lang]] on the [defaultdict(list)]: a missing key
    is inserted with an empty list. *)
Fixpoint bucket_lookup (d : list (string * list event)) (lang : string)
  : option (list event) :=
  match d with
  | [] => None
  | (k, v) :: rest => if String.eqb k lang then Some v else bucket_lookup rest lang
  end.

Definition localized_getitem (lang : string) : M (list event) :=
  fun w =>
    match bucket_lookup (localized_events w) lang with
    | Some v => (Ok v, w)
    | None =>
        (Ok [],
         mk_world (events w) (localized_events w ++ [(lang, [])]) (ticks w)
                  (files w) (context w))
    end.

(** [events if not localized_events else localized_events[DEFAULT_LANG]] *)
Definition curr_events (st : settings) : M (list event) :=
  fun w =>
    match localized_events w with
    | [] => (Ok (events w), w)
    | _ :: _ => localized_getitem (DEFAULT_LANG st) w
    end.

(** [e.metadata[metadata_field_for_event_summary]] *)
Definition summary_value (field : pvalue) (e : event) : result mvalue :=
  match field with
  | PStr k => getitem (metadata e) k
  | PNone => Raise (KeyError "None")
  | PList _ => Raise (TypeError "unhashable type: 'list'")
  end.

(** The component built in the body of the export loop. *)
Definition ical_event (st : settings) (field : pvalue) (e : event)
  : result vevent :=
  match summary_value field e with
  | Raise e' => Raise e'
  | Ok (MDate _) => Raise (TypeError "can only concatenate str")
  | Ok (MStr html) =>
      match basic_utc_isoformat (Aware (dtstart (plugin_data e))) with
      | Raise e' => Raise e'
      | Ok start =>
          match basic_utc_isoformat (Aware (dtend (plugin_data e))) with
          | Raise e' => Raise e'
          | Ok end_ =>
              match getitem (metadata e) "date" with
              | Raise e' => Raise e'
              | Ok (MStr _) =>
                  Raise (AttributeError
                           "'str' object has no attribute 'astimezone'")
              | Ok (MDate d) =>
                  match basic_utc_isoformat d with
                  | Raise e' => Raise e'
                  | Ok stamp =>
                      Ok (mk_vevent (strip_html_tags html) start end_ stamp 5
                            (SITEURL st +:+ url e)
                            (metadata e !! "event-location"))
                  end
              end
          end
      end
  end.

(** The [for] loop over the lazily filtered list: the clock is read once
    for each record, just before the record is examined.  The reading is
    the present time, which is not at the ends of the calendar where
    [astimezone()] raises: its conversion is the value [astimezone]. *)
Fixpoint export_loop (st : settings) (field : pvalue) (l : list event)
    (components : list vevent) : M (list vevent) :=
  match l with
  | [] => ret components
  | e :: rest =>
      let* now := datetime_now in
      if aware_ge (dtstart (plugin_data e)) (astimezone now)
      then let* ve := lift (ical_event st field e) in
           export_loop st field rest (components ++ [ve])
      else export_loop st field rest components
  end.

(** The records the lazy [filter] of the export lets through, when the
    first of them is examined at the clock's reading number [t]. *)
Fixpoint selected_from (t : nat) (l : list event) : list event :=
  match l with
  | [] => []
  | e :: rest =>
      if aware_ge (dtstart (plugin_data e)) (astimezone (clock t))
      then e :: selected_from (S t) rest
      else selected_from (S t) rest
  end.

(** [open(ics_fname, 'wb')] and [f.write(ical.to_ical())] *)
Definition write_file (path : string) (doc : vcalendar) : M unit :=
  fun w => (Ok tt,
            mk_world (events w) (localized_events w) (ticks w)
                     (<[path := doc]> (files w)) (context w)).

Definition calendar_header : list (string * string) :=
  [("prodid", "-//My calendar product//mxm.dk//"); ("version", "2.0")].

Definition generate_ical_file (st : settings) : M unit :=
  let* ics_fname := lift (getitem (PLUGIN_EVENTS st) "ics_fname") in
  if negb (truthy ics_fname) then ret tt
  else
    (* the local variable is bound only when the key is present *)
    let metadata_field_for_event_summary : option pvalue :=
      PLUGIN_EVENTS st !! "metadata_field_for_summary" in
    let* field :=
      match metadata_field_for_event_summary with
      | None => raise (UnboundLocalError "metadata_field_for_event_summary")
      | Some v => ret (if truthy v then v else PStr "summary")
      end in
    let* path :=
      match ics_fname with
      | PStr name => ret (path_join (OUTPUT_PATH st) name)
      | _ => raise (TypeError "expected str, bytes or os.PathLike object")
      end in
    let* cur := curr_events st in
    let* components := export_loop st field cur [] in
    write_file path (mk_vcalendar calendar_header components).

(** The sort key [(dtstart, dtend)]: aware datetimes compare as their
    instants do, tuples compare lexicographically. *)
Definition sort_key (ev : event) : Z * Z :=
  (instant (dtstart (plugin_data ev)), instant (dtend (plugin_data ev))).

Definition key_lt (a b : Z * Z) : bool :=
  if fst a =? fst b then snd a <? snd b else fst a <? fst b.

Definition sorted_events (reverse : bool) (l : list event) : list event :=
  sorted sort_key key_lt reverse l.

(** [filter_future], given the reading [datetime.now()] returned. *)
Definition filter_future (now : naive) (ev : event) : bool :=
  date_ge (date_of (wall (dtend (plugin_data ev)))) (date_of now).

(** [filter(filter_future, l)] consumed to the end: one reading of the
    clock for each record. *)
Fixpoint filter_future_list (l : list event) : M (list event) :=
  match l with
  | [] => ret []
  | ev :: rest =>
      let* now := datetime_now in
      let* kept := filter_future_list rest in
      ret (if filter_future now ev then ev :: kept else kept)
  end.

(** The records [filter_future] lets through, when the first of them is
    examined at the clock's reading number [t]. *)
Fixpoint upcoming_from (t : nat) (l : list event) : list event :=
  match l with
  | [] => []
  | ev :: rest =>
      if filter_future (clock t) ev then ev :: upcoming_from (S t) rest
      else upcoming_from (S t) rest
  end.

(** The dict comprehension over [localized_events.items()] that builds
    [upcoming_events_list]. *)
Fixpoint upcoming_buckets (d : list (string * list event))
  : M (list (string * list event)) :=
  match d with
  | [] => ret []
  | (k, v) :: rest =>
      let* kept := filter_future_list v in
      let* others := upcoming_buckets rest in
      ret ((k, sorted_events false kept) :: others)
  end.

(** The buckets of [upcoming_events_list], when the first record of the
    first bucket is examined at the clock's reading number [t]. *)
Fixpoint upcoming_buckets_from (t : nat) (d : list (string * list event))
  : list (string * list event) :=
  match d with
  | [] => []
  | (k, v) :: rest =>
      (k, sorted_events false (upcoming_from t v))
      :: upcoming_buckets_from (length v + t) rest
  end.

(** [generator.context[name] = v] *)
Definition context_set (name : string) (v : ctx_value) : M unit :=
  fun w => (Ok tt,
            mk_world (events w) (localized_events w) (ticks w) (files w)
                     (<[name := v]> (context w))).

Definition populate_context_variables : M unit :=
  fun w =>
    match localized_events w with
    | [] =>
        (let* _ := context_set "events_list"
                     (CtxList (sorted_events true (events w))) in
         let* upcoming := filter_future_list (events w) in
         context_set "upcoming_events_list"
           (CtxList (sorted_events false upcoming))) w
    | d =>
        (let* _ := context_set "events_list"
                     (CtxDict (map (fun kv => (fst kv, sorted_events true (snd kv))) d)) in
         let* upcoming := upcoming_buckets d in
         context_set "upcoming_events_list" (CtxDict upcoming)) w
    end.

End Plugin.

(** ** Reference forms taken from the specification *)

(** The sequence the export reads: the default-language bucket when
    localized buckets exist (empty when there is none for that
    language), the flat sequence otherwise. *)
Definition exported_collection (st : settings) (w : world) : list event :=
  match localized_events w with
  | [] => events w
  | d => default [] (bucket_lookup d (DEFAULT_LANG st))
  end.


(** The basic UTC form [YYYYMMDDTHHMMSSZ] of a wall-clock reading. *)
Definition basic_utc_form (n : naive) : string :=
  fmt_d 4 (dt_year n) +:+ fmt_d 2 (dt_month n) +:+ fmt_d 2 (dt_day n)
  +:+ "T" +:+ fmt_d 2 (dt_hour n) +:+ fmt_d 2 (dt_minute n)
  +:+ fmt_d 2 (dt_second n) +:+ "Z".

(** The magnitude of the last token of [tokens] whose unit is [unit];
    a token is a pair of a unit name and a magnitude. *)
Fixpoint last_magnitude {F : Type} (unit : string)
    (tokens : list (string * F)) : option F :=
  match tokens with
  | [] => None
  | (u, x) :: rest =>
      match last_magnitude unit rest with
      | Some y => Some y
      | None => if String.eqb u unit then Some x else None
      end
  end.

(** The pair (start, end) of a record as the specification has it: the
    instant at which the record starts and the instant at which it
    ends. *)
Definition start_end_pair (ev : event) : Z * Z :=
  (instant (dtstart (plugin_data ev)), instant (dtend (plugin_data ev))).

(** The record has the pair (start, end) [k]. *)
Definition same_key (k : Z * Z) (ev : event) : bool :=
  (fst (start_end_pair ev) =? fst k) && (snd (start_end_pair ev) =? snd k).

(** The order of pairs: by start, then by end. *)
Definition pair_le (a b : Z * Z) : Prop :=
  fst a < fst b \/ (fst a = fst b /\ snd a <= snd b).

(** Ascending, respectively descending, order of the pair (start, end):
    of two records the earlier start comes first (last), and of two
    records with one start the earlier end. *)
Definition ascending (l : list event) : Prop :=
  StronglySorted (fun a b => pair_le (start_end_pair a) (start_end_pair b)) l.

Definition descending (l : list event) : Prop :=
  StronglySorted (fun a b => pair_le (start_end_pair b) (start_end_pair a)) l.

(** No two records of [l] have the same pair (start, end). *)
Definition distinct_pairs (l : list event) : Prop :=
  forall x y : event,
    x ∈ l -> y ∈ l -> start_end_pair x = start_end_pair y -> x = y.

(** ** A concrete host

    A small host on which the definitions run: the clock stands still at
    2024-01-01 12:00, the local zone is UTC-5, magnitudes are decimal
    integers, markup-free text is one chunk, and every recurrence rule
    has its next occurrence on 2024-01-08 18:00. *)

Module SampleHost.

Definition digit_value (c : ascii) : option Z :=
  let n := Z.of_nat (nat_of_ascii c) in
  if (48 <=? n) && (n <=? 57) then Some (n - 48) else None.

Fixpoint number_from (acc : Z) (s : string) : option Z :=
  match s with
  | EmptyString => Some acc
  | String c rest =>
      match digit_value c with
      | Some d => number_from (acc * 10 + d) rest
      | None => None
      end
  end.

Definition number (s : string) : option Z :=
  match s with
  | EmptyString => None
  | _ => number_from 0 s
  end.

(** Exactly [YYYY-MM-DD HH:MM]. *)
Definition parse_ymd_hm (s : string) : result naive :=
  match number (substring 0 4 s), number (substring 5 2 s),
        number (substring 8 2 s), number (substring 11 2 s),
        number (substring 14 2 s) with
  | Some y, Some m, Some d, Some hh, Some mm =>
      if (String.length s =? 16)%nat
         && String.eqb (substring 4 1 s) "-" && String.eqb (substring 7 1 s) "-"
         && String.eqb (substring 10 1 s) " " && String.eqb (substring 13 1 s) ":"
         && (1 <=? y) && (1 <=? m) && (m <=? 12) && (1 <=? d)
         && (d <=? Cal.days_in_month y m) && (hh <? 24) && (mm <? 60)
      then Ok (mk_naive y m d hh mm 0 0)
      else Raise (ValueError "time data does not match format")
  | _, _, _, _, _ => Raise (ValueError "time data does not match format")
  end.

Definition sum_kwargs (kw : gmap string Z) : result timedelta :=
  let arg k := default 0 (kw !! k) in
  let hours := (arg "weeks" * 7 + arg "days") * 24 + arg "hours" in
  let seconds := (hours * 60 + arg "minutes") * 60 + arg "seconds" in
  Ok (mk_timedelta (seconds * US_PER_SECOND)).

Definition noon : naive := mk_naive 2024 1 1 12 0 0 0.
Definition next_monday : naive := mk_naive 2024 1 8 18 0 0 0.

#[export] Instance host : Host := {|
  clock := fun _ => noon;
  local_utcoffset := fun _ => -18000;
  strptime := parse_ymd_hm;
  float := Z;
  float_of_str := number;
  timedelta_kwargs := sum_kwargs;
  html_data := fun s => [s];
  rfc_rrule := fun _ rule => Ok rule;
  rrule_after := fun _ _ => Ok (Some next_monday);
  path_join := fun a b => a +:+ "/" +:+ b;
  datetime_str := fun _ => "datetime"
|}.

End SampleHost.

(** ** Sample data *)

(** The start time of the specification's example: 2024-03-01 09:00 in
    the zone UTC-5. *)
Definition march_first_9am : aware :=
  mk_aware (mk_naive 2024 3 1 9 0 0 0) (-18000).

Definition march_first_11am : aware :=
  mk_aware (mk_naive 2024 3 1 11 0 0 0) (-18000).

(** An article announcing a meeting on 2024-03-01, 09:00 to 11:00. *)
Definition meeting : event :=
  mk_event "meeting.html" None
    (<["title" := MStr "Meeting"]>
     (<["summary" := MStr "Monthly meeting"]>
      (<["date" := MDate (Aware (mk_aware (mk_naive 2024 1 1 8 0 0 0) 0))]> ∅)))
    (mk_epd march_first_9am march_first_11am).

Definition duration_field (s : string) : gmap string mvalue :=
  {[ "event-duration" := MStr s ]}.

(** A page (not an article) that carries a start time and neither an end
    nor a duration. *)
Definition page_with_start : content :=
  mk_content false "about.html"
    (<["title" := MStr "About"]> {[ "event-start" := MStr "2030-01-01 10:00" ]})
    None.

(** The article of the specification's scenario: start 2030-01-01 10:00,
    duration "1h 30m", no explicit end. *)
Definition new_year_article : content :=
  mk_content true "new-year.html"
    (<["title" := MStr "New year"]>
     (<["event-start" := MStr "2030-01-01 10:00"]>
      {[ "event-duration" := MStr "1h 30m" ]}))
    None.

Definition new_year_10am : aware :=
  mk_aware (mk_naive 2030 1 1 10 0 0 0) (-18000).

Definition new_year_1130am : aware :=
  mk_aware (mk_naive 2030 1 1 11 30 0 0) (-18000).

(** One configured recurring event. *)
Definition weekly_meetup : gmap string string :=
  <["recurring_rule" := "every Monday"]>
  (<["title" := "Meetup"]>
   (<["summary" := "Weekly meetup"]>
    (<["location" := "Library"]>
     (<["page_url" := "meetup"]>
      {[ "event-duration" := "2h" ]})))).

Definition settings_with_meetup : settings :=
  mk_settings
    (<["recurring_events" := PList [weekly_meetup]]>
       {[ "ics_fname" := PStr "calendar.ics" ]})
    "output" "https://example.org/" "en" [].

(** The record the sample host's recurrence rule produces for it. *)
Definition meetup_event : event :=
  mk_event "pages/meetup" (Some "Library")
    (<["title" := MStr "Meetup"]>
     (<["summary" := MStr "Weekly meetup"]>
      (<["date" := MDate (Naive (mk_naive 2024 1 8 18 0 0 0))]>
       (<["event-location" := MStr "Library"]> ∅))))
    (mk_epd (mk_aware (mk_naive 2024 1 8 18 0 0 0) (-18000))
            (mk_aware (mk_naive 2024 1 8 20 0 0 0) (-18000))).

(** An event that began at 09:00 on 2024-01-01 and ends at 17:00 that
    day, both in UTC-5: at noon its start is past and its end is ahead. *)
Definition workshop : event :=
  mk_event "workshop.html" None
    (<["title" := MStr "Workshop"]>
     (<["summary" := MStr "All-day workshop"]>
      (<["date" := MDate (Aware (mk_aware (mk_naive 2023 12 1 8 0 0 0) 0))]> ∅)))
    (mk_epd (mk_aware (mk_naive 2024 1 1 9 0 0 0) (-18000))
            (mk_aware (mk_naive 2024 1 1 17 0 0 0) (-18000))).

(** The component the export builds for [meeting]. *)
Definition meeting_component : vevent :=
  mk_vevent "Monthly meeting" "20240301T140000Z" "20240301T160000Z"
    "20240101T080000Z" 5 "https://example.org/meeting.html" None.

Definition world_with_workshop_and_meeting : world :=
  mk_world [workshop; meeting] [] 0 ∅ ∅.

(** A localized build whose only bucket is for German, while the default
    language of the sample settings is English. *)
Definition world_localized_de : world :=
  mk_world [meeting] [("de", [meeting])] 0 ∅ ∅.

Definition empty_world : world := mk_world [] [] 0 ∅ ∅.

Definition world_with_meeting : world := mk_world [meeting] [] 0 ∅ ∅.

(** A configuration that names the output file and nothing else. *)
Definition settings_without_summary_key : settings :=
  mk_settings {[ "ics_fname" := PStr "calendar.ics" ]}
    "output" "https://example.org/" "en" [].

(** The same with the summary field configured, respectively set to the
    empty string. *)
Definition settings_with_summary_key (field : string) : settings :=
  mk_settings
    (<["metadata_field_for_summary" := PStr field]>
       {[ "ics_fname" := PStr "calendar.ics" ]})
    "output" "https://example.org/" "en" [].

(** An event that ended at 23:59 on 2023-12-31, and one that ended at
    00:30 on 2024-01-01, hours before the sample host's noon. *)
Definition new_years_eve_party : event :=
  mk_event "party.html" None (<["title" := MStr "Party"]> ∅)
    (mk_epd (mk_aware (mk_naive 2023 12 31 20 0 0 0) (-18000))
            (mk_aware (mk_naive 2023 12 31 23 59 0 0) (-18000))).

Definition fireworks : event :=
  mk_event "fireworks.html" None (<["title" := MStr "Fireworks"]> ∅)
    (mk_epd (mk_aware (mk_naive 2024 1 1 0 0 0 0) (-18000))
            (mk_aware (mk_naive 2024 1 1 0 30 0 0) (-18000))).

(** A second announcement of the meeting: same start and end as
    [meeting], another page. *)
Definition meeting_again : event :=
  mk_event "meeting-reminder.html" None
    (<["title" := MStr "Meeting (reminder)"]> ∅)
    (mk_epd march_first_9am march_first_11am).

Definition world_of_four : world :=
  mk_world [meeting; new_years_eve_party; meeting_again; workshop] [] 0 ∅ ∅.

(** A shorter meeting: it starts with [meeting] and ends an hour before
    it. *)
Definition march_first_10am : aware :=
  mk_aware (mk_naive 2024 3 1 10 0 0 0) (-18000).

Definition short_meeting : event :=
  mk_event "short-meeting.html" None (<["title" := MStr "Short meeting"]> ∅)
    (mk_epd march_first_9am march_first_10am).

(** The four records and then the shorter meeting, appended last. *)
Definition world_of_five : world :=
  mk_world [meeting; new_years_eve_party; meeting_again; workshop;
            short_meeting] [] 0 ∅ ∅.

(** A localized build with two buckets of three records. *)
Definition world_with_two_buckets : world :=
  mk_world [meeting; workshop; short_meeting; new_years_eve_party;
            meeting_again; fireworks]
    [("en", [meeting; workshop; short_meeting]);
     ("de", [new_years_eve_party; meeting_again; fireworks])] 0 ∅ ∅.

(** What a sorted view owes its input: the same records, in the order of
    the pair key (descending when reversed), records with equal keys in
    the order of the input. *)
Definition stable_view (reverse : bool) (input output : list event) : Prop :=
  Permutation output input
  /\ (if reverse then descending output else ascending output)
  /\ forall k : Z * Z,
       List.filter (same_key k) output = List.filter (same_key k) input.

(** Strings made of decimal digits only. *)
Fixpoint all_digits (s : string) : Prop :=
  match s with
  | EmptyString => True
  | String c rest =>
      (48 <= nat_of_ascii c <= 57)%nat /\ all_digits rest
  end.

(** ** Further definitions *)

(** A string holds a character [str.split()] treats as white space. *)
Fixpoint has_space (s : string) : bool :=
  match s with
  | EmptyString => false
  | String c rest => is_space c || has_space rest
  end.

(** A word: a non-empty string without white space. *)
Definition is_word (s : string) : Prop := s <> "" /\ has_space s = false.
(** A string made of white space only. *)
Fixpoint all_space (s : string) : bool :=
  match s with
  | EmptyString => true
  | String c rest => is_space c && all_space rest
  end.

(** The exception [parse_timedelta] raises for a chunk [c] that the loop
    does not accept, when the metadata has a title: the multiplier is
    looked up first, the magnitude is parsed second. *)
Definition malformed_chunk_error (c : string) : exn :=
  match last_char c with
  | None => IndexError "string index out of range"
  | Some u =>
      match TIME_MULTIPLIERS u with
      | None => RuntimeError ("Unknown time multiplier '" +:+ c +:+ "'")
      | Some _ => ValueError ("Unable to parse '" +:+ c +:+ "'")
      end
  end.

(** Sample metadata: a title and a duration. *)
Definition titled_duration (s : string) : gmap string mvalue :=
  <["title" := MStr "Event"]> {[ "event-duration" := MStr s ]}.
(** The article of the scenario, marked as a draft. *)
Definition draft_article : content :=
  mk_content true "new-year.html"
    (<["status" := MStr "draft"]> (c_metadata new_year_article)) None.
(** The record [insert_recurring_events] builds for a configured
    recurrence: what it takes from the configuration entry. *)
Definition describes (spec : gmap string string) (ev : event) : Prop :=
  exists page loc title summary : string,
    spec !! "page_url" = Some page /\ spec !! "location" = Some loc
    /\ spec !! "title" = Some title /\ spec !! "summary" = Some summary
    /\ url ev = "pages/" +:+ page
    /\ location ev = Some loc
    /\ metadata ev !! "title" = Some (MStr title)
    /\ metadata ev !! "summary" = Some (MStr summary)
    /\ metadata ev !! "event-location" = Some (MStr loc)
    /\ metadata ev !! "lang" = None
    /\ metadata ev !! "status" = None.

(** The world after [n] readings of the clock and the appending of
    [new] to [events]. *)
Definition extended (w : world) (new : list event) (t : nat) : world :=
  mk_world (events w ++ new) (localized_events w) t (files w) (context w).
(** A configured recurrence that lacks its duration, and a configuration
    that lists it after [weekly_meetup]. *)
Definition recurrence_without_duration : gmap string string :=
  {[ "recurring_rule" := "every day" ]}.

Definition settings_with_broken_recurrence : settings :=
  mk_settings
    {[ "recurring_events"
       := PList [weekly_meetup; recurrence_without_duration] ]}
    "output" "https://example.org/" "en" [].
(** The workshop without any metadata: no title, no summary, no date. *)
Definition workshop_without_metadata : event :=
  mk_event "workshop.html" None ∅ (plugin_data workshop).

(** The number a string of decimal digits denotes, [-1] for any other
    string. *)
Definition decimal_value (s : string) : Z :=
  match DecimalString.NilZero.uint_of_string s with
  | Some u => Z.of_N (N.of_uint u)
  | None => -1
  end.

(** New York and Berlin wall clocks for one instant, and the second
    after it. *)
Definition three_pm_in_berlin : aware :=
  mk_aware (mk_naive 2024 3 1 15 0 0 250000) 3600.

Definition a_second_past_three_in_berlin : aware :=
  mk_aware (mk_naive 2024 3 1 15 0 1 0) 3600.

(** ** Localized buckets ([generate_localized_events]) *)

(** [localized_events[lang].append(e)] on the [defaultdict(list)]: the
    record goes to the end of the bucket of [lang]; a bucket that does
    not exist yet is created after the others. *)
Fixpoint bucket_append (d : list (string * list event)) (lang : string)
    (e : event) : list (string * list event) :=
  match d with
  | [] => [(lang, [e])]
  | (k, v) :: rest =>
      if String.eqb k lang then (k, (v ++ [e])%list) :: rest
      else (k, v) :: bucket_append rest lang e
  end.

(** The loop over [events].  A record without [lang] is only logged, and
    the log line needs its title.  A [lang] that is no string would
    become a key that is no string; the buckets of this development have
    string keys, and the loop is not modelled there ([None]). *)
Fixpoint localize_loop (l : list event) (d : list (string * list event))
  : option (result unit * list (string * list event)) :=
  match l with
  | [] => Some (Ok tt, d)
  | e :: rest =>
      match metadata e !! "lang" with
      | Some (MStr lang) => localize_loop rest (bucket_append d lang e)
      | Some (MDate _) => None
      | None =>
          match getitem (metadata e) "title" with
          | Ok _ => localize_loop rest d
          | Raise err => Some (Raise err, d)
          end
      end
  end.

(** [generate_localized_events].  The world holds the calendar files
    only, so that creating the output directory changes none of its
    components. *)
Definition generate_localized_events (st : settings) (w : world)
  : option (result unit * world) :=
  if bool_decide ("i18n_subsites" ∈ PLUGINS st) then
    match localize_loop (events w) (localized_events w) with
    | Some (r, d) =>
        Some (r, mk_world (events w) d (ticks w) (files w) (context w))
    | None => None
    end
  else Some (Ok tt, w).

(** The record carries the language [lang]. *)
Definition in_lang (lang : string) (e : event) : bool :=
  match metadata e !! "lang" with
  | Some (MStr s) => String.eqb s lang
  | _ => false
  end.

(** The record carries a language. *)
Definition has_lang (e : event) : bool :=
  match metadata e !! "lang" with
  | Some (MStr _) => true
  | _ => false
  end.

(** Records the loop passes: the language is a string, or there is none
    and the record has a title for the log line. *)
Definition localizable (e : event) : Prop :=
  match metadata e !! "lang" with
  | Some (MStr _) => True
  | Some (MDate _) => False
  | None => is_Some (metadata e !! "title")
  end.

(** A bucket after records were appended to it: there is none when there
    was none and nothing was appended. *)
Definition merged (old : option (list event)) (new : list event)
  : option (list event) :=
  match old, new with
  | None, [] => None
  | _, _ => Some (default [] old ++ new)%list
  end.

(** The record [e] written in the language [lang]. *)
Definition tagged (lang : string) (e : event) : event :=
  mk_event (url e) (location e) (<["lang" := MStr lang]> (metadata e))
    (plugin_data e).

Definition settings_with_subsites : settings :=
  mk_settings
    (<["metadata_field_for_summary" := PStr "summary"]>
       {[ "ics_fname" := PStr "calendar.ics" ]})
    "output" "https://example.org/" "en" ["i18n_subsites"].

(** A German and an English article, a second German one, and between
    them the record of a recurring event, which has no language. *)
Definition world_of_two_languages : world :=
  mk_world [tagged "de" meeting; meetup_event; tagged "en" workshop;
            tagged "de" meeting_again] [] 0 ∅ ∅.

(** The buckets of [world_of_two_languages]. *)
Definition world_of_two_languages_localized : world :=
  mk_world (events world_of_two_languages)
    [("de", [tagged "de" meeting; tagged "de" meeting_again]);
     ("en", [tagged "en" workshop])] 0 ∅ ∅.

(** A German article followed by a record that has no metadata. *)
Definition world_with_untitled_record : world :=
  mk_world [tagged "de" meeting; workshop_without_metadata;
            tagged "en" workshop] [] 0 ∅ ∅.

(** [test] holds of the [fuel] integers from [x] on. *)
Fixpoint all_from (test : Z -> bool) (fuel : nat) (x : Z) : bool :=
  match fuel with
  | O => true
  | S fuel' => test x && all_from test fuel' (x + 1)
  end.


(** * Properties *)

(** ** Calendar arithmetic *)

Section CalendarFacts.
Import Cal.

(** The Gregorian cycle: with [0 <= b <= 3], [0 <= c <= 24] and
    [0 <= d <= 3], the year [400a + 100b + 4c + d + 1] starts
    [146097a + 36524b + 1461c + 365d] days after day 1. *)
Lemma days_before_year_cycle (a b c d : Z) :
  0 <= b <= 3 -> 0 <= c <= 24 -> 0 <= d <= 3 ->
  days_before_year (400 * a + 100 * b + 4 * c + d + 1)
  = DI400Y * a + DI100Y * b + DI4Y * c + 365 * d.
Proof.
  intros Hb Hc Hd. unfold days_before_year, DI400Y, DI100Y, DI4Y.
  replace (400 * a + 100 * b + 4 * c + d + 1 - 1)
    with (400 * a + 100 * b + 4 * c + d) by lia.
  assert (E4 : (400 * a + 100 * b + 4 * c + d) / 4 = 100 * a + 25 * b + c).
  { symmetry. apply (Z.div_unique _ 4 _ d); lia. }
  assert (E100 : (400 * a + 100 * b + 4 * c + d) / 100 = 4 * a + b).
  { symmetry. apply (Z.div_unique _ 100 _ (4 * c + d)); lia. }
  assert (E400 : (400 * a + 100 * b + 4 * c + d) / 400 = a).
  { symmetry. apply (Z.div_unique _ 400 _ (100 * b + 4 * c + d)); lia. }
  rewrite E4, E100, E400. lia.
Qed.

Lemma is_leap_cycle (a b c d : Z) :
  0 <= b <= 3 -> 0 <= c <= 24 -> 0 <= d <= 3 ->
  is_leap (400 * a + 100 * b + 4 * c + d + 1)
  = (d =? 3) && (negb (c =? 24) || (b =? 3)).
Proof.
  intros Hb Hc Hd. unfold is_leap.
  set (y := 400 * a + 100 * b + 4 * c + d + 1).
  assert (M4 : y mod 4 = (d + 1) mod 4).
  { unfold y. replace (400 * a + 100 * b + 4 * c + d + 1)
      with (d + 1 + (100 * a + 25 * b + c) * 4) by lia.
    apply Z.mod_add. lia. }
  assert (M100 : y mod 100 = (4 * c + d + 1) mod 100).
  { unfold y. replace (400 * a + 100 * b + 4 * c + d + 1)
      with (4 * c + d + 1 + (4 * a + b) * 100) by lia.
    apply Z.mod_add. lia. }
  assert (M400 : y mod 400 = (100 * b + 4 * c + d + 1) mod 400).
  { unfold y. replace (400 * a + 100 * b + 4 * c + d + 1)
      with (100 * b + 4 * c + d + 1 + a * 400) by lia.
    apply Z.mod_add. lia. }
  rewrite M4, M100, M400.
  assert (Hd' : d = 0 \/ d = 1 \/ d = 2 \/ d = 3) by lia.
  destruct (Z.eqb_spec d 3) as [->|Hd3].
  - rewrite Z.mod_same by lia. simpl.
    destruct (Z.eqb_spec c 24) as [->|Hc24]; simpl.
    + assert (Hb' : b = 0 \/ b = 1 \/ b = 2 \/ b = 3) by lia.
      destruct Hb' as [->|[->|[->| ->]]]; reflexivity.
    + assert (E : (4 * c + 3 + 1) mod 100 = 4 * c + 3 + 1)
        by (apply Z.mod_small; lia).
      rewrite E. destruct (Z.eqb_spec (4 * c + 3 + 1) 0); [lia | reflexivity].
  - destruct Hd' as [->|[->|[->| ->]]]; try reflexivity. lia.
Qed.

Lemma month_and_day_checked (leap : bool) :
  forallb (month_and_day_ok leap) (map Z.of_nat (seq 0 365)) = true.
Proof. destruct leap; vm_compute; reflexivity. Qed.

Lemma month_and_day_spec (leap : bool) (n : Z) :
  0 <= n < 365 ->
  let '(m, d) := month_and_day n leap in
  1 <= m <= 12 /\ 1 <= d <= DAYS_IN_MONTH m + b2z ((m =? 2) && leap)
  /\ DAYS_BEFORE_MONTH m + b2z ((2 <? m) && leap) + d = n + 1.
Proof.
  intros Hn.
  pose proof (month_and_day_checked leap) as Hall.
  rewrite forallb_forall in Hall.
  specialize (Hall n).
  assert (Hin : In n (map Z.of_nat (seq 0 365))).
  { apply in_map_iff. exists (Z.to_nat n). split; [lia|].
    apply in_seq. lia. }
  specialize (Hall Hin). unfold month_and_day_ok in Hall.
  destruct (month_and_day n leap) as [m d].
  repeat (apply andb_prop in Hall; destruct Hall as [Hall ?]).
  repeat split; lia.
Qed.

(** [_ord2ymd] inverts [_ymd2ord] and returns a date of the calendar. *)
Lemma ord2ymd_spec (n : Z) :
  1 <= n ->
  let '(y, m, d) := ord2ymd n in
  1 <= y /\ 1 <= m <= 12 /\ 1 <= d <= days_in_month y m
  /\ ymd2ord y m d = n.
Proof.
  intros Hn. unfold ord2ymd. cbv zeta.
  set (n0 := n - 1).
  set (a := n0 / DI400Y). set (r1 := n0 mod DI400Y).
  set (b := r1 / DI100Y). set (r2 := r1 mod DI100Y).
  set (c := r2 / DI4Y). set (r3 := r2 mod DI4Y).
  set (d := r3 / 365). set (r := r3 mod 365).
  assert (Ha : n0 = DI400Y * a + r1 /\ 0 <= r1 < DI400Y).
  { split; [apply Z.div_mod | apply Z.mod_pos_bound]; unfold DI400Y; lia. }
  assert (Hb : r1 = DI100Y * b + r2 /\ 0 <= r2 < DI100Y).
  { split; [apply Z.div_mod | apply Z.mod_pos_bound]; unfold DI100Y; lia. }
  assert (Hc : r2 = DI4Y * c + r3 /\ 0 <= r3 < DI4Y).
  { split; [apply Z.div_mod | apply Z.mod_pos_bound]; unfold DI4Y; lia. }
  assert (Hd : r3 = 365 * d + r /\ 0 <= r < 365).
  { split; [apply Z.div_mod | apply Z.mod_pos_bound]; lia. }
  clearbody a r1 b r2 c r3 d r.
  unfold DI400Y, DI100Y, DI4Y in *.
  assert (Ha0 : 0 <= a) by (unfold n0 in *; lia).
  replace (a * 400 + 1 + b * 100 + c * 4 + d)
    with (400 * a + 100 * b + 4 * c + d + 1) by lia.
  destruct (Z.eqb_spec d 4) as [Hd4|Hd4]; simpl orb.
  - (* last day of a leap year that ends a 4-year cycle *)
    replace (400 * a + 100 * b + 4 * c + d + 1 - 1)
      with (400 * a + 100 * b + 4 * c + 3 + 1) by lia.
    assert (Hb3 : 0 <= b <= 3) by lia.
    assert (Hc23 : 0 <= c <= 23) by lia.
    unfold ymd2ord, days_before_month, days_in_month.
    rewrite (is_leap_cycle a b c 3) by lia.
    rewrite (days_before_year_cycle a b c 3) by lia.
    replace (3 =? 3) with true by reflexivity.
    destruct (Z.eqb_spec c 24); [lia|]. simpl.
    unfold DI400Y, DI100Y, DI4Y. unfold n0 in *. lia.
  - destruct (Z.eqb_spec b 4) as [Hb4|Hb4].
    + (* last day of a 400-year cycle *)
      assert (c = 0 /\ d = 0 /\ r = 0) as (-> & -> & ->) by lia.
      subst b.
      replace (400 * a + 100 * 4 + 4 * 0 + 0 + 1 - 1)
        with (400 * a + 100 * 3 + 4 * 24 + 3 + 1) by lia.
      unfold ymd2ord, days_before_month, days_in_month.
      rewrite (is_leap_cycle a 3 24 3) by lia.
      rewrite (days_before_year_cycle a 3 24 3) by lia.
      simpl. unfold DI400Y, DI100Y, DI4Y. unfold n0 in *. lia.
    + assert (Hb3 : 0 <= b <= 3) by lia.
      assert (Hc24 : 0 <= c <= 24) by lia.
      assert (Hd3 : 0 <= d <= 3) by lia.
      set (leap := (d =? 3) && (negb (c =? 24) || (b =? 3))).
      pose proof (month_and_day_spec leap r (proj2 Hd)) as Hmd.
      destruct (month_and_day r leap) as [m dd].
      destruct Hmd as (Hm & Hdd & Hsum).
      unfold ymd2ord, days_before_month, days_in_month.
      rewrite (is_leap_cycle a b c d) by lia. fold leap.
      rewrite (days_before_year_cycle a b c d) by lia.
      unfold DI400Y, DI100Y, DI4Y. unfold n0 in *.
      repeat split; try lia.
      destruct ((m =? 2) && leap) eqn:E.
      * apply andb_prop in E. destruct E as [E _].
        apply Z.eqb_eq in E. subst m. simpl in Hdd. lia.
      * unfold b2z in Hdd. lia.
Qed.

Lemma days_before_year_succ (y : Z) :
  days_before_year (y + 1) = days_before_year y + 365 + b2z (is_leap y).
Proof.
  unfold days_before_year, is_leap, b2z.
  replace (y + 1 - 1) with y by lia.
  destruct (Z.eqb_spec (y mod 4) 0) as [E4|E4];
    destruct (Z.eqb_spec (y mod 100) 0) as [E100|E100];
    destruct (Z.eqb_spec (y mod 400) 0) as [E400|E400]; simpl;
    Z.div_mod_to_equations; lia.
Qed.

(** A year has 365 or 366 days, and later years start later. *)
Lemma days_before_year_mono (y1 y2 : Z) :
  y1 < y2 ->
  days_before_year y1 + 365 + b2z (is_leap y1) <= days_before_year y2.
Proof.
  intros Hlt.
  assert (G : forall k, 0 <= k ->
            days_before_year y1 + 365 + b2z (is_leap y1)
            <= days_before_year (y1 + 1 + k)).
  { apply natlike_ind.
    - rewrite Z.add_0_r, days_before_year_succ. lia.
    - intros k Hk IH. replace (y1 + 1 + Z.succ k) with (y1 + 1 + k + 1) by lia.
      rewrite days_before_year_succ.
      assert (0 <= b2z (is_leap (y1 + 1 + k)))
        by (destruct (is_leap (y1 + 1 + k)); unfold b2z; lia).
      lia. }
  specialize (G (y2 - y1 - 1)).
  replace (y1 + 1 + (y2 - y1 - 1)) with y2 in G by lia.
  apply G. lia.
Qed.

(** Inside a year, the day number of a date is between 1 and the
    year's length, and grows with the pair (month, day). *)
Lemma day_of_year_bounds (y m d : Z) :
  1 <= m <= 12 -> 1 <= d <= days_in_month y m ->
  1 <= days_before_month y m + d <= 365 + b2z (is_leap y).
Proof.
  intros Hm Hd. unfold days_before_month, days_in_month in *.
  assert (Hm' : m = 1 \/ m = 2 \/ m = 3 \/ m = 4 \/ m = 5 \/ m = 6 \/ m = 7
                \/ m = 8 \/ m = 9 \/ m = 10 \/ m = 11 \/ m = 12) by lia.
  destruct (is_leap y);
    repeat (destruct Hm' as [->|Hm']; [simpl in *; lia|]);
    subst m; simpl in *; lia.
Qed.

Lemma day_of_year_mono (y m1 d1 m2 d2 : Z) :
  1 <= m1 <= 12 -> 1 <= d1 <= days_in_month y m1 ->
  1 <= m2 <= 12 -> 1 <= d2 ->
  m1 < m2 ->
  days_before_month y m1 + d1 < days_before_month y m2 + d2.
Proof.
  intros Hm1 Hd1 Hm2 Hd2 Hlt. unfold days_before_month, days_in_month in *.
  assert (Hm1' : m1 = 1 \/ m1 = 2 \/ m1 = 3 \/ m1 = 4 \/ m1 = 5 \/ m1 = 6
                 \/ m1 = 7 \/ m1 = 8 \/ m1 = 9 \/ m1 = 10 \/ m1 = 11
                 \/ m1 = 12) by lia.
  assert (Hm2' : m2 = 1 \/ m2 = 2 \/ m2 = 3 \/ m2 = 4 \/ m2 = 5 \/ m2 = 6
                 \/ m2 = 7 \/ m2 = 8 \/ m2 = 9 \/ m2 = 10 \/ m2 = 11
                 \/ m2 = 12) by lia.
  destruct (is_leap y);
    repeat (destruct Hm1' as [->|Hm1']; [|]);
    try subst m1;
    repeat (destruct Hm2' as [->|Hm2']; [try lia; simpl in *; lia|]);
    try subst m2; try lia; simpl in *; lia.
Qed.

(** On dates of the calendar, the tuple comparison of [date] is the
    comparison of the day numbers. *)
Lemma date_ge_toordinal (a b : date) :
  valid_date a -> valid_date b ->
  date_ge a b = (date_toordinal b <=? date_toordinal a).
Proof.
  intros (Hya & Hma & Hda) (Hyb & Hmb & Hdb).
  unfold date_ge, date_toordinal, ymd2ord.
  pose proof (day_of_year_bounds _ _ _ Hma Hda) as Ba.
  pose proof (day_of_year_bounds _ _ _ Hmb Hdb) as Bb.
  destruct (Z.eqb_spec (d_year a) (d_year b)) as [Ey|Ny].
  - rewrite Ey in *.
    destruct (Z.eqb_spec (d_month a) (d_month b)) as [Em|Nm].
    + rewrite Em. apply eq_true_iff_eq. rewrite !Z.leb_le. lia.
    + apply eq_true_iff_eq. rewrite Z.ltb_lt, Z.leb_le.
      destruct (Z.lt_ge_cases (d_month b) (d_month a)) as [Hlt|Hge].
      * pose proof (day_of_year_mono (d_year b) _ _ _ (d_day a) Hmb Hdb Hma
                      (proj1 Hda) Hlt). lia.
      * assert (Hlt : d_month a < d_month b) by lia.
        pose proof (day_of_year_mono (d_year b) _ _ _ (d_day b) Hma Hda Hmb
                      (proj1 Hdb) Hlt). lia.
  - apply eq_true_iff_eq. rewrite Z.ltb_lt, Z.leb_le.
    destruct (Z.lt_ge_cases (d_year b) (d_year a)) as [Hlt|Hge].
    + pose proof (days_before_year_mono _ _ Hlt). lia.
    + assert (Hlt : d_year a < d_year b) by lia.
      pose proof (days_before_year_mono _ _ Hlt). lia.
Qed.

(** The reading built from a microsecond count: it is a datetime of the
    calendar and it reads that count. *)
Lemma of_wall_us_spec (us : Z) :
  0 < us / US_PER_DAY <= MAXORDINAL ->
  exists n, of_wall_us us = Ok n /\ valid_naive n /\ wall_us n = us.
Proof.
  intros Hd. unfold of_wall_us.
  destruct (Z.ltb_spec 0 (us / US_PER_DAY)); [|lia].
  destruct (Z.leb_spec (us / US_PER_DAY) MAXORDINAL); [|lia]. simpl.
  pose proof (ord2ymd_spec (us / US_PER_DAY) ltac:(lia)) as Hord.
  destruct (ord2ymd (us / US_PER_DAY)) as [[y m] d].
  destruct Hord as (Hy & Hm & Hdd & Hord).
  eexists. split; [reflexivity|].
  assert (Hrest : 0 <= us mod US_PER_DAY < US_PER_DAY)
    by (apply Z.mod_pos_bound; reflexivity).
  assert (Hus : us = US_PER_DAY * (us / US_PER_DAY) + us mod US_PER_DAY)
    by (apply Z.div_mod; discriminate).
  set (rest := us mod US_PER_DAY) in *.
  unfold US_PER_DAY, US_PER_SECOND in *.
  split.
  - unfold valid_naive; simpl. unfold US_PER_SECOND.
    assert (y <= 9999).
    { destruct (Z.le_gt_cases y 9999) as [|Hbig]; [assumption|exfalso].
      pose proof (day_of_year_bounds y m d Hm Hdd) as B.
      assert (E : days_before_year 10000 = MAXORDINAL) by reflexivity.
      destruct (Z.eq_dec y 10000) as [->|Hne].
      - unfold ymd2ord in Hord. lia.
      - pose proof (days_before_year_mono 10000 y ltac:(lia)) as Mo.
        unfold ymd2ord in Hord.
        assert (0 <= b2z (is_leap 10000)) by (vm_compute; discriminate).
        lia. }
    repeat split; try lia; Z.div_mod_to_equations; lia.
  - unfold wall_us, toordinal, seconds_of_day; simpl.
    rewrite Hord. unfold US_PER_SECOND.
    Z.div_mod_to_equations; lia.
Qed.

(** On datetimes of the calendar, the tuple comparison of naive
    datetimes is the comparison of their readings in microseconds. *)
Lemma naive_le_wall_us (a b : naive) :
  valid_naive a -> valid_naive b ->
  naive_le a b = (wall_us a <=? wall_us b).
Proof.
  intros (Hya & Hma & Hda & Hha & Hmia & Hsa & Husa)
         (Hyb & Hmb & Hdb & Hhb & Hmib & Hsb & Husb).
  pose proof (date_ge_toordinal (date_of a) (date_of b)
                (conj Hya (conj Hma Hda)) (conj Hyb (conj Hmb Hdb))) as Hab.
  pose proof (date_ge_toordinal (date_of b) (date_of a)
                (conj Hyb (conj Hmb Hdb)) (conj Hya (conj Hma Hda))) as Hba.
  unfold date_ge, date_toordinal, date_of in Hab, Hba.
  cbn [d_year d_month d_day] in Hab, Hba.
  unfold naive_le, wall_us, toordinal, seconds_of_day, US_PER_SECOND in *.
  set (oa := ymd2ord (dt_year a) (dt_month a) (dt_day a)) in *.
  set (ob := ymd2ord (dt_year b) (dt_month b) (dt_day b)) in *.
  assert (Eo : dt_year a = dt_year b -> dt_month a = dt_month b ->
               dt_day a = dt_day b -> oa = ob)
    by (unfold oa, ob; congruence).
  clearbody oa ob.
  repeat match goal with
         | H : context [Z.eqb ?x ?y] |- _ => destruct (Z.eqb_spec x y)
         | H : context [Z.leb ?x ?y] |- _ => destruct (Z.leb_spec x y)
         | H : context [Z.ltb ?x ?y] |- _ => destruct (Z.ltb_spec x y)
         | |- context [Z.eqb ?x ?y] => destruct (Z.eqb_spec x y)
         | |- context [Z.leb ?x ?y] => destruct (Z.leb_spec x y)
         | |- context [Z.ltb ?x ?y] => destruct (Z.ltb_spec x y)
         end;
    try discriminate; try reflexivity; exfalso; lia.
Qed.

End CalendarFacts.

(** ** Formatting *)

Section FormattingFacts.

Lemma all_digits_app (s t : string) :
  all_digits s -> all_digits t -> all_digits (s +:+ t).
Proof.
  induction s as [|c s IH]; simpl; [tauto|].
  intros [Hc Hs] Ht. split; [assumption | apply IH; assumption].
Qed.

Lemma all_digits_zeros (k : nat) : all_digits (zeros k).
Proof.
  induction k; simpl; [exact I | split; [vm_compute; lia | assumption]].
Qed.

Lemma all_digits_uint (u : Decimal.uint) :
  all_digits (NilEmpty.string_of_uint u).
Proof.
  induction u; simpl; try exact I; (split; [vm_compute; lia | assumption]).
Qed.

Lemma all_digits_digits (n : Z) : all_digits (digits n).
Proof.
  unfold digits, NilZero.string_of_uint.
  destruct (N.to_uint (Z.to_N n)) eqn:E;
    try (rewrite <- E; apply all_digits_uint).
  simpl. split; [vm_compute; lia | exact I].
Qed.

Lemma all_digits_fmt_d (width : nat) (n : Z) :
  0 <= n -> all_digits (fmt_d width n).
Proof.
  intros Hn. unfold fmt_d. destruct (Z.ltb_spec n 0); [lia|].
  apply all_digits_app; [apply all_digits_zeros | apply all_digits_digits].
Qed.

(** Replacing a character that is not a digit leaves digits alone. *)
Lemma str_replace_digits (old : ascii) (new s : string) :
  (nat_of_ascii old < 48 \/ 57 < nat_of_ascii old)%nat ->
  all_digits s -> str_replace old new s = s.
Proof.
  intros Hold. induction s as [|c s IH]; simpl; [reflexivity|].
  intros [Hc Hs]. destruct (Ascii.eqb_spec c old) as [->|_]; [lia|].
  rewrite IH; [reflexivity | assumption].
Qed.

Lemma str_app_assoc (s t u : string) : (s +:+ t) +:+ u = s +:+ (t +:+ u).
Proof.
  induction s as [|c s IH]; [reflexivity|].
  change (String c ((s +:+ t) +:+ u) = String c (s +:+ (t +:+ u))).
  f_equal. exact IH.
Qed.

Lemma str_replace_app (old : ascii) (new s t : string) :
  str_replace old new (s +:+ t)
  = str_replace old new s +:+ str_replace old new t.
Proof.
  induction s as [|c s IH]; simpl; [reflexivity|].
  destruct (Ascii.eqb c old); rewrite IH; [|reflexivity].
  symmetry. apply str_app_assoc.
Qed.

Lemma strip_separators_digits (s : string) :
  all_digits s -> str_replace ":" "" (str_replace "-" "" s) = s.
Proof.
  intros D.
  rewrite (str_replace_digits "-") by (first [left; vm_compute; lia | exact D]).
  apply str_replace_digits; [right; vm_compute; lia | exact D].
Qed.

(** Stripping the separators of the ISO form of a reading of the
    calendar leaves the basic form. *)
Lemma strip_isoformat (n : naive) :
  valid_naive n ->
  str_replace ":" "" (str_replace "-" "" (isoformat_seconds n)) +:+ "Z"
  = basic_utc_form n.
Proof.
  intros (Hy & Hm & Hd & Hh & Hmi & Hs & _).
  assert (Hdn : 0 <= dt_day n) by lia.
  unfold isoformat_seconds, basic_utc_form.
  repeat rewrite str_replace_app.
  rewrite (strip_separators_digits (fmt_d 4 (dt_year n)))
    by (apply all_digits_fmt_d; lia).
  rewrite (strip_separators_digits (fmt_d 2 (dt_month n)))
    by (apply all_digits_fmt_d; lia).
  rewrite (strip_separators_digits (fmt_d 2 (dt_day n)))
    by (apply all_digits_fmt_d; lia).
  rewrite (strip_separators_digits (fmt_d 2 (dt_hour n)))
    by (apply all_digits_fmt_d; lia).
  rewrite (strip_separators_digits (fmt_d 2 (dt_minute n)))
    by (apply all_digits_fmt_d; lia).
  rewrite (strip_separators_digits (fmt_d 2 (dt_second n)))
    by (apply all_digits_fmt_d; lia).
  replace (str_replace ":" "" (str_replace "-" "" "-")) with "" by reflexivity.
  replace (str_replace ":" "" (str_replace "-" "" ":")) with "" by reflexivity.
  replace (str_replace ":" "" (str_replace "-" "" "T")) with "T" by reflexivity.
  repeat rewrite str_app_assoc. reflexivity.
Qed.

End FormattingFacts.

(** ** Serialization of timestamps ([basic_utc_isoformat]) *)

Section Serialization.
Context `{H : Host}.

(** C7, as the code has it.  For an aware datetime whose instant falls
    on a day of the calendar (days 1 to [MAXORDINAL] at UTC), the
    conversion to UTC succeeds and yields the reading [utc] of that same
    instant; the serialization is the ISO-8601 second-precision form of
    [utc] with every '-' and ':' removed and 'Z' appended, which is the
    basic form YYYYMMDDTHHMMSSZ.  The letter T stays: 2024-03-01 09:00 in
    UTC-5 serializes to 20240301T140000Z. *)
Theorem basic_utc_isoformat_is_basic_form (a : aware) :
  0 < instant a / US_PER_DAY <= Cal.MAXORDINAL ->
  (exists utc : naive,
      utc_wall (Aware a) = Ok utc
      /\ valid_naive utc /\ wall_us utc = instant a
      /\ basic_utc_isoformat (Aware a)
         = Ok (str_replace ":" ""
                 (str_replace "-" "" (isoformat_seconds utc)) +:+ "Z")
      /\ basic_utc_isoformat (Aware a) = Ok (basic_utc_form utc))
  /\ basic_utc_isoformat (Aware march_first_9am) = Ok "20240301T140000Z".
Proof.
  intros Hrange. split; [|reflexivity].
  destruct (of_wall_us_spec (instant a) Hrange) as (utc & Hutc & Hvalid & Hus).
  exists utc. unfold basic_utc_isoformat, utc_wall. rewrite Hutc.
  split; [reflexivity|]. split; [exact Hvalid|]. split; [exact Hus|].
  split; [reflexivity|]. f_equal. apply strip_isoformat, Hvalid.
Qed.

End Serialization.

Lemma basic_utc_isoformat_is_basic_form_witness :
  0 < instant march_first_9am / US_PER_DAY <= Cal.MAXORDINAL
  /\ @basic_utc_isoformat SampleHost.host (Aware march_first_9am)
     = Ok (basic_utc_form (mk_naive 2024 3 1 14 0 0 0)).
Proof.
  split; [vm_compute; split; [reflexivity | discriminate]|].
  destruct (@basic_utc_isoformat_is_basic_form SampleHost.host march_first_9am)
    as [_ E]; [vm_compute; split; [reflexivity | discriminate]|].
  rewrite E. reflexivity.
Defined.

(** The string the specification gives for that example has no T; the
    code does not produce it. *)
Lemma basic_utc_isoformat_example_keeps_T :
  @basic_utc_isoformat SampleHost.host (Aware march_first_9am)
  <> Ok "20240301140000Z".
Proof. vm_compute. discriminate. Qed.

(** ** The calendar export ([generate_ical_file]) *)

Section CalendarExport.
Context `{H : Host}.

(** Without the key [metadata_field_for_summary] the local variable that
    holds the field name is never bound, and the test that would install
    the default reads it. *)
Lemma generate_ical_file_unbound (st : settings) (w : world) (name : pvalue) :
  PLUGIN_EVENTS st !! "ics_fname" = Some name ->
  truthy name = true ->
  PLUGIN_EVENTS st !! "metadata_field_for_summary" = None ->
  generate_ical_file st w
  = (Raise (UnboundLocalError "metadata_field_for_event_summary"), w).
Proof.
  intros Hname Htrue Hkey.
  unfold generate_ical_file, bind, lift, getitem.
  rewrite Hname, Htrue, Hkey. reflexivity.
Qed.

End CalendarExport.

(** The default applies when the key is present with an empty value. *)
Example generate_ical_file_empty_key :
  @generate_ical_file SampleHost.host (settings_with_summary_key "")
    world_with_meeting
  = @generate_ical_file SampleHost.host (settings_with_summary_key "summary")
      world_with_meeting.
Proof. vm_compute. reflexivity. Qed.

(** C1 at the failing input: the configuration names the output file and
    has no [metadata_field_for_summary] key; the export raises
    [UnboundLocalError], writes no file and emits no component, where the
    claim has the field [summary] used. *)
Theorem generate_ical_file_without_summary_key :
  @generate_ical_file SampleHost.host settings_without_summary_key
    world_with_meeting
  = (Raise (UnboundLocalError "metadata_field_for_event_summary"),
     world_with_meeting)
  /\ files (snd (@generate_ical_file SampleHost.host
                   settings_without_summary_key world_with_meeting)) = ∅
  /\ exists doc,
       files (snd (@generate_ical_file SampleHost.host
                     (settings_with_summary_key "summary") world_with_meeting))
         !! "output/calendar.ics" = Some doc
       /\ map ve_summary (cal_components doc) = ["Monthly meeting"].
Proof.
  split; [apply generate_ical_file_unbound with (name := PStr "calendar.ics");
          reflexivity|].
  split; [reflexivity|].
  eexists. split; [vm_compute; reflexivity | reflexivity].
Qed.

(** ** Durations ([parse_timedelta]) *)

Section Durations.
Context `{H : Host}.

(** The loop over well-formed chunks is a sequence of dict assignments. *)
Lemma parse_chunks_assigns (md : gmap string mvalue) (chunks : list string) :
  forall (tokens : list (string * float)) (tdargs : gmap string float),
    Forall2 (fun c t => token_of c = Some t) chunks tokens ->
    parse_chunks md tdargs chunks
    = Ok (fold_left (fun m t => <[fst t := snd t]> m) tokens tdargs).
Proof.
  induction chunks as [|c chunks IH]; intros tokens tdargs Hall.
  - apply Forall2_nil_inv_l in Hall. subst. reflexivity.
  - apply Forall2_cons_inv_l in Hall.
    destruct Hall as ([m val] & tokens' & Htok & Hrest & ->).
    simpl. unfold parse_chunk. unfold token_of in Htok.
    destruct (last_char c) as [u|]; [|discriminate].
    destruct (TIME_MULTIPLIERS u) as [m'|]; [|discriminate].
    destruct (float_of_str (but_last c)) as [val'|]; [|discriminate].
    inversion Htok; subst. apply IH, Hrest.
Qed.

(** After the assignments, a keyword holds the magnitude of its last
    token, whatever came before. *)
Lemma assignments_lookup (tokens : list (string * float)) :
  forall (tdargs : gmap string float) (unit : string),
    fold_left (fun m t => <[fst t := snd t]> m) tokens tdargs !! unit
    = match last_magnitude unit tokens with
      | Some x => Some x
      | None => tdargs !! unit
      end.
Proof.
  induction tokens as [|[u x] tokens IH]; intros tdargs unit; [reflexivity|].
  simpl. rewrite IH.
  destruct (last_magnitude unit tokens); [reflexivity|].
  destruct (String.eqb_spec u unit) as [->|Hne].
  - apply lookup_insert_eq.
  - apply lookup_insert_ne, Hne.
Qed.

(** C6.  When every token of the duration string is well formed, the
    [timedelta] constructor is called with keyword arguments in which
    each unit holds the magnitude of the LAST token with that unit and
    nothing else: earlier tokens of the same unit are overwritten, not
    added, and every unit that occurs is passed on, so that tokens of
    distinct units are combined by the constructor's sum.  "1h 2h" gives
    the call [timedelta(hours=float("2"))], the same as "2h"; "2h 30m"
    passes both magnitudes. *)
Theorem parse_timedelta_last_wins
    (md : gmap string mvalue) (s : string) (tokens : list (string * float)) :
  md !! "event-duration" = Some (MStr s) ->
  Forall2 (fun c t => token_of c = Some t) (split s) tokens ->
  (exists tdargs : gmap string float,
      (forall unit, tdargs !! unit = last_magnitude unit tokens)
      /\ parse_timedelta md = timedelta_kwargs tdargs)
  /\ (forall one two : float,
        float_of_str "1" = Some one -> float_of_str "2" = Some two ->
        parse_timedelta (duration_field "1h 2h")
        = timedelta_kwargs {[ "hours" := two ]}
        /\ parse_timedelta (duration_field "1h 2h")
           = parse_timedelta (duration_field "2h"))
  /\ (forall two thirty : float,
        float_of_str "2" = Some two -> float_of_str "30" = Some thirty ->
        parse_timedelta (duration_field "2h 30m")
        = timedelta_kwargs (<["minutes" := thirty]> {[ "hours" := two ]})).
Proof.
  intros Hmd Htok. split; [|split].
  - exists (fold_left (fun m t => <[fst t := snd t]> m) tokens ∅). split.
    + intros unit. rewrite assignments_lookup.
      destruct (last_magnitude unit tokens); [reflexivity | apply lookup_empty].
    + unfold parse_timedelta, getitem. rewrite Hmd.
      rewrite (parse_chunks_assigns md (split s) tokens ∅ Htok). reflexivity.
  - intros one two H1 H2.
    assert (E : forall str chunks toks,
               split str = chunks ->
               Forall2 (fun c t => token_of c = Some t) chunks toks ->
               parse_timedelta (duration_field str)
               = timedelta_kwargs
                   (fold_left (fun m t => <[fst t := snd t]> m) toks ∅)).
    { intros str chunks toks <- Hall. unfold parse_timedelta, getitem, duration_field.
      rewrite lookup_singleton_eq.
      rewrite (parse_chunks_assigns _ _ toks ∅ Hall). reflexivity. }
    rewrite (E "1h 2h" ["1h"; "2h"] [("hours", one); ("hours", two)]);
      [|reflexivity|].
    + rewrite (E "2h" ["2h"] [("hours", two)]); [|reflexivity|].
      * simpl. rewrite insert_insert_eq. split; reflexivity.
      * repeat constructor. unfold token_of. simpl. rewrite H2. reflexivity.
    + repeat constructor; unfold token_of; simpl;
        [rewrite H1 | rewrite H2]; reflexivity.
  - intros two thirty H2 H30.
    unfold parse_timedelta, getitem, duration_field.
    rewrite lookup_singleton_eq.
    rewrite (parse_chunks_assigns _ _ [("hours", two); ("minutes", thirty)] ∅).
    + reflexivity.
    + repeat constructor; unfold token_of; simpl;
        [rewrite H2 | rewrite H30]; reflexivity.
Qed.

End Durations.

(** On the sample host "1h 2h" is exactly two hours and "2h 30m" is two
    hours and a half. *)
Lemma parse_timedelta_last_wins_witness :
  duration_field "1h 2h" !! "event-duration" = Some (MStr "1h 2h")
  /\ Forall2 (fun c t => @token_of SampleHost.host c = Some t)
       (split "1h 2h") [("hours", 1); ("hours", 2)]
  /\ @parse_timedelta SampleHost.host (duration_field "1h 2h")
     = Ok (mk_timedelta (2 * 3600 * US_PER_SECOND))
  /\ @parse_timedelta SampleHost.host (duration_field "2h 30m")
     = Ok (mk_timedelta ((2 * 3600 + 30 * 60) * US_PER_SECOND)).
Proof.
  assert (Hmd : duration_field "1h 2h" !! "event-duration"
                = Some (MStr "1h 2h")) by apply lookup_singleton_eq.
  assert (Htok : Forall2 (fun c t => @token_of SampleHost.host c = Some t)
                   (split "1h 2h") [("hours", 1); ("hours", 2)])
    by (repeat constructor).
  split; [exact Hmd|]. split; [exact Htok|].
  destruct (@parse_timedelta_last_wins SampleHost.host _ _ _ Hmd Htok)
    as [(tdargs & Hlook & Hcall) [_ Hboth]].
  split.
  - rewrite Hcall. simpl. unfold SampleHost.sum_kwargs.
    rewrite !Hlook. reflexivity.
  - rewrite (Hboth 2 30 eq_refl eq_refl). reflexivity.
Defined.

(** ** Events built from articles ([parse_article]) *)

Section Articles.
Context `{H : Host}.

(** Adding a [timedelta] moves the instant by that much and keeps the
    zone; the result is a datetime of the calendar. *)
Lemma aware_add_instant (a a' : aware) (d : timedelta) :
  aware_add a d = Ok a' ->
  instant a' = instant a + total_us d
  /\ utcoffset a' = utcoffset a /\ valid_naive (wall a').
Proof.
  unfold aware_add, naive_add. intros Hadd.
  destruct (of_wall_us (wall_us (wall a) + total_us d)) as [n|e] eqn:E;
    [|discriminate].
  inversion Hadd; subst a'; clear Hadd. simpl.
  assert (Hrange : 0 < (wall_us (wall a) + total_us d) / US_PER_DAY
                   <= Cal.MAXORDINAL).
  { unfold of_wall_us in E.
    destruct (Z.ltb_spec 0 ((wall_us (wall a) + total_us d) / US_PER_DAY));
      [|discriminate].
    destruct (Z.leb_spec ((wall_us (wall a) + total_us d) / US_PER_DAY)
                Cal.MAXORDINAL); [lia | discriminate]. }
  destruct (of_wall_us_spec _ Hrange) as (n' & E' & Hvalid & Hus).
  rewrite E in E'. inversion E'; subst n'.
  unfold instant. cbn [wall utcoffset]. rewrite Hus.
  split; [lia | split; [reflexivity | exact Hvalid]].
Qed.

Ltac run_parse_article :=
  unfold parse_article, with_data, recorded, event_of_content, bind, lift,
    ret, raise, events_append, getitem.

Lemma astimezone_call_ok_inv (n : naive) (a : aware) :
  astimezone_call n = Ok a -> a = astimezone n.
Proof.
  unfold astimezone_call.
  destruct (of_wall_us (instant (astimezone n))); [|discriminate].
  intros [= <-]. reflexivity.
Qed.

Lemma parse_tstamp_ok_inv (md : gmap string mvalue) (field : string)
    (a : aware) :
  parse_tstamp md field = Ok a ->
  exists s n, md !! field = Some (MStr s) /\ strptime s = Ok n
              /\ a = astimezone n.
Proof.
  unfold parse_tstamp, getitem, log_title_then_raise, getitem.
  destruct (md !! field) as [[s|d]|]; intros Hp.
  - destruct (strptime s) as [n|e] eqn:E.
    + destruct (astimezone_call n) as [a'|e] eqn:Ea.
      * inversion Hp; subst a'. apply astimezone_call_ok_inv in Ea. eauto.
      * destruct (md !! "title"); discriminate.
    + destruct (md !! "title"); discriminate.
  - destruct (md !! "title"); discriminate.
  - destruct (md !! "title"); discriminate.
Qed.

(** C5, as the code has it.  For an article whose start time parses to
    [dtstart_]: (1) when an end field is present it alone decides: if it
    parses the record runs from [dtstart_] to the parsed end, whatever
    the duration field holds, and if it does not parse the error is
    raised, the duration is not tried and [events] is unchanged; (2)
    with no end field and a duration field that parses to [d], the end
    is [dtstart_ + d], the instant [d] after the start; (3) with
    neither, a [ValueError] whose message names the event's title is
    raised and no record is appended.  Content that is not an article is
    returned as it is, whatever fields it carries: nothing is parsed,
    nothing is raised and nothing is appended. *)
Theorem parse_article_end_resolution (c : content) (w : world)
    (dtstart_ : aware) :
  is_article c = true ->
  parse_tstamp (c_metadata c) "event-start" = Ok dtstart_ ->
  (is_Some (c_metadata c !! "event-end") ->
     (forall dtend_,
         parse_tstamp (c_metadata c) "event-end" = Ok dtend_ ->
         parse_article c w
         = (Ok (with_data c (mk_epd dtstart_ dtend_)),
            recorded c (mk_epd dtstart_ dtend_) w))
     /\ (forall e,
           parse_tstamp (c_metadata c) "event-end" = Raise e ->
           parse_article c w = (Raise e, w)))
  /\ (c_metadata c !! "event-end" = None ->
      is_Some (c_metadata c !! "event-duration") ->
      (forall d dtend_,
          parse_timedelta (c_metadata c) = Ok d ->
          aware_add dtstart_ d = Ok dtend_ ->
          parse_article c w
          = (Ok (with_data c (mk_epd dtstart_ dtend_)),
             recorded c (mk_epd dtstart_ dtend_) w)
          /\ instant dtend_ = instant dtstart_ + total_us d)
      /\ (forall e,
            parse_timedelta (c_metadata c) = Raise e ->
            parse_article c w = (Raise e, w)))
  /\ (c_metadata c !! "event-end" = None ->
      c_metadata c !! "event-duration" = None ->
      forall title,
        c_metadata c !! "title" = Some title ->
        parse_article c w
        = (Raise (ValueError
                    ("Either 'event-end' or 'event-duration' must be"
                     +:+ " speciefied in the event named '"
                     +:+ str_of title +:+ "'")), w))
  /\ (forall (other : content) (w0 : world),
        is_article other = false ->
        parse_article other w0 = (Ok other, w0)).
Proof.
  intros Hart Hstart.
  destruct (parse_tstamp_ok_inv _ _ _ Hstart) as (s & n & Hs & _ & _).
  split; [|split; [|split]];
    [| | |intros other w0 Hother; unfold parse_article; rewrite Hother;
          reflexivity].
  - intros [v Hv]. split.
    + intros dtend_ Hend. run_parse_article.
      rewrite Hart, Hs, Hstart, Hv, Hend.
      destruct (is_draft (c_metadata c)); reflexivity.
    + intros e Hend. run_parse_article.
      rewrite Hart, Hs, Hstart, Hv, Hend. reflexivity.
  - intros Hnone [v Hv]. split.
    + intros d dtend_ Hd Hadd. split.
      * run_parse_article.
        rewrite Hart, Hs, Hstart, Hnone, Hv, Hd, Hadd.
        destruct (is_draft (c_metadata c)); reflexivity.
      * apply (aware_add_instant _ _ _ Hadd).
    + intros e Hd. run_parse_article.
      rewrite Hart, Hs, Hstart, Hnone, Hv, Hd. reflexivity.
  - intros Hnone Hnone' title Htitle. run_parse_article.
    rewrite Hart, Hs, Hstart, Hnone, Hnone', Htitle. reflexivity.
Qed.

End Articles.

(** A page that carries a start time and neither an end nor a duration
    is skipped: nothing is raised. *)
Lemma parse_article_page_is_skipped :
  is_Some (c_metadata page_with_start !! "event-start")
  /\ c_metadata page_with_start !! "event-end" = None
  /\ c_metadata page_with_start !! "event-duration" = None
  /\ @parse_article SampleHost.host page_with_start empty_world
     = (Ok page_with_start, empty_world).
Proof.
  split; [eexists; vm_compute; reflexivity|].
  repeat split; vm_compute; reflexivity.
Qed.

(** The scenario of the specification: start 2030-01-01 10:00 and
    duration "1h 30m" give the end 2030-01-01 11:30 in the local zone,
    and the record is appended. *)
Lemma parse_article_end_resolution_witness :
  is_article new_year_article = true
  /\ @parse_tstamp SampleHost.host (c_metadata new_year_article) "event-start"
     = Ok new_year_10am
  /\ @parse_article SampleHost.host new_year_article empty_world
     = (Ok (with_data new_year_article (mk_epd new_year_10am new_year_1130am)),
        recorded new_year_article (mk_epd new_year_10am new_year_1130am)
          empty_world).
Proof.
  assert (Hstart : @parse_tstamp SampleHost.host (c_metadata new_year_article)
                     "event-start" = Ok new_year_10am)
    by (vm_compute; reflexivity).
  split; [reflexivity|]. split; [exact Hstart|].
  destruct (@parse_article_end_resolution SampleHost.host new_year_article
              empty_world new_year_10am eq_refl Hstart) as (_ & Hduration & _).
  destruct Hduration as [Hbuilt _].
  - vm_compute; reflexivity.
  - eexists; vm_compute; reflexivity.
  - apply (Hbuilt (mk_timedelta (5400 * US_PER_SECOND)));
      vm_compute; reflexivity.
Defined.

(** ** Timestamps of the records in [events] *)

Section Timestamps.
Context `{H : Host}.

(** A naive timestamp is serialized as if the local zone had been
    attached to it. *)
Lemma basic_utc_isoformat_naive (n : naive) :
  basic_utc_isoformat (Naive n) = basic_utc_isoformat (Aware (astimezone n)).
Proof. unfold basic_utc_isoformat, utc_wall. reflexivity. Qed.

(** The record an article leaves in [events]: its start is the parsed
    start time with the local zone attached, its end is the parsed end
    time with the local zone attached or the start moved by the
    duration, its metadata (the publication date with it) is the
    article's own. *)
Lemma parse_article_appends (c c' : content) (w w' : world) :
  parse_article c w = (Ok c', w') ->
  events w' = events w
  \/ exists (s : string) (n : naive) (dtend_ : aware),
       c_metadata c !! "event-start" = Some (MStr s)
       /\ strptime s = Ok n
       /\ events w'
          = (events w ++ [mk_event (c_url c) None (c_metadata c)
                            (mk_epd (astimezone n) dtend_)])%list
       /\ ((exists s' n', c_metadata c !! "event-end" = Some (MStr s')
                          /\ strptime s' = Ok n' /\ dtend_ = astimezone n')
           \/ (exists d, parse_timedelta (c_metadata c) = Ok d
                         /\ aware_add (astimezone n) d = Ok dtend_)).
Proof.
  unfold parse_article.
  destruct (is_article c); cbn [negb];
    [|intros E; inversion E; left; reflexivity].
  destruct (c_metadata c !! "event-start") as [v|] eqn:Hs;
    [|intros E; inversion E; left; reflexivity].
  unfold bind at 1. unfold lift at 1.
  destruct (parse_tstamp (c_metadata c) "event-start") as [a|e] eqn:Hstart;
    [|discriminate].
  destruct (parse_tstamp_ok_inv _ _ _ Hstart) as (s & n & Hs' & Hn & ->).
  rewrite Hs in Hs'. inversion Hs'; subst v; clear Hs'.
  assert (Hfinish : forall dtend_ w0,
    (let data := mk_epd (astimezone n) dtend_ in
     let c'' := mk_content true (c_url c) (c_metadata c) (Some data) in
     if is_draft (c_metadata c) then ret c''
     else let* _ := events_append (event_of_content c'' data) in ret c'') w0
    = (Ok c', w') ->
    events w' = events w0
    \/ events w' = (events w0 ++ [mk_event (c_url c) None (c_metadata c)
                                    (mk_epd (astimezone n) dtend_)])%list).
  { intros dtend_ w0. cbv zeta.
    destruct (is_draft (c_metadata c)); intros E; inversion E;
      [left | right]; reflexivity. }
  destruct (c_metadata c !! "event-end") as [ve|] eqn:He.
  - unfold bind, lift.
    destruct (parse_tstamp (c_metadata c) "event-end") as [b|e] eqn:Hend;
      [|discriminate].
    intros E. destruct (Hfinish b w E) as [Hsame|Happ]; [left; exact Hsame|].
    right. exists s, n, b.
    split; [reflexivity|]. split; [exact Hn|]. split; [exact Happ|].
    left. destruct (parse_tstamp_ok_inv _ _ _ Hend) as (s' & n' & Hs' & Hn' & ->).
    rewrite He in Hs'. exists s', n'.
    split; [exact Hs' | split; [exact Hn' | reflexivity]].
  - destruct (c_metadata c !! "event-duration") as [vd|] eqn:Hd.
    + unfold bind, lift.
      destruct (parse_timedelta (c_metadata c)) as [d|e] eqn:Hpd; [|discriminate].
      destruct (aware_add (astimezone n) d) as [b|e] eqn:Hadd; [|discriminate].
      intros E. destruct (Hfinish b w E) as [Hsame|Happ]; [left; exact Hsame|].
      right. exists s, n, b.
      split; [reflexivity|]. split; [exact Hn|]. split; [exact Happ|].
      right. exists d. split; [reflexivity | exact Hadd].
    + unfold bind, lift, raise.
      destruct (getitem (c_metadata c) "title"); discriminate.
Qed.

(** The record a recurrence leaves in [events]: start and end are made
    from the next occurrence with the local zone attached, the [date]
    entry is the next occurrence itself, without a zone. *)
Lemma insert_recurring_event_appends (spec : gmap string string)
    (w w' : world) :
  insert_recurring_event spec w = (Ok tt, w') ->
  exists (occ : naive) (d : timedelta) (dtend_ : aware) (ev : event),
    events w' = (events w ++ [ev])%list
    /\ parse_timedelta (MStr <$> spec) = Ok d
    /\ aware_add (astimezone occ) d = Ok dtend_
    /\ plugin_data ev = mk_epd (astimezone occ) dtend_
    /\ metadata ev !! "date" = Some (MDate (Naive occ)).
Proof.
  unfold insert_recurring_event, bind, lift, datetime_now, raise,
    events_append.
  destruct (getitem spec "recurring_rule") as [rule|]; [|discriminate].
  cbn [ticks events localized_events files context].
  destruct (rfc_rrule (clock (ticks w)) rule) as [rfc|]; [|discriminate].
  destruct (rrule_after rfc (clock (S (ticks w)))) as [next|]; [|discriminate].
  destruct (parse_timedelta (MStr <$> spec)) as [d|]; [|discriminate].
  destruct (getitem spec "page_url") as [page_url|]; [|discriminate].
  destruct (getitem spec "location") as [loc|]; [|discriminate].
  destruct (getitem spec "title") as [title|]; [|discriminate].
  destruct (getitem spec "summary") as [summary|]; [|discriminate].
  destruct next as [occ|]; [|discriminate].
  destruct (astimezone_call occ) as [start|] eqn:Hstart; [|discriminate].
  apply astimezone_call_ok_inv in Hstart. subst start.
  destruct (aware_add (astimezone occ) d) as [dtend_|] eqn:Hadd; [|discriminate].
  intros E. inversion E; subst w'; clear E.
  eexists occ, d, dtend_, _. cbn [events].
  split; [reflexivity|]. split; [reflexivity|]. split; [exact Hadd|].
  split; [reflexivity|]. cbn [metadata].
  rewrite lookup_insert_ne by discriminate.
  rewrite lookup_insert_ne by discriminate.
  apply lookup_insert_eq.
Qed.

(** C2, as the code has it.  Start and end of every record appended to
    [events] are aware: for an article the start is the parsed start
    time with the local zone attached, the end is the parsed end time
    with the local zone attached or the start moved by the duration, and
    the metadata, the publication date in it, is the article's own; for a
    recurring event start and end are built from the next occurrence
    with the local zone attached.  The [date] entry of a recurring event
    is the next occurrence as the recurrence rule returned it, a naive
    datetime; the exporter reads it in the local zone, so that its
    serialization is that of the start. *)
Theorem persisted_timestamps (c c' : content) (spec : gmap string string)
    (w w1 w2 : world) :
  parse_article c w = (Ok c', w1) ->
  insert_recurring_event spec w = (Ok tt, w2) ->
  (events w1 = events w
   \/ exists (s : string) (n : naive) (dtend_ : aware),
        c_metadata c !! "event-start" = Some (MStr s)
        /\ strptime s = Ok n
        /\ events w1
           = (events w ++ [mk_event (c_url c) None (c_metadata c)
                             (mk_epd (astimezone n) dtend_)])%list
        /\ ((exists s' n', c_metadata c !! "event-end" = Some (MStr s')
                           /\ strptime s' = Ok n' /\ dtend_ = astimezone n')
            \/ (exists d, parse_timedelta (c_metadata c) = Ok d
                          /\ aware_add (astimezone n) d = Ok dtend_)))
  /\ exists (occ : naive) (d : timedelta) (ev : event),
       events w2 = (events w ++ [ev])%list
       /\ dtstart (plugin_data ev) = astimezone occ
       /\ aware_add (astimezone occ) d = Ok (dtend (plugin_data ev))
       /\ instant (dtend (plugin_data ev))
          = instant (dtstart (plugin_data ev)) + total_us d
       /\ metadata ev !! "date" = Some (MDate (Naive occ))
       /\ is_aware (Naive occ) = false
       /\ basic_utc_isoformat (Naive occ)
          = basic_utc_isoformat (Aware (dtstart (plugin_data ev))).
Proof.
  intros Hart Hrec. split; [exact (parse_article_appends _ _ _ _ Hart)|].
  destruct (insert_recurring_event_appends _ _ _ Hrec)
    as (occ & d & dtend_ & ev & Hev & _ & Hadd & Hdata & Hdate).
  exists occ, d, ev. rewrite Hdata. cbn [dtstart dtend].
  split; [exact Hev|]. split; [reflexivity|]. split; [exact Hadd|].
  split; [apply (aware_add_instant _ _ _ Hadd)|].
  split; [exact Hdate|]. split; [reflexivity|].
  apply basic_utc_isoformat_naive.
Qed.

End Timestamps.

Lemma persisted_timestamps_witness :
  @parse_article SampleHost.host new_year_article empty_world
  = (Ok (with_data new_year_article (mk_epd new_year_10am new_year_1130am)),
     recorded new_year_article (mk_epd new_year_10am new_year_1130am)
       empty_world)
  /\ @insert_recurring_event SampleHost.host weekly_meetup empty_world
     = (Ok tt, mk_world [meetup_event] [] 2 ∅ ∅)
  /\ exists (occ : naive) (ev : event),
       [meetup_event] = [ev]
       /\ metadata ev !! "date" = Some (MDate (Naive occ))
       /\ is_aware (Naive occ) = false.
Proof.
  assert (Hart : @parse_article SampleHost.host new_year_article empty_world
                 = (Ok (with_data new_year_article
                          (mk_epd new_year_10am new_year_1130am)),
                    recorded new_year_article
                      (mk_epd new_year_10am new_year_1130am) empty_world))
    by (vm_compute; reflexivity).
  assert (Hrec : @insert_recurring_event SampleHost.host weekly_meetup
                   empty_world
                 = (Ok tt, mk_world [meetup_event] [] 2 ∅ ∅))
    by (vm_compute; reflexivity).
  split; [exact Hart|]. split; [exact Hrec|].
  destruct (@persisted_timestamps SampleHost.host _ _ _ _ _ _ Hart Hrec)
    as (_ & occ & d & ev & Hev & _ & _ & _ & Hdate & Hnaive & _).
  exists occ, ev. split; [exact Hev|]. split; [exact Hdate | exact Hnaive].
Defined.

(** A recurring event in [events] whose publication timestamp is a naive
    datetime. *)
Lemma recurring_event_date_is_naive :
  events (snd (@insert_recurring_events SampleHost.host settings_with_meetup
                 empty_world)) = [meetup_event]
  /\ exists d, metadata meetup_event !! "date" = Some (MDate d)
               /\ is_aware d = false.
Proof.
  split; [vm_compute; reflexivity|].
  eexists. split; [vm_compute; reflexivity | reflexivity].
Qed.

(** ** Selection of the exported records *)

Section ExportSelection.
Context `{H : Host}.

(** The export loop emits one component for each record the filter lets
    through, in order, and reads the clock once for each record. *)
Lemma export_loop_emits (st : settings) (field : pvalue) (l : list event) :
  forall (components new : list vevent) (w : world),
    Forall2 (fun e ve => ical_event st field e = Ok ve)
      (selected_from (ticks w) l) new ->
    export_loop st field l components w
    = (Ok (components ++ new)%list,
       mk_world (events w) (localized_events w) (length l + ticks w)%nat
         (files w) (context w)).
Proof.
  induction l as [|e l IH]; intros components new w Hall.
  - simpl in Hall. apply Forall2_nil_inv_l in Hall. subst new.
    simpl. unfold ret. rewrite app_nil_r. destruct w; reflexivity.
  - simpl in *. unfold bind at 1. unfold datetime_now at 1.
    destruct (aware_ge (dtstart (plugin_data e))
                (astimezone (clock (ticks w)))).
    + apply Forall2_cons_inv_l in Hall.
      destruct Hall as (ve & new' & Hve & Hrest & ->).
      unfold bind, lift. rewrite Hve.
      rewrite (IH (components ++ [ve])%list new'); [|exact Hrest].
      cbn [events localized_events ticks files context].
      rewrite <- app_assoc. simpl. rewrite Nat.add_succ_r. reflexivity.
    + rewrite (IH components new); [|exact Hall].
      cbn [events localized_events ticks files context].
      rewrite Nat.add_succ_r. reflexivity.
Qed.

(** A record is selected exactly when its start is not before the
    reading of the clock taken when it is examined. *)
Lemma selected_from_spec (l : list event) :
  forall (t : nat) (e : event),
    e ∈ selected_from t l
    <-> exists i : nat,
          l !! i = Some e
          /\ instant (astimezone (clock (t + i)))
             <= instant (dtstart (plugin_data e)).
Proof.
  induction l as [|x l IH]; intros t e; simpl.
  - split; [intros Hin; inversion Hin | intros (i & Hi & _); discriminate].
  - unfold aware_ge.
    destruct (Z.leb_spec (instant (astimezone (clock t)))
                (instant (dtstart (plugin_data x)))) as [Hle|Hgt].
    + rewrite elem_of_cons, IH. split.
      * intros [->|(i & Hi & Hle')].
        -- exists 0%nat. rewrite Nat.add_0_r. split; [reflexivity | exact Hle].
        -- exists (S i). rewrite Nat.add_succ_r. split; assumption.
      * intros ([|i] & Hi & Hle').
        -- left. simpl in Hi. congruence.
        -- right. exists i. rewrite Nat.add_succ_r in Hle'. split; assumption.
    + rewrite IH. split.
      * intros (i & Hi & Hle'). exists (S i). rewrite Nat.add_succ_r.
        split; assumption.
      * intros ([|i] & Hi & Hle').
        -- simpl in Hi. inversion Hi; subst x.
           rewrite Nat.add_0_r in Hle'. lia.
        -- exists i. rewrite Nat.add_succ_r in Hle'. split; assumption.
Qed.

(** While the clock shows one reading [now], the selection is the
    filter "start >= now". *)
Lemma selected_from_steady (now : naive) (l : list event) :
  forall t : nat,
    (forall i : nat, (i < length l)%nat -> clock (t + i) = now) ->
    selected_from t l
    = List.filter (fun e => aware_ge (dtstart (plugin_data e)) (astimezone now)) l.
Proof.
  induction l as [|x l IH]; intros t Hclock; [reflexivity|].
  simpl.
  assert (E0 : clock t = now).
  { rewrite <- (Hclock 0%nat) by (simpl; lia). f_equal. lia. }
  assert (IH' : selected_from (S t) l
                = List.filter (fun e => aware_ge (dtstart (plugin_data e))
                                     (astimezone now)) l).
  { apply IH. intros i Hi. rewrite <- (Hclock (S i)) by (simpl; lia).
    f_equal. lia. }
  rewrite IH', E0. reflexivity.
Qed.

(** Reading the collection to export changes nothing but, when a
    localized dict has no bucket for the default language, that dict:
    the [defaultdict] inserts an empty bucket. *)
Lemma curr_events_spec (st : settings) (w : world) :
  exists w1 : world,
    curr_events st w = (Ok (exported_collection st w), w1)
    /\ events w1 = events w /\ ticks w1 = ticks w
    /\ files w1 = files w /\ context w1 = context w
    /\ (localized_events w1 = localized_events w
        \/ (localized_events w <> []
            /\ bucket_lookup (localized_events w) (DEFAULT_LANG st) = None
            /\ localized_events w1
               = (localized_events w ++ [(DEFAULT_LANG st, [])])%list)).
Proof.
  unfold curr_events, exported_collection, localized_getitem.
  destruct (localized_events w) as [|b d] eqn:Hloc.
  - exists w. repeat split; try reflexivity. left. exact Hloc.
  - destruct (bucket_lookup (b :: d) (DEFAULT_LANG st)) as [v|] eqn:Hb.
    + exists w. repeat split; try reflexivity. left. exact Hloc.
    + eexists. split; [reflexivity|]. cbn [events ticks files context localized_events].
      repeat split; try reflexivity. right.
      split; [discriminate | split; reflexivity].
Qed.

(** The export, when every selected record yields a component. *)
Lemma generate_ical_file_writes (st : settings) (w : world) (name : string)
    (v : pvalue) (components : list vevent) :
  PLUGIN_EVENTS st !! "ics_fname" = Some (PStr name) ->
  name <> "" ->
  PLUGIN_EVENTS st !! "metadata_field_for_summary" = Some v ->
  Forall2 (fun e ve =>
             ical_event st (if truthy v then v else PStr "summary") e = Ok ve)
    (selected_from (ticks w) (exported_collection st w)) components ->
  exists w1 : world,
    curr_events st w = (Ok (exported_collection st w), w1)
    /\ generate_ical_file st w
       = (Ok tt,
          mk_world (events w) (localized_events w1)
            (length (exported_collection st w) + ticks w)%nat
            (<[path_join (OUTPUT_PATH st) name
               := mk_vcalendar calendar_header components]> (files w))
            (context w)).
Proof.
  intros Hname Hne Hkey Hall.
  destruct (curr_events_spec st w) as (w1 & Hcur & Hev & Htk & Hfiles & Hctx & _).
  exists w1. split; [exact Hcur|].
  unfold generate_ical_file, bind, lift, getitem, ret.
  rewrite Hname, Hkey. cbn [truthy].
  destruct (String.eqb_spec name "") as [E|_]; [contradiction|]. cbn [negb].
  rewrite Hcur.
  rewrite <- Htk in Hall.
  rewrite (export_loop_emits st _ _ [] components w1 Hall).
  unfold write_file. cbn [events localized_events ticks files context].
  rewrite Hev, Htk, Hfiles, Hctx. reflexivity.
Qed.

End ExportSelection.

Section ExportClaims.
Context `{H : Host}.

(** C3.  With the output file named and the summary field configured,
    and when every selected record yields a component, the export
    succeeds and writes exactly the components of the selected records,
    in order.  A record of the exported collection is selected exactly
    when its start instant (to the microsecond, no truncation to the
    date) is not before the wall clock read when the record is examined;
    while the clock shows one reading this is the filter "start >= now".
    The selection does not look at the end: a record whose start is past
    is left out even when the rendering filter, which compares the date
    of the end with today's date, keeps it. *)
Theorem export_selects_by_start (st : settings) (w : world) (name : string)
    (v : pvalue) (components : list vevent) :
  PLUGIN_EVENTS st !! "ics_fname" = Some (PStr name) ->
  name <> "" ->
  PLUGIN_EVENTS st !! "metadata_field_for_summary" = Some v ->
  Forall2 (fun e ve =>
             ical_event st (if truthy v then v else PStr "summary") e = Ok ve)
    (selected_from (ticks w) (exported_collection st w)) components ->
  (fst (generate_ical_file st w) = Ok tt
   /\ files (snd (generate_ical_file st w))
        !! path_join (OUTPUT_PATH st) name
      = Some (mk_vcalendar calendar_header components))
  /\ (forall e : event,
        e ∈ selected_from (ticks w) (exported_collection st w)
        <-> exists i : nat,
              exported_collection st w !! i = Some e
              /\ instant (astimezone (clock (ticks w + i)))
                 <= instant (dtstart (plugin_data e)))
  /\ (forall now : naive,
        (forall i : nat, (i < length (exported_collection st w))%nat ->
                         clock (ticks w + i) = now) ->
        selected_from (ticks w) (exported_collection st w)
        = List.filter (fun e => instant (astimezone now)
                                <=? instant (dtstart (plugin_data e)))
            (exported_collection st w))
  /\ (forall (t : nat) (e : event),
        filter_future (clock t) e = true ->
        instant (dtstart (plugin_data e)) < instant (astimezone (clock t)) ->
        selected_from t [e] = []).
Proof.
  intros Hname Hne Hkey Hall.
  destruct (generate_ical_file_writes st w name v components Hname Hne Hkey Hall)
    as (w1 & _ & Hgen).
  split; [|split; [|split]].
  - rewrite Hgen. cbn [fst snd files]. split; [reflexivity|].
    apply lookup_insert_eq.
  - intros e. apply selected_from_spec.
  - intros now Hsteady. apply selected_from_steady, Hsteady.
  - intros t e _ Hpast. simpl. unfold aware_ge.
    destruct (Z.leb_spec (instant (astimezone (clock t)))
                (instant (dtstart (plugin_data e)))); [lia | reflexivity].
Qed.

(** C10.  With the output file named and the summary field configured,
    when localized buckets exist and none is for the default language,
    the export succeeds: it writes to the destination path a calendar
    made of the header (product id, version 2.0) and no event component.
    It reads no clock and leaves an empty bucket for the default
    language behind. *)
Theorem export_without_default_bucket (st : settings) (w : world)
    (name : string) (v : pvalue) :
  PLUGIN_EVENTS st !! "ics_fname" = Some (PStr name) ->
  name <> "" ->
  PLUGIN_EVENTS st !! "metadata_field_for_summary" = Some v ->
  localized_events w <> [] ->
  bucket_lookup (localized_events w) (DEFAULT_LANG st) = None ->
  generate_ical_file st w
  = (Ok tt,
     mk_world (events w)
       (localized_events w ++ [(DEFAULT_LANG st, [])])%list (ticks w)
       (<[path_join (OUTPUT_PATH st) name := mk_vcalendar calendar_header []]>
          (files w))
       (context w))
  /\ files (snd (generate_ical_file st w)) !! path_join (OUTPUT_PATH st) name
     = Some (mk_vcalendar
               [("prodid", "-//My calendar product//mxm.dk//");
                ("version", "2.0")] []).
Proof.
  intros Hname Hne Hkey Hloc Hbucket.
  assert (Hcol : exported_collection st w = []).
  { unfold exported_collection.
    destruct (localized_events w) as [|b d] eqn:E; [contradiction|].
    rewrite Hbucket. reflexivity. }
  assert (Hall : Forall2 (fun e ve =>
             ical_event st (if truthy v then v else PStr "summary") e = Ok ve)
             (selected_from (ticks w) (exported_collection st w)) []).
  { rewrite Hcol. constructor. }
  destruct (generate_ical_file_writes st w name v [] Hname Hne Hkey Hall)
    as (w1 & Hcur & Hgen).
  assert (Hw1 : localized_events w1
                = (localized_events w ++ [(DEFAULT_LANG st, [])])%list).
  { unfold curr_events, localized_getitem in Hcur. rewrite Hbucket in Hcur.
    destruct (localized_events w) eqn:E; [contradiction|].
    inversion Hcur. reflexivity. }
  rewrite Hgen, Hw1, Hcol. cbn [length Nat.add snd files].
  split; [reflexivity | apply lookup_insert_eq].
Qed.

End ExportClaims.

(** At noon on 2024-01-01 the workshop (begun at 09:00, ending at 17:00)
    is left out of the calendar although the rendering filter keeps it;
    the meeting of 2024-03-01 is exported. *)
Lemma export_selects_by_start_witness :
  PLUGIN_EVENTS (settings_with_summary_key "summary") !! "ics_fname"
  = Some (PStr "calendar.ics")
  /\ "calendar.ics" <> ""
  /\ PLUGIN_EVENTS (settings_with_summary_key "summary")
       !! "metadata_field_for_summary" = Some (PStr "summary")
  /\ @selected_from SampleHost.host 0 [workshop; meeting] = [meeting]
  /\ @filter_future SampleHost.noon workshop = true
  /\ files (snd (@generate_ical_file SampleHost.host
                   (settings_with_summary_key "summary")
                   world_with_workshop_and_meeting))
       !! "output/calendar.ics"
     = Some (mk_vcalendar calendar_header [meeting_component]).
Proof.
  assert (Hname : PLUGIN_EVENTS (settings_with_summary_key "summary")
                    !! "ics_fname" = Some (PStr "calendar.ics"))
    by (vm_compute; reflexivity).
  assert (Hne : "calendar.ics" <> "") by discriminate.
  assert (Hkey : PLUGIN_EVENTS (settings_with_summary_key "summary")
                   !! "metadata_field_for_summary" = Some (PStr "summary"))
    by (vm_compute; reflexivity).
  assert (Hsel : @selected_from SampleHost.host 0 [workshop; meeting]
                 = [meeting]) by (vm_compute; reflexivity).
  assert (Hall : Forall2
            (fun e ve =>
               @ical_event SampleHost.host (settings_with_summary_key "summary")
                 (if truthy (PStr "summary") then PStr "summary"
                  else PStr "summary") e = Ok ve)
            (@selected_from SampleHost.host
               (ticks world_with_workshop_and_meeting)
               (exported_collection (settings_with_summary_key "summary")
                  world_with_workshop_and_meeting))
            [meeting_component]).
  { change (Forall2
              (fun e ve =>
                 @ical_event SampleHost.host
                   (settings_with_summary_key "summary") (PStr "summary") e
                 = Ok ve)
              (@selected_from SampleHost.host 0 [workshop; meeting])
              [meeting_component]).
    rewrite Hsel. repeat constructor. }
  split; [exact Hname|]. split; [exact Hne|]. split; [exact Hkey|].
  split; [exact Hsel|]. split; [vm_compute; reflexivity|].
  exact (proj2 (proj1 (@export_selects_by_start SampleHost.host _ _ _ _ _
                         Hname Hne Hkey Hall))).
Defined.

Lemma export_without_default_bucket_witness :
  PLUGIN_EVENTS (settings_with_summary_key "summary") !! "ics_fname"
  = Some (PStr "calendar.ics")
  /\ "calendar.ics" <> ""
  /\ PLUGIN_EVENTS (settings_with_summary_key "summary")
       !! "metadata_field_for_summary" = Some (PStr "summary")
  /\ localized_events world_localized_de <> []
  /\ bucket_lookup (localized_events world_localized_de) "en" = None
  /\ files (snd (@generate_ical_file SampleHost.host
                   (settings_with_summary_key "summary") world_localized_de))
       !! "output/calendar.ics"
     = Some (mk_vcalendar
               [("prodid", "-//My calendar product//mxm.dk//");
                ("version", "2.0")] []).
Proof.
  assert (Hname : PLUGIN_EVENTS (settings_with_summary_key "summary")
                    !! "ics_fname" = Some (PStr "calendar.ics"))
    by (vm_compute; reflexivity).
  assert (Hne : "calendar.ics" <> "") by discriminate.
  assert (Hkey : PLUGIN_EVENTS (settings_with_summary_key "summary")
                   !! "metadata_field_for_summary" = Some (PStr "summary"))
    by (vm_compute; reflexivity).
  assert (Hloc : localized_events world_localized_de <> []) by discriminate.
  assert (Hbucket : bucket_lookup (localized_events world_localized_de)
                      (DEFAULT_LANG (settings_with_summary_key "summary"))
                    = None) by reflexivity.
  split; [exact Hname|]. split; [exact Hne|]. split; [exact Hkey|].
  split; [exact Hloc|]. split; [exact Hbucket|].
  exact (proj2 (@export_without_default_bucket SampleHost.host _ _ _ _
                  Hname Hne Hkey Hloc Hbucket)).
Defined.

(** ** Sorting *)

Section SortFacts.
Context {A K : Type} (key : A -> K) (lt : K -> K -> bool).

Lemma insert_sorted_perm (x : A) (l : list A) :
  Permutation (insert_sorted key lt x l) (x :: l).
Proof.
  induction l as [|y l IH]; simpl; [reflexivity|].
  destruct (lt (key y) (key x)); [|reflexivity].
  rewrite IH. apply perm_swap.
Qed.

Lemma stable_sort_perm (l : list A) : Permutation (stable_sort key lt l) l.
Proof.
  induction l as [|x l IH]; simpl; [reflexivity|].
  rewrite insert_sorted_perm, IH. reflexivity.
Qed.

Lemma sorted_perm (reverse : bool) (l : list A) :
  Permutation (sorted key lt reverse l) l.
Proof.
  unfold sorted. destruct reverse; [|apply stable_sort_perm].
  rewrite <- Permutation_rev, stable_sort_perm, <- Permutation_rev.
  reflexivity.
Qed.

(** Insertion goes past the elements strictly below [x] only: a class
    [p] of elements none of which is strictly below [x] keeps its order,
    with [x] in front when [x] is in the class. *)
Lemma filter_insert_sorted (p : A -> bool) (x : A) (l : list A) :
  (forall y, p x = true -> p y = true -> lt (key y) (key x) = false) ->
  List.filter p (insert_sorted key lt x l)
  = if p x then x :: List.filter p l else List.filter p l.
Proof.
  intros Hclass. induction l as [|y l IH]; simpl; [reflexivity|].
  destruct (lt (key y) (key x)) eqn:Hlt; simpl.
  - destruct (p y) eqn:Hy.
    + destruct (p x) eqn:Hx.
      * rewrite (Hclass y eq_refl Hy) in Hlt. discriminate.
      * rewrite IH. reflexivity.
    + exact IH.
  - reflexivity.
Qed.

(** Stability: a class of elements no two of which are strictly ordered
    comes out of the sort in the order it went in. *)
Lemma stable_sort_stable (p : A -> bool) (l : list A) :
  (forall x y, p x = true -> p y = true -> lt (key y) (key x) = false) ->
  List.filter p (stable_sort key lt l) = List.filter p l.
Proof.
  intros Hclass. induction l as [|x l IH]; simpl; [reflexivity|].
  rewrite filter_insert_sorted by (intros y; apply Hclass).
  rewrite IH. reflexivity.
Qed.

Lemma sorted_stable (reverse : bool) (p : A -> bool) (l : list A) :
  (forall x y, p x = true -> p y = true -> lt (key y) (key x) = false) ->
  List.filter p (sorted key lt reverse l) = List.filter p l.
Proof.
  intros Hclass. unfold sorted. destruct reverse.
  - rewrite List.filter_rev, stable_sort_stable by exact Hclass.
    rewrite List.filter_rev. apply rev_involutive.
  - apply stable_sort_stable, Hclass.
Qed.

(** Neighbours in the sorted list are in order, if [lt] is asymmetric. *)
Lemma insert_sorted_Sorted (x : A) (l : list A) :
  (forall a b, lt a b = true -> lt b a = false) ->
  Sorted (fun a b => lt (key b) (key a) = false) l ->
  Sorted (fun a b => lt (key b) (key a) = false) (insert_sorted key lt x l).
Proof.
  intros Hasym Hl. induction Hl as [|y l Hl IH Hhd]; simpl.
  - repeat constructor.
  - destruct (lt (key y) (key x)) eqn:Hlt.
    + constructor; [exact IH|].
      destruct l as [|z l]; simpl.
      * constructor. apply Hasym, Hlt.
      * destruct (lt (key z) (key x)); constructor.
        -- inversion Hhd; assumption.
        -- apply Hasym, Hlt.
    + constructor; [constructor; assumption|]. constructor. exact Hlt.
Qed.

Lemma stable_sort_Sorted (l : list A) :
  (forall a b, lt a b = true -> lt b a = false) ->
  Sorted (fun a b => lt (key b) (key a) = false) (stable_sort key lt l).
Proof.
  intros Hasym. induction l as [|x l IH]; simpl; [constructor|].
  apply insert_sorted_Sorted; assumption.
Qed.

End SortFacts.

Lemma StronglySorted_rev {A : Type} (R : A -> A -> Prop) (l : list A) :
  StronglySorted R l -> StronglySorted (fun a b => R b a) (rev l).
Proof.
  induction 1 as [|x l Hl IH Hall]; simpl; [constructor|].
  apply StronglySorted_app_2.
  - intros a b Ha Hb. apply list_elem_of_singleton in Hb. subst b.
    rewrite Forall_forall in Hall. apply Hall.
    apply list_elem_of_In. apply list_elem_of_In in Ha.
    apply in_rev. exact Ha.
  - exact IH.
  - repeat constructor.
Qed.

(** ** The order of pair keys *)

Section KeyOrder.

Lemma key_lt_asym (a b : Z * Z) : key_lt a b = true -> key_lt b a = false.
Proof.
  unfold key_lt.
  destruct (Z.eqb_spec (fst a) (fst b)) as [E|N];
    destruct (Z.eqb_spec (fst b) (fst a)) as [E'|N']; lia.
Qed.

Lemma key_lt_false_pair_le (a b : Z * Z) :
  key_lt b a = false <-> pair_le a b.
Proof.
  unfold key_lt, pair_le.
  destruct (Z.eqb_spec (fst b) (fst a)) as [E|N]; lia.
Qed.

Lemma pair_le_trans (a b c : Z * Z) : pair_le a b -> pair_le b c -> pair_le a c.
Proof. unfold pair_le. lia. Qed.

Lemma same_key_not_lt (k : Z * Z) (x y : event) :
  same_key k x = true -> same_key k y = true ->
  key_lt (sort_key y) (sort_key x) = false.
Proof.
  unfold same_key, key_lt, start_end_pair, sort_key. cbn [fst snd].
  intros Hx Hy.
  apply andb_prop in Hx. apply andb_prop in Hy.
  destruct Hx as [Hx1 Hx2], Hy as [Hy1 Hy2].
  destruct (Z.eqb_spec (instant (dtstart (plugin_data y)))
                       (instant (dtstart (plugin_data x)))); lia.
Qed.

Lemma stable_sort_ascending (l : list event) :
  ascending (stable_sort sort_key key_lt l).
Proof.
  unfold ascending.
  apply Sorted.Sorted_StronglySorted.
  - intros a b c. apply pair_le_trans.
  - pose proof (stable_sort_Sorted sort_key key_lt l key_lt_asym) as Hs.
    induction Hs as [|x l' Hl IH Hhd]; constructor; [exact IH|].
    destruct Hhd; constructor. apply key_lt_false_pair_le. assumption.
Qed.

Lemma sorted_events_ascending (l : list event) :
  ascending (sorted_events false l).
Proof. apply stable_sort_ascending. Qed.

Lemma sorted_events_descending (l : list event) :
  descending (sorted_events true l).
Proof.
  unfold descending, sorted_events, sorted.
  apply (StronglySorted_rev
           (fun a b => pair_le (sort_key a) (sort_key b))).
  apply stable_sort_ascending.
Qed.

Lemma sorted_events_stable (reverse : bool) (k : Z * Z) (l : list event) :
  List.filter (same_key k) (sorted_events reverse l)
  = List.filter (same_key k) l.
Proof.
  apply sorted_stable. intros x y. apply same_key_not_lt.
Qed.

End KeyOrder.

(** ** The template variables ([populate_context_variables]) *)

Section ContextVariables.
Context `{H : Host}.

Lemma filter_future_list_spec (l : list event) :
  forall w : world,
    filter_future_list l w
    = (Ok (upcoming_from (ticks w) l),
       mk_world (events w) (localized_events w) (length l + ticks w)%nat
         (files w) (context w)).
Proof.
  induction l as [|ev l IH]; intros w.
  - simpl. unfold ret. destruct w; reflexivity.
  - simpl. unfold bind at 1. unfold datetime_now at 1.
    unfold bind. rewrite IH. unfold ret.
    cbn [events localized_events ticks files context].
    rewrite Nat.add_succ_r. reflexivity.
Qed.

Lemma upcoming_buckets_spec (d : list (string * list event)) :
  forall w : world,
    upcoming_buckets d w
    = (Ok (upcoming_buckets_from (ticks w) d),
       mk_world (events w) (localized_events w)
         (length (concat (map snd d)) + ticks w)%nat (files w) (context w)).
Proof.
  induction d as [|[k v] d IH]; intros w.
  - simpl. unfold ret. destruct w; reflexivity.
  - simpl. unfold bind at 1. rewrite filter_future_list_spec.
    unfold bind. rewrite IH. unfold ret.
    cbn [events localized_events ticks files context].
    f_equal. f_equal. rewrite length_app. lia.
Qed.

(** A record passes the filter exactly when [filter_future] holds of it
    at the reading of the clock taken when it is examined; the filter
    keeps the order of the list. *)
Lemma upcoming_from_spec (l : list event) :
  forall (t : nat) (e : event),
    e ∈ upcoming_from t l
    <-> exists i : nat,
          l !! i = Some e /\ filter_future (clock (t + i)) e = true.
Proof.
  induction l as [|x l IH]; intros t e; simpl.
  - split; [intros Hin; inversion Hin | intros (i & Hi & _); discriminate].
  - destruct (filter_future (clock t) x) eqn:Hx.
    + rewrite elem_of_cons, IH. split.
      * intros [->|(i & Hi & Hf)].
        -- exists 0%nat. rewrite Nat.add_0_r. split; [reflexivity | exact Hx].
        -- exists (S i). rewrite Nat.add_succ_r. split; assumption.
      * intros ([|i] & Hi & Hf).
        -- left. simpl in Hi. congruence.
        -- right. exists i. rewrite Nat.add_succ_r in Hf. split; assumption.
    + rewrite IH. split.
      * intros (i & Hi & Hf). exists (S i). rewrite Nat.add_succ_r.
        split; assumption.
      * intros ([|i] & Hi & Hf).
        -- simpl in Hi. inversion Hi; subst x.
           rewrite Nat.add_0_r in Hf. congruence.
        -- exists i. rewrite Nat.add_succ_r in Hf. split; assumption.
Qed.

Lemma upcoming_from_sublist (l : list event) :
  forall t : nat, sublist (upcoming_from t l) l.
Proof.
  induction l as [|x l IH]; intros t; simpl; [constructor|].
  destruct (filter_future (clock t) x); constructor; apply IH.
Qed.

Lemma populate_flat (w : world) :
  localized_events w = [] ->
  populate_context_variables w
  = (Ok tt,
     mk_world (events w) (localized_events w)
       (length (events w) + ticks w)%nat (files w)
       (<["upcoming_events_list"
          := CtxList (sorted_events false
                        (upcoming_from (ticks w) (events w)))]>
          (<["events_list" := CtxList (sorted_events true (events w))]>
             (context w)))).
Proof.
  intros Hloc. unfold populate_context_variables. rewrite Hloc.
  unfold bind at 1. unfold context_set at 1.
  unfold bind. rewrite filter_future_list_spec. unfold context_set.
  cbn [events localized_events ticks files context]. rewrite Hloc.
  reflexivity.
Qed.

Lemma populate_localized (w : world) :
  localized_events w <> [] ->
  populate_context_variables w
  = (Ok tt,
     mk_world (events w) (localized_events w)
       (length (concat (map snd (localized_events w))) + ticks w)%nat
       (files w)
       (<["upcoming_events_list"
          := CtxDict (upcoming_buckets_from (ticks w) (localized_events w))]>
          (<["events_list"
             := CtxDict (map (fun kv => (fst kv, sorted_events true (snd kv)))
                           (localized_events w))]>
             (context w)))).
Proof.
  intros Hloc. unfold populate_context_variables.
  destruct (localized_events w) as [|b d] eqn:E; [contradiction|].
  unfold bind at 1. unfold context_set at 1.
  unfold bind. rewrite upcoming_buckets_spec. unfold context_set.
  cbn [events localized_events ticks files context]. rewrite E.
  reflexivity.
Qed.

Lemma stable_view_sorted (reverse : bool) (l : list event) :
  stable_view reverse l (sorted_events reverse l).
Proof.
  split; [apply sorted_perm|]. split.
  - destruct reverse;
      [apply sorted_events_descending | apply sorted_events_ascending].
  - intros k. apply sorted_events_stable.
Qed.

Lemma upcoming_buckets_from_views (d : list (string * list event)) :
  forall t : nat,
    Forall2 (fun kv out =>
               fst out = fst kv
               /\ exists t' : nat,
                    snd out = sorted_events false (upcoming_from t' (snd kv)))
      d (upcoming_buckets_from t d).
Proof.
  induction d as [|[k v] d IH]; intros t; simpl; constructor.
  - split; [reflexivity | exists t; reflexivity].
  - apply IH.
Qed.

(** C4.  [filter_future] keeps a record exactly when the date of its
    end is on or after the date of the reference reading, dates being
    compared as days of the calendar; it looks at no time of day: a
    record that ends on the reference date is kept whatever the two
    times of day are, one that ends on an earlier date is dropped.  The
    list for [upcoming_events_list] holds, in their order, the records of
    which this holds when they are examined. *)
Theorem future_only_keeps_by_end_date (now : naive) (ev : event) :
  valid_naive now ->
  valid_naive (wall (dtend (plugin_data ev))) ->
  (filter_future now ev = true
   <-> date_toordinal (date_of now)
       <= date_toordinal (date_of (wall (dtend (plugin_data ev)))))
  /\ (forall (now' : naive) (ev' : event),
        date_of now' = date_of now ->
        date_of (wall (dtend (plugin_data ev')))
        = date_of (wall (dtend (plugin_data ev))) ->
        filter_future now' ev' = filter_future now ev)
  /\ (date_of (wall (dtend (plugin_data ev))) = date_of now ->
      filter_future now ev = true)
  /\ (date_toordinal (date_of (wall (dtend (plugin_data ev))))
      < date_toordinal (date_of now) ->
      filter_future now ev = false)
  /\ (forall (l : list event) (w : world),
        fst (filter_future_list l w) = Ok (upcoming_from (ticks w) l)
        /\ sublist (upcoming_from (ticks w) l) l
        /\ forall e : event,
             e ∈ upcoming_from (ticks w) l
             <-> exists i : nat,
                   l !! i = Some e
                   /\ filter_future (clock (ticks w + i)) e = true).
Proof.
  intros (Hy & Hm & Hd & _) (Hy' & Hm' & Hd' & _).
  assert (Hnow : valid_date (date_of now)) by exact (conj Hy (conj Hm Hd)).
  assert (Hend : valid_date (date_of (wall (dtend (plugin_data ev)))))
    by exact (conj Hy' (conj Hm' Hd')).
  assert (Hiff : filter_future now ev = true
                 <-> date_toordinal (date_of now)
                     <= date_toordinal
                          (date_of (wall (dtend (plugin_data ev))))).
  { unfold filter_future. rewrite (date_ge_toordinal _ _ Hend Hnow).
    apply Z.leb_le. }
  split; [exact Hiff|]. split; [|split; [|split]].
  - intros now' ev' En Ee. unfold filter_future. rewrite En, Ee. reflexivity.
  - intros E. apply Hiff. rewrite E. lia.
  - intros Hlt. apply not_true_is_false. intros F.
    apply Hiff in F. lia.
  - intros l w. rewrite filter_future_list_spec.
    split; [reflexivity|].
    split; [apply upcoming_from_sublist | intros e; apply upcoming_from_spec].
Qed.

(** The two dicts of a localized build, bucket by bucket: the [i]-th
    bucket is examined after all records of the buckets before it. *)
Lemma localized_views (d : list (string * list event)) :
  forall (t i : nat) (k : string) (v : list event),
    d !! i = Some (k, v) ->
    map (fun kv => (fst kv, sorted_events true (snd kv))) d !! i
    = Some (k, sorted_events true v)
    /\ upcoming_buckets_from t d !! i
       = Some (k, sorted_events false
                    (upcoming_from
                       (t + length (concat (map snd (take i d))))%nat v)).
Proof.
  induction d as [|[k0 v0] d IH]; intros t i k v Hi; [discriminate Hi|].
  destruct i as [|i].
  - injection Hi as -> ->. cbn [map fst snd upcoming_buckets_from].
    split; [reflexivity|].
    cbn [take map concat length]. rewrite Nat.add_0_r. reflexivity.
  - destruct (IH (length v0 + t)%nat i k v Hi) as [Hall Hup].
    cbn [map upcoming_buckets_from]. split; [exact Hall|].
    change ((upcoming_buckets_from (length v0 + t) d) !! i
            = Some (k, sorted_events false
                         (upcoming_from
                            (t + length (v0 ++ concat (map snd (take i d))))%nat
                            v))).
    rewrite Hup, length_app.
    replace (length v0 + t + length (concat (map snd (take i d))))%nat
      with (t + (length v0 + length (concat (map snd (take i d)))))%nat
      by lia.
    reflexivity.
Qed.

Lemma localized_views_length (d : list (string * list event)) :
  forall t : nat,
    length (map (fun kv => (fst kv, sorted_events true (snd kv))) d) = length d
    /\ length (upcoming_buckets_from t d) = length d.
Proof.
  induction d as [|[k v] d IH]; intros t; [split; reflexivity|].
  destruct (IH (length v + t)%nat) as [Hall Hup].
  cbn [map upcoming_buckets_from length]. rewrite Hall, Hup.
  split; reflexivity.
Qed.

(** When no two records share a pair, the descending view is the
    ascending view read backwards. *)
Lemma sorted_events_reverse_rev (l : list event) :
  distinct_pairs l ->
  sorted_events true l = rev (sorted_events false l).
Proof.
  intros Hinj.
  apply (StronglySorted_unique_strong
           (fun a b => pair_le (start_end_pair b) (start_end_pair a))).
  - intros x y Hx Hy Hxy Hyx.
    apply Hinj.
    + rewrite <- (sorted_perm sort_key key_lt true l). exact Hx.
    + rewrite <- (sorted_perm sort_key key_lt false l).
      apply list_elem_of_In, in_rev, list_elem_of_In in Hy. exact Hy.
    + unfold pair_le in Hxy, Hyx.
      destruct (start_end_pair x) as [a b], (start_end_pair y) as [c d].
      simpl in *. f_equal; lia.
  - apply sorted_events_descending.
  - apply (StronglySorted_rev
             (fun a b => pair_le (start_end_pair a) (start_end_pair b))).
    apply sorted_events_ascending.
  - rewrite <- Permutation_rev.
    rewrite (sorted_perm sort_key key_lt true l).
    symmetry. apply (sorted_perm sort_key key_lt false l).
Qed.

(** A list is in descending order exactly when, read backwards, it is in
    ascending order. *)
Lemma descending_rev (l : list event) : descending l <-> ascending (rev l).
Proof.
  split; intros Hs.
  - apply (StronglySorted_rev
             (fun a b => pair_le (start_end_pair b) (start_end_pair a))).
    exact Hs.
  - rewrite <- (rev_involutive l).
    apply (StronglySorted_rev
             (fun a b => pair_le (start_end_pair a) (start_end_pair b))).
    exact Hs.
Qed.

(** C8.  The key by which [populate_context_variables] sorts is the
    pair (start, end) of the record, and each list it stores is a stable
    sorted view of the list it was made from: it has the same records,
    it is in the order of the pairs (of two records with the same start
    the one that ends first comes first in the ascending view, last in
    the descending one), and any records with equal pairs are in it in
    the order in which they are in the input, which is the order they
    were appended in.  [events_list] is made from the collection and
    [upcoming_events_list] from the records the filter lets through, a
    sublist of the collection; in a localized build this holds of every
    bucket, the [i]-th bucket being examined after the records of the
    buckets before it. *)
Theorem sorted_views_are_stable (w : world) :
  fst (populate_context_variables w) = Ok tt
  /\ (forall ev : event, sort_key ev = start_end_pair ev)
  /\ (forall (reverse : bool) (l : list event),
        stable_view reverse l (sorted_events reverse l))
  /\ (localized_events w = [] ->
      exists all upcoming : list event,
        context (snd (populate_context_variables w)) !! "events_list"
        = Some (CtxList all)
        /\ context (snd (populate_context_variables w))
             !! "upcoming_events_list" = Some (CtxList upcoming)
        /\ stable_view true (events w) all
        /\ stable_view false (upcoming_from (ticks w) (events w)) upcoming
        /\ sublist (upcoming_from (ticks w) (events w)) (events w))
  /\ (localized_events w <> [] ->
      exists alls upcomings : list (string * list event),
        context (snd (populate_context_variables w)) !! "events_list"
        = Some (CtxDict alls)
        /\ context (snd (populate_context_variables w))
             !! "upcoming_events_list" = Some (CtxDict upcomings)
        /\ length alls = length (localized_events w)
        /\ length upcomings = length (localized_events w)
        /\ forall (i : nat) (k : string) (v : list event),
             localized_events w !! i = Some (k, v) ->
             exists all upcoming : list event,
               alls !! i = Some (k, all)
               /\ upcomings !! i = Some (k, upcoming)
               /\ stable_view true v all
               /\ stable_view false
                    (upcoming_from
                       (ticks w
                        + length (concat (map snd
                                            (take i (localized_events w)))))%nat
                       v) upcoming
               /\ sublist
                    (upcoming_from
                       (ticks w
                        + length (concat (map snd
                                            (take i (localized_events w)))))%nat
                       v) v).
Proof.
  split; [|split; [|split; [|split]]].
  - destruct (localized_events w) as [|b d] eqn:E.
    + rewrite (populate_flat w E). reflexivity.
    + rewrite (populate_localized w) by (rewrite E; discriminate).
      reflexivity.
  - intros ev. reflexivity.
  - intros reverse l. apply stable_view_sorted.
  - intros Hloc. rewrite (populate_flat w Hloc). cbn [snd context].
    eexists _, _. split; [|split; [apply lookup_insert_eq|]].
    + rewrite lookup_insert_ne by discriminate. apply lookup_insert_eq.
    + split; [apply stable_view_sorted|].
      split; [apply stable_view_sorted | apply upcoming_from_sublist].
  - intros Hloc. rewrite (populate_localized w Hloc). cbn [snd context].
    eexists _, _. split; [|split; [apply lookup_insert_eq|]].
    + rewrite lookup_insert_ne by discriminate. apply lookup_insert_eq.
    + destruct (localized_views_length (localized_events w) (ticks w))
        as [Hlen Hlen'].
      split; [exact Hlen|]. split; [exact Hlen'|].
      intros i k v Hi.
      destruct (localized_views (localized_events w) (ticks w) i k v Hi)
        as [Hall Hup].
      eexists _, _. split; [exact Hall|]. split; [exact Hup|].
      split; [apply stable_view_sorted|].
      split; [apply stable_view_sorted | apply upcoming_from_sublist].
Qed.

(** C9.  [events_list] holds the records of the collection in
    descending order of the pair (start, end), [upcoming_events_list]
    the records the filter lets through (those that end on the day of
    the clock's reading for them or later) in ascending order; in a
    localized build this holds of every bucket, under the key of the
    bucket.  The two orders are opposite: a list is in the one exactly
    when, read backwards, it is in the other, and when no two records
    share a pair and the filter drops nothing, [events_list] is
    [upcoming_events_list] read backwards. *)
Theorem context_lists_have_opposite_orders (w : world) :
  (forall ev : event, sort_key ev = start_end_pair ev)
  /\ (forall l : list event, descending l <-> ascending (rev l))
  /\ (localized_events w = [] ->
      exists all upcoming : list event,
        context (snd (populate_context_variables w)) !! "events_list"
        = Some (CtxList all)
        /\ context (snd (populate_context_variables w))
             !! "upcoming_events_list" = Some (CtxList upcoming)
        /\ Permutation all (events w)
        /\ descending all
        /\ Permutation upcoming (upcoming_from (ticks w) (events w))
        /\ (forall e : event,
              e ∈ upcoming
              <-> exists j : nat,
                    events w !! j = Some e
                    /\ filter_future (clock (ticks w + j)) e = true)
        /\ ascending upcoming
        /\ (distinct_pairs (events w) ->
            upcoming_from (ticks w) (events w) = events w ->
            all = rev upcoming))
  /\ (localized_events w <> [] ->
      exists alls upcomings : list (string * list event),
        context (snd (populate_context_variables w)) !! "events_list"
        = Some (CtxDict alls)
        /\ context (snd (populate_context_variables w))
             !! "upcoming_events_list" = Some (CtxDict upcomings)
        /\ length alls = length (localized_events w)
        /\ length upcomings = length (localized_events w)
        /\ forall (i : nat) (k : string) (v : list event),
             localized_events w !! i = Some (k, v) ->
             exists all upcoming : list event,
               alls !! i = Some (k, all)
               /\ upcomings !! i = Some (k, upcoming)
               /\ Permutation all v
               /\ descending all
               /\ Permutation upcoming
                    (upcoming_from
                       (ticks w
                        + length (concat (map snd
                                            (take i (localized_events w)))))%nat
                       v)
               /\ (forall e : event,
                     e ∈ upcoming
                     <-> exists j : nat,
                           v !! j = Some e
                           /\ filter_future
                                (clock
                                   (ticks w
                                    + length
                                        (concat
                                           (map snd
                                              (take i (localized_events w))))
                                    + j)) e = true)
               /\ ascending upcoming
               /\ (distinct_pairs v ->
                   upcoming_from
                     (ticks w
                      + length (concat (map snd
                                          (take i (localized_events w)))))%nat
                     v = v ->
                   all = rev upcoming)).
Proof.
  split; [|split; [|split]].
  - intros ev. reflexivity.
  - apply descending_rev.
  - intros Hloc. rewrite (populate_flat w Hloc). cbn [snd context].
    eexists _, _.
    split; [rewrite lookup_insert_ne by discriminate; apply lookup_insert_eq|].
    split; [apply lookup_insert_eq|].
    split; [apply (sorted_perm sort_key key_lt true)|].
    split; [apply sorted_events_descending|].
    split; [apply (sorted_perm sort_key key_lt false)|].
    split.
    { intros e. unfold sorted_events.
      rewrite (sorted_perm sort_key key_lt false). apply upcoming_from_spec. }
    split; [apply sorted_events_ascending|].
    intros Hinj Hall. rewrite Hall. apply sorted_events_reverse_rev, Hinj.
  - intros Hloc. rewrite (populate_localized w Hloc). cbn [snd context].
    eexists _, _.
    split; [rewrite lookup_insert_ne by discriminate; apply lookup_insert_eq|].
    split; [apply lookup_insert_eq|].
    destruct (localized_views_length (localized_events w) (ticks w))
      as [Hlen Hlen'].
    split; [exact Hlen|]. split; [exact Hlen'|].
    intros i k v Hi.
    destruct (localized_views (localized_events w) (ticks w) i k v Hi)
      as [Hall Hup].
    eexists _, _. split; [exact Hall|]. split; [exact Hup|].
    split; [apply (sorted_perm sort_key key_lt true)|].
    split; [apply sorted_events_descending|].
    split; [apply (sorted_perm sort_key key_lt false)|].
    split.
    { intros e. unfold sorted_events.
      rewrite (sorted_perm sort_key key_lt false). apply upcoming_from_spec. }
    split; [apply sorted_events_ascending|].
    intros Hinj Hkeep. rewrite Hkeep. apply sorted_events_reverse_rev, Hinj.
Qed.

End ContextVariables.

Ltac by_evaluation := repeat split; vm_compute; (reflexivity || discriminate).


(** At noon on 2024-01-01 the fireworks, over since 00:30 that day, are
    kept; the party that ended at 23:59 the day before is dropped. *)
Lemma future_only_keeps_by_end_date_witness :
  valid_naive SampleHost.noon
  /\ valid_naive (wall (dtend (plugin_data fireworks)))
  /\ filter_future SampleHost.noon fireworks = true
  /\ filter_future SampleHost.noon new_years_eve_party = false
  /\ fst (@filter_future_list SampleHost.host
            [new_years_eve_party; fireworks; workshop] empty_world)
     = Ok [fireworks; workshop].
Proof.
  assert (Hnoon : valid_naive SampleHost.noon) by by_evaluation.
  assert (Hfire : valid_naive (wall (dtend (plugin_data fireworks))))
    by by_evaluation.
  assert (Hparty : valid_naive (wall (dtend (plugin_data new_years_eve_party))))
    by by_evaluation.
  split; [exact Hnoon|]. split; [exact Hfire|].
  destruct (@future_only_keeps_by_end_date SampleHost.host SampleHost.noon
              fireworks Hnoon Hfire) as (_ & _ & Hsame & _ & Hlist).
  destruct (@future_only_keeps_by_end_date SampleHost.host SampleHost.noon
              new_years_eve_party Hnoon Hparty) as (_ & _ & _ & Hbefore & _).
  split; [apply Hsame; reflexivity|].
  split; [apply Hbefore; vm_compute; reflexivity|].
  rewrite (proj1 (Hlist _ _)). vm_compute. reflexivity.
Defined.

(** Five records.  [meeting] and [meeting_again] have the same start
    and end: both views keep them in the order they were appended in.
    [short_meeting] starts with them and ends before them: the ascending
    view has it before them and the descending view after them, though
    it was appended last. *)
Lemma sorted_views_are_stable_witness :
  fst (start_end_pair short_meeting) = fst (start_end_pair meeting)
  /\ snd (start_end_pair short_meeting) < snd (start_end_pair meeting)
  /\ exists all upcoming : list event,
       context (snd (@populate_context_variables SampleHost.host
                       world_of_five)) !! "events_list" = Some (CtxList all)
       /\ context (snd (@populate_context_variables SampleHost.host
                          world_of_five)) !! "upcoming_events_list"
          = Some (CtxList upcoming)
       /\ all = [meeting; meeting_again; short_meeting; workshop;
                 new_years_eve_party]
       /\ upcoming = [workshop; short_meeting; meeting; meeting_again]
       /\ List.filter (same_key (start_end_pair meeting)) all
          = [meeting; meeting_again]
       /\ List.filter (same_key (start_end_pair meeting)) upcoming
          = [meeting; meeting_again].
Proof.
  split; [vm_compute; reflexivity|]. split; [vm_compute; reflexivity|].
  destruct (@sorted_views_are_stable SampleHost.host world_of_five)
    as (_ & _ & _ & Hflat & _).
  destruct (Hflat eq_refl) as (all & upcoming & Hall & Hup & Hsv & Hsu & _).
  assert (Eall : context (snd (@populate_context_variables SampleHost.host
                                 world_of_five)) !! "events_list"
                 = Some (CtxList [meeting; meeting_again; short_meeting;
                                  workshop; new_years_eve_party]))
    by (vm_compute; reflexivity).
  assert (Eup : context (snd (@populate_context_variables SampleHost.host
                                world_of_five)) !! "upcoming_events_list"
                = Some (CtxList [workshop; short_meeting; meeting;
                                 meeting_again]))
    by (vm_compute; reflexivity).
  exists all, upcoming. split; [exact Hall|]. split; [exact Hup|].
  rewrite Eall in Hall. rewrite Eup in Hup.
  injection Hall as Ha. injection Hup as Hu.
  destruct Hsv as (_ & _ & Hstable). destruct Hsu as (_ & _ & Hstable').
  split; [symmetry; exact Ha|]. split; [symmetry; exact Hu|].
  rewrite Hstable, Hstable'. split; vm_compute; reflexivity.
Defined.

(** A localized build with two buckets.  In the English bucket the
    three records are all upcoming and no two share a pair:
    [events_list] is [upcoming_events_list] read backwards, with
    [short_meeting] between [workshop] and [meeting], which ends after
    it.  In the German bucket the party of the day before is dropped
    from the upcoming records.  In the flat build of the workshop and the
    meeting the two lists are in opposite orders too. *)
Lemma context_lists_have_opposite_orders_witness :
  localized_events world_with_two_buckets
  = [("en", [meeting; workshop; short_meeting]);
     ("de", [new_years_eve_party; meeting_again; fireworks])]
  /\ context (snd (@populate_context_variables SampleHost.host
                     world_with_two_buckets)) !! "events_list"
     = Some (CtxDict [("en", [meeting; short_meeting; workshop]);
                      ("de", [meeting_again; fireworks;
                              new_years_eve_party])])
  /\ context (snd (@populate_context_variables SampleHost.host
                     world_with_two_buckets)) !! "upcoming_events_list"
     = Some (CtxDict [("en", [workshop; short_meeting; meeting]);
                      ("de", [fireworks; meeting_again])])
  /\ (exists all upcoming : list event,
        all = [meeting; short_meeting; workshop]
        /\ upcoming = [workshop; short_meeting; meeting]
        /\ descending all /\ ascending upcoming /\ all = rev upcoming)
  /\ exists all upcoming : list event,
       context (snd (@populate_context_variables SampleHost.host
                       world_with_workshop_and_meeting)) !! "events_list"
       = Some (CtxList all)
       /\ context (snd (@populate_context_variables SampleHost.host
                          world_with_workshop_and_meeting))
            !! "upcoming_events_list" = Some (CtxList upcoming)
       /\ all = [meeting; workshop] /\ upcoming = [workshop; meeting]
       /\ descending all /\ ascending upcoming.
Proof.
  assert (Eall : context (snd (@populate_context_variables SampleHost.host
                                 world_with_two_buckets)) !! "events_list"
                 = Some (CtxDict [("en", [meeting; short_meeting; workshop]);
                                  ("de", [meeting_again; fireworks;
                                          new_years_eve_party])]))
    by (vm_compute; reflexivity).
  assert (Eup : context (snd (@populate_context_variables SampleHost.host
                                world_with_two_buckets))
                  !! "upcoming_events_list"
                = Some (CtxDict [("en", [workshop; short_meeting; meeting]);
                                 ("de", [fireworks; meeting_again])]))
    by (vm_compute; reflexivity).
  split; [reflexivity|]. split; [exact Eall|]. split; [exact Eup|].
  destruct (@context_lists_have_opposite_orders SampleHost.host
              world_with_two_buckets) as (_ & _ & _ & Hloc).
  destruct Hloc as (alls & upcomings & Halls & Hups & _ & _ & Hbucket);
    [discriminate|].
  rewrite Eall in Halls. rewrite Eup in Hups.
  injection Halls as <-. injection Hups as <-.
  destruct (Hbucket 0%nat "en" [meeting; workshop; short_meeting] eq_refl)
    as (all & upcoming & Hall & Hup & _ & Hdesc & _ & _ & Hasc & Hrev).
  injection Hall as <-. injection Hup as <-.
  split.
  { eexists _, _. split; [reflexivity|]. split; [reflexivity|].
    split; [exact Hdesc|]. split; [exact Hasc|]. reflexivity. }
  destruct (@context_lists_have_opposite_orders SampleHost.host
              world_with_workshop_and_meeting) as (_ & _ & Hflat & _).
  destruct (Hflat eq_refl)
    as (all & upcoming & Hall & Hup & _ & Hdesc' & _ & _ & Hasc' & _).
  exists all, upcoming. split; [exact Hall|]. split; [exact Hup|].
  assert (Fall : context (snd (@populate_context_variables SampleHost.host
                                 world_with_workshop_and_meeting))
                   !! "events_list" = Some (CtxList [meeting; workshop]))
    by (vm_compute; reflexivity).
  assert (Fup : context (snd (@populate_context_variables SampleHost.host
                                world_with_workshop_and_meeting))
                  !! "upcoming_events_list"
                = Some (CtxList [workshop; meeting]))
    by (vm_compute; reflexivity).
  rewrite Fall in Hall. rewrite Fup in Hup.
  injection Hall as <-. injection Hup as <-.
  split; [reflexivity|]. split; [reflexivity|].
  split; [exact Hdesc' | exact Hasc'].
Defined.

(** * Further properties *)

Section Splitting.

Lemma append_empty_r (s : string) : s +:+ "" = s.
Proof.
  induction s as [|c s IH]; [reflexivity|].
  change (String c (s +:+ "") = String c s). f_equal. exact IH.
Qed.

Lemma split_from_word (w : string) :
  forall cur rest : string,
    has_space w = false ->
    split_from cur (w +:+ rest) = split_from (cur +:+ w) rest.
Proof.
  induction w as [|c w IH]; intros cur rest Hw.
  - rewrite append_empty_r. reflexivity.
  - cbn [has_space] in Hw. apply orb_false_elim in Hw. destruct Hw as [Hc Hw].
    change (String c w +:+ rest) with (String c (w +:+ rest)).
    cbn [split_from]. rewrite Hc. rewrite IH by exact Hw.
    rewrite str_app_assoc. reflexivity.
Qed.

Lemma append_nonempty (a b : string) : b <> "" -> a +:+ b <> "".
Proof. destruct a; simpl; [tauto | discriminate]. Qed.

Lemma eqb_empty_false (s : string) : s <> "" -> String.eqb s "" = false.
Proof. intros Hs. destruct (String.eqb_spec s ""); [contradiction | reflexivity]. Qed.

(** Every chunk [split] returns is a word. *)
Lemma split_from_words (s : string) :
  forall cur : string,
    has_space cur = false ->
    Forall is_word (split_from cur s).
Proof.
  induction s as [|c s IH]; intros cur Hcur; simpl.
  - destruct (String.eqb_spec cur ""); constructor; [|constructor].
    split; assumption.
  - destruct (is_space c) eqn:Hc.
    + destruct (String.eqb_spec cur "").
      * apply IH. reflexivity.
      * constructor; [split; assumption | apply IH; reflexivity].
    + apply IH. clear IH. induction cur as [|d cur IHc].
      * change (is_space c || false = false). rewrite Hc. reflexivity.
      * cbn [has_space] in Hcur. apply orb_false_elim in Hcur.
        destruct Hcur as [Hd Hcur].
        change (has_space (String d (cur +:+ String c "")) = false).
        cbn [has_space]. rewrite Hd. apply IHc, Hcur.
Qed.

(** [split] returns words only (non-empty, free of white space),
    and it undoes joining words with single spaces. *)
Theorem split_words_and_join (s : string) (words : list string) :
  Forall is_word words ->
  Forall is_word (split s)
  /\ split (String.concat " " words) = words.
Proof.
  intros Hwords. split; [apply split_from_words; reflexivity|].
  unfold split. induction Hwords as [|w words [Hne Hw] Hrest IH];
    [reflexivity|].
  destruct words as [|w' words].
  - cbn [String.concat]. rewrite <- (append_empty_r w) at 1.
    rewrite split_from_word by exact Hw. change ("" +:+ w) with w.
    cbn [split_from]. rewrite eqb_empty_false by exact Hne. reflexivity.
  - change (String.concat " " (w :: w' :: words))
      with (w +:+ String " " (String.concat " " (w' :: words))).
    rewrite split_from_word by exact Hw. change ("" +:+ w) with w.
    cbn [split_from]. change (is_space " ") with true. cbv iota.
    rewrite eqb_empty_false by exact Hne. f_equal. exact IH.
Qed.

End Splitting.

Section DurationErrors.
Context `{H : Host}.

Lemma parse_chunks_app (md : gmap string mvalue) (l1 l2 : list string) :
  forall tdargs : gmap string float,
    parse_chunks md tdargs (l1 ++ l2)
    = match parse_chunks md tdargs l1 with
      | Ok tdargs' => parse_chunks md tdargs' l2
      | Raise e => Raise e
      end.
Proof.
  induction l1 as [|c l1 IH]; intros tdargs; simpl; [reflexivity|].
  destruct (parse_chunk md tdargs c); [apply IH | reflexivity].
Qed.

Lemma well_formed_tokens (chunks : list string) :
  Forall (fun c => is_Some (token_of c)) chunks ->
  exists tokens : list (string * float),
    Forall2 (fun c t => token_of c = Some t) chunks tokens.
Proof.
  induction 1 as [|c chunks [t Ht] _ [tokens IH]].
  - exists []. constructor.
  - exists (t :: tokens). constructor; assumption.
Qed.

Lemma parse_chunk_malformed (md : gmap string mvalue)
    (tdargs : gmap string float) (c : string) :
  token_of c = None ->
  parse_chunk md tdargs c
  = match md !! "title" with
    | Some _ => Raise (malformed_chunk_error c)
    | None =>
        match last_char c with
        | None => Raise (malformed_chunk_error c)
        | Some _ => Raise (KeyError "title")
        end
    end.
Proof.
  unfold token_of, parse_chunk, malformed_chunk_error, log_title_then_raise,
    getitem.
  destruct (last_char c) as [u|]; [|destruct (md !! "title"); reflexivity].
  destruct (TIME_MULTIPLIERS u) as [m|].
  - destruct (float_of_str (but_last c)); [discriminate|].
    intros _. destruct (md !! "title"); reflexivity.
  - intros _. destruct (md !! "title"); reflexivity.
Qed.

(** X1.  [parse_timedelta] stops at the first chunk it does not accept:
    the chunks before it must all be well formed, the chunks after it
    are never looked at, and the [timedelta] constructor is not called.
    For that chunk the multiplier is checked before the magnitude: an
    unknown last character raises [RuntimeError] naming the chunk
    whatever the rest of the chunk is, a known multiplier after a text
    that is no float raises [ValueError] naming the chunk.  When the
    metadata has no title, the handler's log line raises
    [KeyError('title')] in place of either. *)
Theorem parse_timedelta_first_malformed (md : gmap string mvalue)
    (s : string) (good rest : list string) (bad : string) :
  md !! "event-duration" = Some (MStr s) ->
  split s = (good ++ bad :: rest)%list ->
  Forall (fun c => is_Some (token_of c)) good ->
  token_of bad = None ->
  (forall u, last_char bad = Some u -> TIME_MULTIPLIERS u = None ->
     is_Some (md !! "title") ->
     parse_timedelta md
     = Raise (RuntimeError ("Unknown time multiplier '" +:+ bad +:+ "'")))
  /\ (forall u m, last_char bad = Some u -> TIME_MULTIPLIERS u = Some m ->
      is_Some (md !! "title") ->
      parse_timedelta md
      = Raise (ValueError ("Unable to parse '" +:+ bad +:+ "'")))
  /\ (md !! "title" = None -> parse_timedelta md = Raise (KeyError "title")).
Proof.
  intros Hmd Hsplit Hgood Hbad.
  destruct (well_formed_tokens good Hgood) as [tokens Htokens].
  assert (Hrun : parse_timedelta md
                 = match md !! "title" with
                   | Some _ => Raise (malformed_chunk_error bad)
                   | None =>
                       match last_char bad with
                       | None => Raise (malformed_chunk_error bad)
                       | Some _ => Raise (KeyError "title")
                       end
                   end).
  { unfold parse_timedelta, getitem. rewrite Hmd, Hsplit, parse_chunks_app.
    rewrite (parse_chunks_assigns md good tokens ∅ Htokens).
    cbn [parse_chunks]. rewrite (parse_chunk_malformed _ _ _ Hbad).
    destruct (md !! "title"); [reflexivity|].
    destruct (last_char bad); reflexivity. }
  assert (Hlast : is_Some (last_char bad)).
  { assert (Hw : Forall is_word (split s)) by (apply split_from_words; reflexivity).
    rewrite Hsplit in Hw. apply Forall_app in Hw. destruct Hw as [_ Hw].
    apply Forall_cons_1 in Hw. destruct Hw as [[Hne _] _].
    destruct bad as [|c bad]; [contradiction|].
    clear. revert c. induction bad as [|d bad IH]; intros c; [eexists; reflexivity|].
    apply (IH d). }
  split; [|split].
  - intros u Hu Hunit [t Ht]. rewrite Hrun, Ht.
    unfold malformed_chunk_error. rewrite Hu, Hunit. reflexivity.
  - intros u m Hu Hunit [t Ht]. rewrite Hrun, Ht.
    unfold malformed_chunk_error. rewrite Hu, Hunit. reflexivity.
  - intros Ht. rewrite Hrun, Ht. destruct Hlast as [u Hu]. rewrite Hu.
    reflexivity.
Qed.

Lemma split_from_blank (s : string) :
  all_space s = true -> split_from "" s = [].
Proof.
  induction s as [|c s IH]; intros Hs; [reflexivity|].
  cbn [all_space] in Hs. apply andb_prop in Hs. destruct Hs as [Hc Hs].
  cbn [split_from]. rewrite Hc. apply IH, Hs.
Qed.

Lemma last_char_word (c : string) : c <> "" -> is_Some (last_char c).
Proof.
  destruct c as [|a c]; [contradiction|]. intros _.
  revert a. induction c as [|d c IH]; intros a; [eexists; reflexivity|].
  apply (IH d).
Qed.

Lemma parse_chunks_no_index_error (md : gmap string mvalue)
    (chunks : list string) :
  Forall is_word chunks ->
  forall (tdargs : gmap string float) (msg : string),
    parse_chunks md tdargs chunks <> Raise (IndexError msg).
Proof.
  induction 1 as [|c chunks [Hne _] _ IH]; intros tdargs msg; [discriminate|].
  cbn [parse_chunks]. unfold parse_chunk, log_title_then_raise, getitem.
  destruct (last_char_word c Hne) as [u Hu]. rewrite Hu.
  destruct (TIME_MULTIPLIERS u).
  - destruct (float_of_str (but_last c)); [apply IH|].
    destruct (md !! "title"); discriminate.
  - destruct (md !! "title"); discriminate.
Qed.

(** X2.  A duration that is empty or all white space is accepted: no
    chunk is parsed and the [timedelta] constructor is called without
    arguments.  Whatever the duration string is, the loop never raises
    [IndexError]: the chunks of [split()] are not empty, so each has a
    last character. *)
Theorem parse_timedelta_blank (md : gmap string mvalue) (s : string) :
  md !! "event-duration" = Some (MStr s) ->
  (all_space s = true -> parse_timedelta md = timedelta_kwargs ∅)
  /\ (forall (tdargs : gmap string float) (msg : string),
        parse_chunks md tdargs (split s) <> Raise (IndexError msg)).
Proof.
  intros Hmd. split.
  - intros Hblank. unfold parse_timedelta, getitem. rewrite Hmd.
    unfold split. rewrite (split_from_blank s Hblank). reflexivity.
  - apply parse_chunks_no_index_error, split_from_words. reflexivity.
Qed.

(** With one token for each unit, a unit holds the magnitude of its
    token. *)
Lemma last_magnitude_NoDup {F : Type} (tokens : list (string * F)) :
  NoDup (map fst tokens) ->
  forall (unit : string) (x : F),
    last_magnitude unit tokens = Some x <-> In (unit, x) tokens.
Proof.
  induction tokens as [|[u y] tokens IH]; intros Hnd unit x.
  - simpl. split; [discriminate | tauto].
  - simpl in Hnd. apply NoDup_cons in Hnd. destruct Hnd as [Hnotin Hnd].
    cbn [last_magnitude]. specialize (IH Hnd unit).
    destruct (last_magnitude unit tokens) as [z|] eqn:Hz.
    + split.
      * intros E. right. apply IH. exact E.
      * intros [E|Hin].
        -- inversion E; subst. exfalso. apply Hnotin.
           apply list_elem_of_In, in_map_iff. exists (unit, z).
           split; [reflexivity | apply IH; reflexivity].
        -- apply IH. exact Hin.
    + destruct (String.eqb_spec u unit) as [->|Hne].
      * split.
        -- intros E. inversion E. left. reflexivity.
        -- intros [E|Hin]; [inversion E; reflexivity|].
           apply IH in Hin. discriminate.
      * split; [discriminate|].
        intros [E|Hin]; [inversion E; contradiction|].
        apply IH in Hin. discriminate.
Qed.

(** X3.  When no unit occurs twice, the order of the tokens does not
    matter: two duration strings whose well-formed tokens are the same up
    to order lead to the same call of the [timedelta] constructor. *)
Theorem parse_timedelta_order_irrelevant (md1 md2 : gmap string mvalue)
    (s1 s2 : string) (tokens1 tokens2 : list (string * float)) :
  md1 !! "event-duration" = Some (MStr s1) ->
  md2 !! "event-duration" = Some (MStr s2) ->
  Forall2 (fun c t => token_of c = Some t) (split s1) tokens1 ->
  Forall2 (fun c t => token_of c = Some t) (split s2) tokens2 ->
  Permutation tokens1 tokens2 ->
  NoDup (map fst tokens1) ->
  parse_timedelta md1 = parse_timedelta md2.
Proof.
  intros Hmd1 Hmd2 Ht1 Ht2 Hperm Hnd1.
  assert (Hnd2 : NoDup (map fst tokens2)).
  { assert (Hp : map fst tokens1 ≡ₚ map fst tokens2)
      by (apply Permutation_map, Hperm).
    rewrite <- Hp. exact Hnd1. }
  unfold parse_timedelta, getitem. rewrite Hmd1, Hmd2.
  rewrite (parse_chunks_assigns md1 _ tokens1 ∅ Ht1).
  rewrite (parse_chunks_assigns md2 _ tokens2 ∅ Ht2).
  f_equal. apply map_eq. intros unit. rewrite !assignments_lookup.
  destruct (last_magnitude unit tokens1) as [x|] eqn:E1.
  - apply (last_magnitude_NoDup tokens1 Hnd1) in E1.
    apply (Permutation_in _ Hperm) in E1.
    apply (last_magnitude_NoDup tokens2 Hnd2) in E1. rewrite E1. reflexivity.
  - destruct (last_magnitude unit tokens2) as [y|] eqn:E2; [|reflexivity].
    apply (last_magnitude_NoDup tokens2 Hnd2) in E2.
    apply (Permutation_in _ (Permutation_sym Hperm)) in E2.
    apply (last_magnitude_NoDup tokens1 Hnd1) in E2. congruence.
Qed.

End DurationErrors.

(** On the sample host: "1h 5x 2q" fails on "5x", "1h zzm" on "zzm". *)
Lemma parse_timedelta_first_malformed_witness :
  @parse_timedelta SampleHost.host (titled_duration "1h 5x 2q")
  = Raise (RuntimeError "Unknown time multiplier '5x'")
  /\ @parse_timedelta SampleHost.host (titled_duration "1h zzm")
     = Raise (ValueError "Unable to parse 'zzm'").
Proof.
  split.
  - apply (proj1 (@parse_timedelta_first_malformed SampleHost.host
                    (titled_duration "1h 5x 2q") "1h 5x 2q" ["1h"] ["2q"] "5x"
                    ltac:(vm_compute; reflexivity) eq_refl
                    ltac:(repeat constructor; eexists; vm_compute; reflexivity)
                    eq_refl) "x"%char eq_refl eq_refl).
    eexists; vm_compute; reflexivity.
  - apply (proj1 (proj2 (@parse_timedelta_first_malformed SampleHost.host
                    (titled_duration "1h zzm") "1h zzm" ["1h"] [] "zzm"
                    ltac:(vm_compute; reflexivity) eq_refl
                    ltac:(repeat constructor; eexists; vm_compute; reflexivity)
                    eq_refl)) "m"%char "minutes" eq_refl eq_refl).
    eexists; vm_compute; reflexivity.
Defined.

Lemma parse_timedelta_blank_witness :
  duration_field "   " !! "event-duration" = Some (MStr "   ")
  /\ all_space "   " = true
  /\ @parse_timedelta SampleHost.host (duration_field "   ")
     = Ok (mk_timedelta 0).
Proof.
  assert (Hmd : duration_field "   " !! "event-duration" = Some (MStr "   "))
    by apply lookup_singleton_eq.
  split; [exact Hmd|]. split; [reflexivity|].
  rewrite (proj1 (@parse_timedelta_blank SampleHost.host _ _ Hmd) eq_refl).
  reflexivity.
Defined.

Lemma parse_timedelta_order_irrelevant_witness :
  @parse_timedelta SampleHost.host (duration_field "2h 30m")
  = @parse_timedelta SampleHost.host (duration_field "30m  2h").
Proof.
  apply (@parse_timedelta_order_irrelevant SampleHost.host _ _
           "2h 30m" "30m  2h"
           [("hours", 2); ("minutes", 30)] [("minutes", 30); ("hours", 2)]).
  - apply lookup_singleton_eq.
  - apply lookup_singleton_eq.
  - repeat constructor.
  - repeat constructor.
  - apply perm_swap.
  - simpl. apply NoDup_cons_2; [|apply NoDup_singleton].
    intros Hin. apply list_elem_of_singleton in Hin. discriminate.
Defined.

Ltac unfold_parse_article :=
  unfold parse_article, with_data, recorded, event_of_content, bind, lift,
    ret, raise, events_append, getitem.

Section ArticleOutcomes.
Context `{H : Host}.



(** The three ways a call of [parse_article] can end. *)
Lemma parse_article_cases (c : content) (w : world) :
  parse_article c w = (Ok c, w)
  \/ (exists e : exn, parse_article c w = (Raise e, w))
  \/ (exists d : event_plugin_data,
        is_article c = true
        /\ parse_article c w = (Ok (with_data c d), recorded c d w)).
Proof.
  unfold_parse_article.
  destruct (is_article c) eqn:Hart; cbn [negb]; [|left; reflexivity].
  destruct (c_metadata c !! "event-start"); [|left; reflexivity].
  destruct (parse_tstamp (c_metadata c) "event-start") as [a|e];
    [|right; left; eexists; reflexivity].
  destruct (c_metadata c !! "event-end").
  - destruct (parse_tstamp (c_metadata c) "event-end") as [b|e];
      [|right; left; eexists; reflexivity].
    right; right. exists (mk_epd a b). split; [reflexivity|].
    destruct (is_draft (c_metadata c)); reflexivity.
  - destruct (c_metadata c !! "event-duration").
    + destruct (parse_timedelta (c_metadata c)) as [d|e];
        [|right; left; eexists; reflexivity].
      destruct (aware_add a d) as [b|e];
        [|right; left; eexists; reflexivity].
      right; right. exists (mk_epd a b). split; [reflexivity|].
      destruct (is_draft (c_metadata c)); reflexivity.
    + right; left.
      destruct (c_metadata c !! "title"); eexists; reflexivity.
Qed.

(** X5.  What a call of [parse_article] can do.  Content that is not an
    article, or has no start field, is returned untouched and the world
    with it.  A call that raises leaves the world exactly as it was: no
    record is appended, whichever step failed.  A call that builds a
    record sets the content's plugin data and appends the content at the
    end of [events], after the records already there, unless the status
    is exactly the string "draft": then [events] is unchanged.  Nothing
    else of the world is ever touched. *)
Theorem parse_article_outcomes (c c' : content) (w w' : world)
    (r : result content) :
  parse_article c w = (r, w') ->
  (is_article c = false \/ c_metadata c !! "event-start" = None ->
   r = Ok c /\ w' = w)
  /\ (forall e : exn, r = Raise e -> w' = w)
  /\ (r = Ok c' ->
      (c' = c /\ w' = w)
      \/ exists d : event_plugin_data,
           c' = with_data c d
           /\ (c_metadata c !! "status" = Some (MStr "draft") -> w' = w)
           /\ (c_metadata c !! "status" <> Some (MStr "draft") ->
               events w' = (events w ++ [event_of_content c d])%list))
  /\ localized_events w' = localized_events w /\ ticks w' = ticks w
  /\ files w' = files w /\ context w' = context w.
Proof.
  intros Hrun.
  assert (Hdraft : is_draft (c_metadata c) = true
                   <-> c_metadata c !! "status" = Some (MStr "draft")).
  { unfold is_draft. destruct (c_metadata c !! "status") as [[s|d]|].
    - rewrite String.eqb_eq. split; congruence.
    - split; discriminate.
    - split; discriminate. }
  split; [|split; [|split]].
  - intros Hskip. revert Hrun. unfold_parse_article.
    destruct Hskip as [Hart|Hstart].
    + rewrite Hart. cbn [negb]. intros E; inversion E; split; reflexivity.
    + destruct (negb (is_article c));
        [intros E; inversion E; split; reflexivity|].
      rewrite Hstart. intros E; inversion E; split; reflexivity.
  - intros e ->.
    destruct (parse_article_cases c w) as [E|[[e' E]|(d & _ & E)]];
      rewrite E in Hrun; inversion Hrun; reflexivity.
  - intros ->.
    destruct (parse_article_cases c w) as [E|[[e' E]|(d & _ & E)]];
      rewrite E in Hrun; inversion Hrun.
    + left. split; reflexivity.
    + right. exists d. split; [reflexivity|]. unfold recorded. split.
      * intros Hs. apply Hdraft in Hs. rewrite Hs. reflexivity.
      * intros Hs. destruct (is_draft (c_metadata c)); [|reflexivity].
        exfalso. apply Hs, Hdraft. reflexivity.
  - destruct (parse_article_cases c w) as [E|[[e' E]|(d & _ & E)]];
      rewrite E in Hrun; inversion Hrun; try (repeat split; reflexivity).
    unfold recorded. destruct (is_draft (c_metadata c)); repeat split; reflexivity.
Qed.

End ArticleOutcomes.


(** The draft of the scenario gets its plugin data and stays out of
    [events]. *)
Lemma parse_article_outcomes_witness :
  @parse_article SampleHost.host draft_article world_with_meeting
  = (Ok (with_data draft_article (mk_epd new_year_10am new_year_1130am)),
     world_with_meeting)
  /\ exists d : event_plugin_data,
       with_data draft_article (mk_epd new_year_10am new_year_1130am)
       = with_data draft_article d.
Proof.
  assert (Hrun : @parse_article SampleHost.host draft_article world_with_meeting
                 = (Ok (with_data draft_article
                          (mk_epd new_year_10am new_year_1130am)),
                    world_with_meeting)) by (vm_compute; reflexivity).
  split; [exact Hrun|].
  destruct (@parse_article_outcomes SampleHost.host draft_article
              (with_data draft_article (mk_epd new_year_10am new_year_1130am))
              _ _ _ Hrun) as (_ & _ & Hok & _).
  destruct (Hok eq_refl) as [[E _]|(d & E & _)].
  - discriminate E.
  - exists d. exact E.
Defined.

Section Recurrences.
Context `{H : Host}.

(** One configured recurrence: the outcome depends on the clock only;
    either one record is appended after two readings of the clock, or
    an exception is raised and nothing is appended. *)
Lemma insert_recurring_event_shape (spec : gmap string string) (t0 : nat) :
  exists (r : result unit) (new : list event) (t : nat),
    (forall w : world,
        ticks w = t0 -> insert_recurring_event spec w = (r, extended w new t))
    /\ ((r = Ok tt /\ t = (2 + t0)%nat
         /\ exists ev : event, new = [ev] /\ describes spec ev)
        \/ ((exists e : exn, r = Raise e) /\ new = [])).
Proof.
  unfold insert_recurring_event, bind, lift, datetime_now, raise,
    events_append, extended.
  assert (Hfail : forall (e : exn) (t : nat) (f : world -> result unit * world),
    (forall w, ticks w = t0 ->
       f w = (Raise e, mk_world (events w) (localized_events w) t (files w)
                         (context w))) ->
    exists (r : result unit) (new : list event) (t' : nat),
      (forall w, ticks w = t0 ->
         f w = (r, mk_world (events w ++ new) (localized_events w) t' (files w)
                     (context w)))
      /\ ((r = Ok tt /\ t' = (2 + t0)%nat
           /\ exists ev : event, new = [ev] /\ describes spec ev)
          \/ ((exists e : exn, r = Raise e) /\ new = []))).
  { intros e t f Hf. exists (Raise e), [], t. split.
    - intros w Hw. rewrite app_nil_r. apply Hf, Hw.
    - right. split; [eexists; reflexivity | reflexivity]. }
  destruct (getitem spec "recurring_rule") as [rule|e] eqn:Hrule.
  2:{ apply (Hfail e t0). intros w Hw. rewrite <- Hw. destruct w; reflexivity. }
  cbn [ticks events localized_events files context].
  destruct (rfc_rrule (clock t0) rule) as [rfc|e] eqn:Hrfc.
  2:{ apply (Hfail e (S t0)). intros w Hw. rewrite Hw, Hrfc. reflexivity. }
  destruct (rrule_after rfc (clock (S t0))) as [next|e] eqn:Hafter.
  2:{ apply (Hfail e (S (S t0))). intros w Hw. rewrite Hw, Hrfc, Hafter.
      reflexivity. }
  destruct (parse_timedelta (MStr <$> spec)) as [d|e] eqn:Hd.
  2:{ apply (Hfail e (S (S t0))). intros w Hw. rewrite Hw, Hrfc, Hafter.
      reflexivity. }
  destruct (getitem spec "page_url") as [page|e] eqn:Hpage.
  2:{ apply (Hfail e (S (S t0))). intros w Hw. rewrite Hw, Hrfc, Hafter.
      reflexivity. }
  destruct (getitem spec "location") as [loc|e] eqn:Hloc.
  2:{ apply (Hfail e (S (S t0))). intros w Hw. rewrite Hw, Hrfc, Hafter.
      reflexivity. }
  destruct (getitem spec "title") as [title|e] eqn:Htitle.
  2:{ apply (Hfail e (S (S t0))). intros w Hw. rewrite Hw, Hrfc, Hafter.
      reflexivity. }
  destruct (getitem spec "summary") as [summary|e] eqn:Hsummary.
  2:{ apply (Hfail e (S (S t0))). intros w Hw. rewrite Hw, Hrfc, Hafter.
      reflexivity. }
  destruct next as [occ|].
  2:{ apply (Hfail (AttributeError
                      "'NoneType' object has no attribute 'astimezone'")
               (S (S t0))).
      intros w Hw. rewrite Hw, Hrfc, Hafter. reflexivity. }
  destruct (astimezone_call occ) as [start|e] eqn:Hstart.
  2:{ apply (Hfail e (S (S t0))). intros w Hw.
      rewrite Hw, Hrfc, Hafter, Hstart. reflexivity. }
  destruct (aware_add start d) as [dtend_|e] eqn:Hadd.
  2:{ apply (Hfail e (S (S t0))). intros w Hw.
      rewrite Hw, Hrfc, Hafter, Hstart, Hadd. reflexivity. }
  eexists (Ok tt), [_], (S (S t0)). split.
  - intros w Hw. rewrite Hw, Hrfc, Hafter, Hstart, Hadd. reflexivity.
  - left. split; [reflexivity|]. split; [reflexivity|].
    eexists. split; [reflexivity|].
    unfold getitem in Hpage, Hloc, Htitle, Hsummary.
    destruct (spec !! "page_url") as [p|] eqn:E1; [|discriminate].
    destruct (spec !! "location") as [l|] eqn:E2; [|discriminate].
    destruct (spec !! "title") as [ti|] eqn:E3; [|discriminate].
    destruct (spec !! "summary") as [su|] eqn:E4; [|discriminate].
    inversion Hpage; inversion Hloc; inversion Htitle; inversion Hsummary.
    subst. exists page, loc, title, summary. cbn [url location metadata].
    repeat split; try reflexivity; try assumption;
      repeat (first [apply lookup_insert_eq
                    | rewrite lookup_insert_ne by discriminate]);
      try apply lookup_empty.
Qed.

Lemma insert_recurring_loop_shape (specs : list (gmap string string)) :
  forall t0 : nat,
    exists (r : result unit) (new : list event) (t : nat),
      (forall w : world,
          ticks w = t0 ->
          insert_recurring_loop specs w = (r, extended w new t))
      /\ Forall2 describes (take (length new) specs) new
      /\ (r = Ok tt ->
          length new = length specs /\ t = (2 * length specs + t0)%nat)
      /\ (forall e : exn, r = Raise e -> (length new < length specs)%nat).
Proof.
  induction specs as [|spec specs IH]; intros t0.
  - exists (Ok tt), [], t0. split; [|split; [|split]].
    + intros w Hw. cbn [insert_recurring_loop]. unfold ret, extended.
      rewrite app_nil_r, <- Hw. destruct w; reflexivity.
    + constructor.
    + intros _. split; reflexivity.
    + discriminate.
  - destruct (insert_recurring_event_shape spec t0)
      as (r1 & new1 & t1 & Hrun1 & [(-> & -> & ev & -> & Hev)|[[e ->] ->]]).
    + destruct (IH (2 + t0)%nat) as (r2 & new2 & t2 & Hrun2 & Hdesc & Hok & Herr).
      exists r2, (ev :: new2), t2. split; [|split; [|split]].
      * intros w Hw. cbn [insert_recurring_loop]. unfold bind.
        rewrite (Hrun1 w Hw).
        rewrite (Hrun2 (extended w [ev] (2 + t0)%nat) eq_refl).
        unfold extended. cbn [events localized_events files context].
        rewrite <- app_assoc. reflexivity.
      * cbn [length take]. constructor; assumption.
      * intros E. destruct (Hok E) as [Hlen ->]. cbn [length].
        split; [congruence | lia].
      * intros e E. specialize (Herr e E). cbn [length]. lia.
    + exists (Raise e), [], t1. split; [|split; [|split]].
      * intros w Hw. cbn [insert_recurring_loop]. unfold bind.
        rewrite (Hrun1 w Hw). reflexivity.
      * constructor.
      * discriminate.
      * intros _ _. cbn [length]. lia.
Qed.

(** X6.  [insert_recurring_events] works through the configured
    recurrences in order and stops at the first that fails.  It only
    appends to [events]: the records already there stay in place, and
    the appended records describe, one for one and in order, the first
    recurrences of the configuration (url "pages/" + page_url, location
    both as attribute and as 'event-location', title and summary, no
    language and no status).  On success there is one record for each
    recurrence and the clock was read twice for each; on failure the
    records of the recurrences before the failing one stay appended.
    Without the key 'recurring_events' nothing happens. *)
Theorem insert_recurring_events_appends_prefix (st : settings) (w : world)
    (specs : list (gmap string string)) :
  PLUGIN_EVENTS st !! "recurring_events" = Some (PList specs) ->
  exists new : list event,
    events (snd (insert_recurring_events st w)) = (events w ++ new)%list
    /\ Forall2 describes (take (length new) specs) new
    /\ (fst (insert_recurring_events st w) = Ok tt ->
        length new = length specs
        /\ ticks (snd (insert_recurring_events st w))
           = (2 * length specs + ticks w)%nat)
    /\ (forall e : exn,
          fst (insert_recurring_events st w) = Raise e ->
          (length new < length specs)%nat)
    /\ localized_events (snd (insert_recurring_events st w))
       = localized_events w
    /\ files (snd (insert_recurring_events st w)) = files w
    /\ context (snd (insert_recurring_events st w)) = context w.
Proof.
  intros Hkey. unfold insert_recurring_events. rewrite Hkey.
  destruct (insert_recurring_loop_shape specs (ticks w))
    as (r & new & t & Hrun & Hdesc & Hok & Herr).
  rewrite (Hrun w eq_refl). exists new. cbn [fst snd]. unfold extended.
  cbn [events localized_events ticks files context].
  split; [reflexivity|]. split; [exact Hdesc|].
  split; [exact Hok|]. split; [exact Herr|]. repeat split; reflexivity.
Qed.

(** X7.  [initialize_events] starts every pass from scratch: what is in
    [events] and in the localized buckets before the call has no
    influence on the outcome, which depends on the configuration and
    the clock only; the buckets are empty afterwards, and the files
    written and the template context are kept.  Without configured
    recurrences [events] is empty afterwards; with them, a successful
    call leaves exactly one record for each. *)
Theorem initialize_events_resets (st : settings) (w1 w2 : world) :
  ticks w1 = ticks w2 ->
  fst (initialize_events st w1) = fst (initialize_events st w2)
  /\ events (snd (initialize_events st w1))
     = events (snd (initialize_events st w2))
  /\ localized_events (snd (initialize_events st w1)) = []
  /\ files (snd (initialize_events st w1)) = files w1
  /\ context (snd (initialize_events st w1)) = context w1
  /\ (PLUGIN_EVENTS st !! "recurring_events" = None ->
      initialize_events st w1
      = (Ok tt, mk_world [] [] (ticks w1) (files w1) (context w1)))
  /\ (forall specs : list (gmap string string),
        PLUGIN_EVENTS st !! "recurring_events" = Some (PList specs) ->
        fst (initialize_events st w1) = Ok tt ->
        length (events (snd (initialize_events st w1))) = length specs).
Proof.
  intros Hticks.
  assert (Hinit : forall w, initialize_events st w
                  = insert_recurring_events st
                      (mk_world [] [] (ticks w) (files w) (context w)))
    by reflexivity.
  rewrite !Hinit.
  assert (Hshape : exists (r : result unit) (new : list event) (t : nat),
            (forall w, ticks w = ticks w1 ->
               insert_recurring_events st w = (r, extended w new t))
            /\ (PLUGIN_EVENTS st !! "recurring_events" = None ->
                r = Ok tt /\ new = [] /\ t = ticks w1)
            /\ (forall specs,
                  PLUGIN_EVENTS st !! "recurring_events" = Some (PList specs) ->
                  r = Ok tt -> length new = length specs)).
  { unfold insert_recurring_events.
    destruct (PLUGIN_EVENTS st !! "recurring_events") as [[|s|specs]|].
    - exists (Raise (TypeError "'NoneType' object is not iterable")), [],
        (ticks w1).
      split; [|split; discriminate].
      intros w Hw. unfold raise, extended. rewrite app_nil_r, <- Hw.
      destruct w; reflexivity.
    - destruct (String.eqb s "").
      + exists (Ok tt), [], (ticks w1). split; [|split; discriminate].
        intros w Hw. unfold ret, extended.
        rewrite app_nil_r, <- Hw. destruct w; reflexivity.
      + exists (Raise (TypeError "string indices must be integers")), [],
          (ticks w1).
        split; [|split; discriminate].
        intros w Hw. unfold raise, extended. rewrite app_nil_r, <- Hw.
        destruct w; reflexivity.
    - destruct (insert_recurring_loop_shape specs (ticks w1))
        as (r & new & t & Hrun & _ & Hok & _). exists r, new, t.
      split; [exact Hrun|]. split; [discriminate|].
      intros specs' E Hr. inversion E; subst specs'. apply Hok, Hr.
    - exists (Ok tt), [], (ticks w1). split; [|split].
      + intros w Hw. unfold ret, extended.
        rewrite app_nil_r, <- Hw. destruct w; reflexivity.
      + intros _. repeat split; reflexivity.
      + discriminate. }
  destruct Hshape as (r & new & t & Hrun & Hnone & Hspecs).
  rewrite (Hrun (mk_world [] [] (ticks w1) (files w1) (context w1)) eq_refl).
  rewrite (Hrun (mk_world [] [] (ticks w2) (files w2) (context w2))
             (eq_sym Hticks)).
  unfold extended. cbn [fst snd events localized_events ticks files context].
  split; [reflexivity|]. split; [reflexivity|]. split; [reflexivity|].
  split; [reflexivity|]. split; [reflexivity|]. split.
  - intros E. destruct (Hnone E) as (-> & -> & ->). reflexivity.
  - intros specs Hkey Hok. apply (Hspecs specs Hkey Hok).
Qed.

End Recurrences.

(** The second recurrence has no duration: the call raises, and the
    record of the first one stays in [events]. *)
Lemma insert_recurring_events_appends_prefix_witness :
  PLUGIN_EVENTS settings_with_broken_recurrence !! "recurring_events"
  = Some (PList [weekly_meetup; recurrence_without_duration])
  /\ fst (@insert_recurring_events SampleHost.host
            settings_with_broken_recurrence world_with_meeting)
     = Raise (KeyError "event-duration")
  /\ exists new : list event,
       events (snd (@insert_recurring_events SampleHost.host
                      settings_with_broken_recurrence world_with_meeting))
       = (meeting :: new)%list
       /\ (length new < 2)%nat.
Proof.
  assert (Hkey : PLUGIN_EVENTS settings_with_broken_recurrence
                   !! "recurring_events"
                 = Some (PList [weekly_meetup; recurrence_without_duration]))
    by (vm_compute; reflexivity).
  assert (Hfail : fst (@insert_recurring_events SampleHost.host
                         settings_with_broken_recurrence world_with_meeting)
                  = Raise (KeyError "event-duration"))
    by (vm_compute; reflexivity).
  split; [exact Hkey|]. split; [exact Hfail|].
  destruct (@insert_recurring_events_appends_prefix SampleHost.host
              settings_with_broken_recurrence world_with_meeting _ Hkey)
    as (new & Hnew & _ & _ & Hlt & _).
  exists new. split; [exact Hnew | exact (Hlt _ Hfail)].
Defined.

(** A pass that starts with four records from an earlier pass ends with
    the record of the configured recurrence alone. *)
Lemma initialize_events_resets_witness :
  ticks world_of_four = ticks empty_world
  /\ events (snd (@initialize_events SampleHost.host settings_with_meetup
                    world_of_four)) = [meetup_event].
Proof.
  split; [reflexivity|].
  destruct (@initialize_events_resets SampleHost.host settings_with_meetup
              world_of_four empty_world eq_refl) as (_ & Hev & _).
  rewrite Hev. vm_compute. reflexivity.
Defined.

Section ExportOutcomes.
Context `{H : Host}.

(** A run of the export loop: it changes nothing but the clock, and it
    either emits the components of all selected records in order, or
    raises what the first selected record without a component raises. *)
Lemma export_loop_run (st : settings) (field : pvalue) (l : list event) :
  forall (components : list vevent) (w : world),
    exists (r : result (list vevent)) (t : nat),
      export_loop st field l components w
      = (r, mk_world (events w) (localized_events w) t (files w) (context w))
      /\ ((exists new : list vevent,
             r = Ok (components ++ new)%list
             /\ Forall2 (fun e ve => ical_event st field e = Ok ve)
                  (selected_from (ticks w) l) new)
          \/ (exists (good : list event) (bad : event) (rest : list event)
                     (new : list vevent) (e : exn),
                r = Raise e
                /\ selected_from (ticks w) l = (good ++ bad :: rest)%list
                /\ Forall2 (fun e ve => ical_event st field e = Ok ve) good new
                /\ ical_event st field bad = Raise e)).
Proof.
  induction l as [|x l IH]; intros components w.
  - exists (Ok components), (ticks w). split.
    + cbn [export_loop]. unfold ret. destruct w; reflexivity.
    + left. exists []. rewrite app_nil_r. split; [reflexivity | constructor].
  - cbn [export_loop selected_from]. unfold bind at 1. unfold datetime_now at 1.
    set (w1 := mk_world (events w) (localized_events w) (S (ticks w))
                 (files w) (context w)).
    destruct (aware_ge (dtstart (plugin_data x)) (astimezone (clock (ticks w)))).
    + unfold bind, lift.
      destruct (ical_event st field x) as [ve|e] eqn:Hve.
      * destruct (IH (components ++ [ve])%list w1) as (r & t & Hrun & Hcase).
        exists r, t. split; [rewrite Hrun; reflexivity|].
        destruct Hcase as [(new & -> & Hall)
                          |(good & bad & rest & new & e & -> & Hsel & Hall & Hbad)].
        -- left. exists (ve :: new). rewrite <- app_assoc.
           split; [reflexivity|]. constructor; assumption.
        -- right. exists (x :: good), bad, rest, (ve :: new), e.
           split; [reflexivity|]. split; [cbn [ticks w1] in Hsel; rewrite Hsel; reflexivity|].
           split; [constructor; assumption | exact Hbad].
      * exists (Raise e), (S (ticks w)). split; [reflexivity|].
        right. exists [], x, (selected_from (S (ticks w)) l), [], e.
        split; [reflexivity|]. split; [reflexivity|].
        split; [constructor | exact Hve].
    + destruct (IH components w1) as (r & t & Hrun & Hcase).
      exists r, t. split; [rewrite Hrun; reflexivity | exact Hcase].
Qed.

(** The export with a file name and a bound summary field, in terms of
    the run of its loop. *)
Lemma generate_ical_file_run (st : settings) (w : world) (name : string)
    (v : pvalue) :
  PLUGIN_EVENTS st !! "ics_fname" = Some (PStr name) ->
  name <> "" ->
  PLUGIN_EVENTS st !! "metadata_field_for_summary" = Some v ->
  exists (w1 : world) (r : result (list vevent)) (t : nat),
    curr_events st w = (Ok (exported_collection st w), w1)
    /\ export_loop st (if truthy v then v else PStr "summary")
         (exported_collection st w) [] w1
       = (r, mk_world (events w) (localized_events w1) t (files w) (context w))
    /\ ((exists new : list vevent,
           r = Ok new
           /\ Forall2 (fun e ve =>
                         ical_event st (if truthy v then v else PStr "summary") e
                         = Ok ve)
                (selected_from (ticks w) (exported_collection st w)) new)
        \/ (exists (good : list event) (bad : event) (rest : list event)
                   (new : list vevent) (e : exn),
              r = Raise e
              /\ selected_from (ticks w) (exported_collection st w)
                 = (good ++ bad :: rest)%list
              /\ Forall2 (fun e ve =>
                            ical_event st (if truthy v then v else PStr "summary") e
                            = Ok ve) good new
              /\ ical_event st (if truthy v then v else PStr "summary") bad
                 = Raise e))
    /\ generate_ical_file st w
       = match r with
         | Ok components =>
             (Ok tt,
              mk_world (events w) (localized_events w1) t
                (<[path_join (OUTPUT_PATH st) name
                   := mk_vcalendar calendar_header components]> (files w))
                (context w))
         | Raise e =>
             (Raise e,
              mk_world (events w) (localized_events w1) t (files w) (context w))
         end.
Proof.
  intros Hname Hne Hkey.
  destruct (curr_events_spec st w) as (w1 & Hcur & Hev & Htk & Hfl & Hctx & _).
  destruct (export_loop_run st (if truthy v then v else PStr "summary")
              (exported_collection st w) [] w1) as (r & t & Hrun & Hcase).
  rewrite Hev, Hfl, Hctx in Hrun. rewrite Htk in Hcase.
  exists w1, r, t.
  split; [exact Hcur|]. split; [exact Hrun|]. split; [exact Hcase|].
  unfold generate_ical_file, bind, lift, getitem. rewrite Hname.
  assert (Ht : truthy (PStr name) = true).
  { cbn [truthy]. destruct (String.eqb_spec name ""); [contradiction | reflexivity]. }
  rewrite Ht. cbn [negb]. rewrite Hkey. unfold ret at 1 2.
  rewrite Hcur, Hrun. destruct r; reflexivity.
Qed.

(** The first record without a component is the same however the
    selected records are split around it. *)
Lemma first_failure_unique (st : settings) (field : pvalue)
    (good : list event) :
  forall (good' : list event) (bad bad' : event) (rest rest' : list event)
         (new new' : list vevent) (e e' : exn),
    (good ++ bad :: rest)%list = (good' ++ bad' :: rest')%list ->
    Forall2 (fun x ve => ical_event st field x = Ok ve) good new ->
    Forall2 (fun x ve => ical_event st field x = Ok ve) good' new' ->
    ical_event st field bad = Raise e ->
    ical_event st field bad' = Raise e' ->
    e = e'.
Proof.
  induction good as [|g good IH];
    intros [|g' good'] bad bad' rest rest' new new' e e' Heq Hg Hg' Hb Hb';
    cbn [app] in Heq; injection Heq as Hhd Htl.
  - subst. congruence.
  - subst. apply Forall2_cons_inv_l in Hg' as (ve & ? & Hok & _ & _). congruence.
  - subst. apply Forall2_cons_inv_l in Hg as (ve & ? & Hok & _ & _). congruence.
  - apply Forall2_cons_inv_l in Hg as (ve & new1 & _ & Hg & _).
    apply Forall2_cons_inv_l in Hg' as (ve' & new1' & _ & Hg' & _).
    exact (IH good' bad bad' rest rest' new1 new1' e e' Htl Hg Hg' Hb Hb').
Qed.

Lemma all_good_no_failure (st : settings) (field : pvalue)
    (good : list event) :
  forall (bad : event) (rest : list event) (new : list vevent) (e : exn),
    Forall2 (fun x ve => ical_event st field x = Ok ve)
      (good ++ bad :: rest)%list new ->
    ical_event st field bad = Raise e -> False.
Proof.
  induction good as [|g good IH]; intros bad rest new e Hall Hbad;
    cbn [app] in Hall;
    apply Forall2_cons_inv_l in Hall as (ve & new1 & Hok & Hall & _).
  - congruence.
  - exact (IH bad rest new1 e Hall Hbad).
Qed.

(** X8.  The export ([generate_ical_file]) never changes the event sequence
    or the template context.  A file whose content differs after the call
    is the calendar file at the path joined from the output directory and
    the configured name, the call has returned normally, and the file
    holds a calendar with the two header properties: a call that raises
    leaves every file as it was. *)
Theorem generate_ical_file_frame (st : settings) (w : world) :
  events (snd (generate_ical_file st w)) = events w
  /\ context (snd (generate_ical_file st w)) = context w
  /\ forall p : string,
       files (snd (generate_ical_file st w)) !! p <> files w !! p ->
       fst (generate_ical_file st w) = Ok tt
       /\ exists (name : string) (doc : vcalendar),
            PLUGIN_EVENTS st !! "ics_fname" = Some (PStr name)
            /\ name <> ""
            /\ p = path_join (OUTPUT_PATH st) name
            /\ files (snd (generate_ical_file st w)) !! p = Some doc
            /\ cal_properties doc = calendar_header.
Proof.
  destruct (PLUGIN_EVENTS st !! "ics_fname") as [fname|] eqn:Hname.
  2:{ assert (Hrun : generate_ical_file st w = (Raise (KeyError "ics_fname"), w)).
      { unfold generate_ical_file, bind, lift, getitem. rewrite Hname. reflexivity. }
      rewrite Hrun. cbn [fst snd].
      split; [reflexivity|]. split; [reflexivity|]. intros p Hp. contradiction. }
  destruct (truthy fname) eqn:Htruthy.
  2:{ assert (Hrun : generate_ical_file st w = (Ok tt, w)).
      { unfold generate_ical_file, bind, lift, getitem. rewrite Hname, Htruthy.
        reflexivity. }
      rewrite Hrun. cbn [fst snd].
      split; [reflexivity|]. split; [reflexivity|]. intros p Hp. contradiction. }
  destruct (PLUGIN_EVENTS st !! "metadata_field_for_summary") as [v|] eqn:Hkey.
  2:{ rewrite (generate_ical_file_unbound st w fname Hname Htruthy Hkey).
      cbn [fst snd].
      split; [reflexivity|]. split; [reflexivity|]. intros p Hp. contradiction. }
  destruct fname as [|name|l].
  - discriminate Htruthy.
  - assert (Hne : name <> "").
    { intros ->. discriminate Htruthy. }
    destruct (generate_ical_file_run st w name v Hname Hne Hkey)
      as (w1 & r & t & _ & _ & _ & Hrun).
    rewrite Hrun. destruct r as [components|e]; cbn [fst snd events context files].
    + split; [reflexivity|]. split; [reflexivity|]. intros p Hp.
      split; [reflexivity|].
      exists name, (mk_vcalendar calendar_header components).
      destruct (decide (p = path_join (OUTPUT_PATH st) name)) as [->|Hother].
      * rewrite lookup_insert_eq. repeat split; try reflexivity. exact Hne.
      * rewrite lookup_insert_ne in Hp by congruence. contradiction.
    + split; [reflexivity|]. split; [reflexivity|]. intros p Hp. contradiction.
  - assert (Hrun : exists w1, generate_ical_file st w
                   = (Raise (TypeError "expected str, bytes or os.PathLike object"),
                      w1)
                   /\ events w1 = events w /\ files w1 = files w
                   /\ context w1 = context w).
    { unfold generate_ical_file, bind, lift, getitem.
      rewrite Hname, Htruthy, Hkey. cbn [negb]. unfold ret, raise.
      exists w. repeat split; reflexivity. }
    destruct Hrun as (w1 & Hrun & Hev & Hfl & Hctx). rewrite Hrun. cbn [fst snd].
    split; [exact Hev|]. split; [exact Hctx|]. intros p Hp.
    rewrite Hfl in Hp. contradiction.
Qed.

(** X9.  When the export ([generate_ical_file]) returns normally, either
    the configured file name is empty (or None, or an empty list) and
    nothing at all has changed, or every selected record has a component
    and the file holds exactly these components, in the order of the
    records, after the clock was read once for each record of the
    collection. *)
Theorem generate_ical_file_returns (st : settings) (w : world) :
  fst (generate_ical_file st w) = Ok tt ->
  (exists fname : pvalue,
     PLUGIN_EVENTS st !! "ics_fname" = Some fname
     /\ truthy fname = false
     /\ snd (generate_ical_file st w) = w)
  \/ (exists (name : string) (v : pvalue) (components : list vevent),
        PLUGIN_EVENTS st !! "ics_fname" = Some (PStr name)
        /\ name <> ""
        /\ PLUGIN_EVENTS st !! "metadata_field_for_summary" = Some v
        /\ Forall2 (fun e ve =>
                      ical_event st (if truthy v then v else PStr "summary") e
                      = Ok ve)
             (selected_from (ticks w) (exported_collection st w)) components
        /\ files (snd (generate_ical_file st w))
           = <[path_join (OUTPUT_PATH st) name
               := mk_vcalendar calendar_header components]> (files w)
        /\ ticks (snd (generate_ical_file st w))
           = (length (exported_collection st w) + ticks w)%nat).
Proof.
  intros Hok.
  destruct (PLUGIN_EVENTS st !! "ics_fname") as [fname|] eqn:Hname.
  2:{ unfold generate_ical_file, bind, lift, getitem in Hok.
      rewrite Hname in Hok. discriminate Hok. }
  destruct (truthy fname) eqn:Htruthy.
  2:{ left. exists fname. split; [reflexivity|]. split; [exact Htruthy|].
      unfold generate_ical_file, bind, lift, getitem. rewrite Hname, Htruthy.
      reflexivity. }
  destruct (PLUGIN_EVENTS st !! "metadata_field_for_summary") as [v|] eqn:Hkey.
  2:{ rewrite (generate_ical_file_unbound st w fname Hname Htruthy Hkey) in Hok.
      discriminate Hok. }
  destruct fname as [|name|l].
  - discriminate Htruthy.
  - assert (Hne : name <> "").
    { intros ->. discriminate Htruthy. }
    right. exists name, v.
    destruct (generate_ical_file_run st w name v Hname Hne Hkey)
      as (w1 & r & t & _ & _ & Hcase & Hrun).
    destruct Hcase as [(new & -> & Hall)|(good & bad & rest & new & e & -> & _)].
    2:{ rewrite Hrun in Hok. discriminate Hok. }
    exists new.
    destruct (generate_ical_file_writes st w name v new Hname Hne Hkey Hall)
      as (w2 & _ & Hwrites).
    rewrite Hwrites. cbn [snd files ticks].
    repeat split; try reflexivity; assumption.
  - unfold generate_ical_file, bind, lift, getitem in Hok.
    rewrite Hname, Htruthy, Hkey in Hok. discriminate Hok.
Qed.

(** X10.  In [generate_ical_file] the first selected record for which no
    component can be built ends the export with the exception that
    record raises; no file is written and the events and the context are
    as before. *)
Theorem generate_ical_file_first_failure (st : settings) (w : world)
    (name : string) (v : pvalue) (good : list event) (bad : event)
    (rest : list event) (new : list vevent) (e : exn) :
  PLUGIN_EVENTS st !! "ics_fname" = Some (PStr name) ->
  name <> "" ->
  PLUGIN_EVENTS st !! "metadata_field_for_summary" = Some v ->
  selected_from (ticks w) (exported_collection st w)
  = (good ++ bad :: rest)%list ->
  Forall2 (fun x ve =>
             ical_event st (if truthy v then v else PStr "summary") x = Ok ve)
    good new ->
  ical_event st (if truthy v then v else PStr "summary") bad = Raise e ->
  fst (generate_ical_file st w) = Raise e
  /\ files (snd (generate_ical_file st w)) = files w
  /\ events (snd (generate_ical_file st w)) = events w
  /\ context (snd (generate_ical_file st w)) = context w.
Proof.
  intros Hname Hne Hkey Hsel Hgood Hbad.
  destruct (generate_ical_file_run st w name v Hname Hne Hkey)
    as (w1 & r & t & _ & _ & Hcase & Hrun).
  rewrite Hrun.
  destruct Hcase as [(new' & -> & Hall)
                    |(good' & bad' & rest' & new' & e' & -> & Hsel' & Hgood' & Hbad')].
  - exfalso. rewrite Hsel in Hall.
    exact (all_good_no_failure st _ good bad rest new' e Hall Hbad).
  - cbn [fst snd files events context].
    rewrite Hsel in Hsel'.
    rewrite (first_failure_unique st _ good good' bad bad' rest rest' new new'
               e e' Hsel' Hgood Hgood' Hbad Hbad').
    repeat split; reflexivity.
Qed.

(** The outcome of the loop depends on the world through the clock
    only. *)
Lemma export_loop_clock_only (st : settings) (field : pvalue) (l : list event) :
  forall (components : list vevent) (w w' : world),
    ticks w' = ticks w ->
    fst (export_loop st field l components w')
    = fst (export_loop st field l components w)
    /\ ticks (snd (export_loop st field l components w'))
       = ticks (snd (export_loop st field l components w)).
Proof.
  induction l as [|x l IH]; intros components w w' Htk.
  - cbn [export_loop]. unfold ret. cbn [fst snd]. split; [reflexivity | exact Htk].
  - cbn [export_loop]. unfold bind, datetime_now, lift.
    rewrite Htk.
    destruct (aware_ge (dtstart (plugin_data x)) (astimezone (clock (ticks w)))).
    + destruct (ical_event st field x) as [ve|e].
      * apply IH. reflexivity.
      * cbn [fst snd ticks]. split; reflexivity.
    + apply IH. reflexivity.
Qed.

(** A record the filter drops can be replaced by any record with the
    same start. *)
Lemma export_loop_skips (st : settings) (field : pvalue) (e e' : event)
    (l2 : list event) :
  dtstart (plugin_data e') = dtstart (plugin_data e) ->
  forall (l1 : list event) (components : list vevent) (w : world),
    aware_ge (dtstart (plugin_data e))
      (astimezone (clock (ticks w + length l1))) = false ->
    export_loop st field (l1 ++ e' :: l2) components w
    = export_loop st field (l1 ++ e :: l2) components w.
Proof.
  intros Hstart. induction l1 as [|x l1 IH]; intros components w Hpast.
  - cbn [app export_loop]. unfold bind, datetime_now.
    cbn [length] in Hpast. rewrite Nat.add_0_r in Hpast.
    rewrite Hstart, Hpast. reflexivity.
  - cbn [app export_loop]. unfold bind, datetime_now, lift.
    cbn [length] in Hpast. rewrite Nat.add_succ_r in Hpast.
    destruct (aware_ge (dtstart (plugin_data x)) (astimezone (clock (ticks w)))).
    + destruct (ical_event st field x) as [ve|err]; [|reflexivity].
      apply IH. exact Hpast.
    + apply IH. exact Hpast.
Qed.

(** X11.  In [generate_ical_file] a record whose start lies before the
    reading of the clock taken for it is never looked at.  Two builds
    with the same clock and the same files, whose collections differ in
    one such record only (same start, anything else different, such as a
    record without any metadata), export with the same outcome and leave
    the same files. *)
Theorem generate_ical_file_ignores_unselected (st : settings) (w w' : world)
    (l1 l2 : list event) (e e' : event) :
  ticks w' = ticks w ->
  files w' = files w ->
  exported_collection st w = (l1 ++ e :: l2)%list ->
  exported_collection st w' = (l1 ++ e' :: l2)%list ->
  dtstart (plugin_data e') = dtstart (plugin_data e) ->
  instant (dtstart (plugin_data e))
  < instant (astimezone (clock (ticks w + length l1))) ->
  fst (generate_ical_file st w') = fst (generate_ical_file st w)
  /\ files (snd (generate_ical_file st w'))
     = files (snd (generate_ical_file st w)).
Proof.
  intros Htk Hfl Hcol Hcol' Hstart Hpast.
  assert (Hdrop : aware_ge (dtstart (plugin_data e))
                    (astimezone (clock (ticks w + length l1))) = false).
  { unfold aware_ge. apply Z.leb_gt. exact Hpast. }
  destruct (PLUGIN_EVENTS st !! "ics_fname") as [fname|] eqn:Hname.
  2:{ unfold generate_ical_file, bind, lift, getitem. rewrite Hname.
      cbn [fst snd]. split; [reflexivity | exact Hfl]. }
  destruct (truthy fname) eqn:Htruthy.
  2:{ unfold generate_ical_file, bind, lift, getitem. rewrite Hname, Htruthy.
      cbn [negb fst snd]. unfold ret. cbn [fst snd].
      split; [reflexivity | exact Hfl]. }
  destruct (PLUGIN_EVENTS st !! "metadata_field_for_summary") as [v|] eqn:Hkey.
  2:{ rewrite !(generate_ical_file_unbound st _ fname Hname Htruthy Hkey).
      cbn [fst snd]. split; [reflexivity | exact Hfl]. }
  destruct fname as [|name|l].
  - discriminate Htruthy.
  - assert (Hne : name <> "").
    { intros ->. discriminate Htruthy. }
    destruct (generate_ical_file_run st w name v Hname Hne Hkey)
      as (w1 & r & t & Hcur & Hloop & _ & Hrun).
    destruct (generate_ical_file_run st w' name v Hname Hne Hkey)
      as (w1' & r' & t' & Hcur' & Hloop' & _ & Hrun').
    destruct (curr_events_spec st w) as (w2 & Hcur2 & _ & Htk2 & _).
    destruct (curr_events_spec st w') as (w2' & Hcur2' & _ & Htk2' & _).
    rewrite Hcur in Hcur2. injection Hcur2 as <-.
    rewrite Hcur' in Hcur2'. injection Hcur2' as <-.
    assert (Hsame : r' = r).
    { rewrite Hcol in Hloop. rewrite Hcol' in Hloop'.
      rewrite (export_loop_skips st _ e e' l2 Hstart) in Hloop'
        by (rewrite Htk2', Htk; exact Hdrop).
      destruct (export_loop_clock_only st
                  (if truthy v then v else PStr "summary")
                  (l1 ++ e :: l2)%list [] w1 w1') as [Hfst _].
      { rewrite Htk2', Htk2. exact Htk. }
      rewrite Hloop, Hloop' in Hfst. exact Hfst. }
    rewrite Hrun, Hrun', Hsame.
    destruct r; cbn [fst snd files]; rewrite Hfl; split; reflexivity.
  - unfold generate_ical_file, bind, lift, getitem.
    rewrite Hname, Htruthy, Hkey. cbn [negb]. unfold ret, raise. cbn [fst snd].
    split; [reflexivity | exact Hfl].
Qed.

End ExportOutcomes.

(** The export of [workshop] and [meeting] at noon on 2024-01-01 returns
    normally with a configured file name. *)
Lemma generate_ical_file_returns_witness :
  fst (@generate_ical_file SampleHost.host (settings_with_summary_key "summary")
         world_with_workshop_and_meeting) = Ok tt
  /\ ((exists fname : pvalue,
         PLUGIN_EVENTS (settings_with_summary_key "summary") !! "ics_fname"
         = Some fname
         /\ truthy fname = false
         /\ snd (@generate_ical_file SampleHost.host
                   (settings_with_summary_key "summary")
                   world_with_workshop_and_meeting)
            = world_with_workshop_and_meeting)
      \/ (exists (name : string) (v : pvalue) (components : list vevent),
            PLUGIN_EVENTS (settings_with_summary_key "summary") !! "ics_fname"
            = Some (PStr name)
            /\ name <> ""
            /\ PLUGIN_EVENTS (settings_with_summary_key "summary")
                 !! "metadata_field_for_summary" = Some v
            /\ Forall2 (fun e ve =>
                          @ical_event SampleHost.host
                            (settings_with_summary_key "summary")
                            (if truthy v then v else PStr "summary") e
                          = Ok ve)
                 (@selected_from SampleHost.host
                    (ticks world_with_workshop_and_meeting)
                    (exported_collection (settings_with_summary_key "summary")
                       world_with_workshop_and_meeting)) components
            /\ files (snd (@generate_ical_file SampleHost.host
                             (settings_with_summary_key "summary")
                             world_with_workshop_and_meeting))
               = <[@path_join SampleHost.host
                     (OUTPUT_PATH (settings_with_summary_key "summary")) name
                   := mk_vcalendar calendar_header components]>
                   (files world_with_workshop_and_meeting)
            /\ ticks (snd (@generate_ical_file SampleHost.host
                             (settings_with_summary_key "summary")
                             world_with_workshop_and_meeting))
               = (length (exported_collection
                            (settings_with_summary_key "summary")
                            world_with_workshop_and_meeting)
                  + ticks world_with_workshop_and_meeting)%nat)).
Proof.
  assert (Hok : fst (@generate_ical_file SampleHost.host
                       (settings_with_summary_key "summary")
                       world_with_workshop_and_meeting) = Ok tt)
    by (vm_compute; reflexivity).
  split; [exact Hok|].
  exact (@generate_ical_file_returns SampleHost.host
           (settings_with_summary_key "summary")
           world_with_workshop_and_meeting Hok).
Defined.

(** Of the four sample records, [meeting] and [meeting_again] start
    after noon on 2024-01-01; the second has no summary, so that the
    export raises the KeyError of the lookup. *)
Lemma generate_ical_file_first_failure_witness :
  PLUGIN_EVENTS (settings_with_summary_key "summary") !! "ics_fname"
  = Some (PStr "calendar.ics")
  /\ "calendar.ics" <> ""
  /\ PLUGIN_EVENTS (settings_with_summary_key "summary")
       !! "metadata_field_for_summary" = Some (PStr "summary")
  /\ @selected_from SampleHost.host (ticks world_of_four)
       (exported_collection (settings_with_summary_key "summary") world_of_four)
     = ([meeting] ++ meeting_again :: [])%list
  /\ @ical_event SampleHost.host (settings_with_summary_key "summary")
       (PStr "summary") meeting = Ok meeting_component
  /\ @ical_event SampleHost.host (settings_with_summary_key "summary")
       (PStr "summary") meeting_again = Raise (KeyError "summary")
  /\ fst (@generate_ical_file SampleHost.host
            (settings_with_summary_key "summary") world_of_four)
     = Raise (KeyError "summary")
  /\ files (snd (@generate_ical_file SampleHost.host
                   (settings_with_summary_key "summary") world_of_four))
     = files world_of_four.
Proof.
  assert (Hname : PLUGIN_EVENTS (settings_with_summary_key "summary")
                    !! "ics_fname" = Some (PStr "calendar.ics"))
    by (vm_compute; reflexivity).
  assert (Hne : "calendar.ics" <> "") by discriminate.
  assert (Hkey : PLUGIN_EVENTS (settings_with_summary_key "summary")
                   !! "metadata_field_for_summary" = Some (PStr "summary"))
    by (vm_compute; reflexivity).
  assert (Hsel : @selected_from SampleHost.host (ticks world_of_four)
                   (exported_collection (settings_with_summary_key "summary")
                      world_of_four)
                 = ([meeting] ++ meeting_again :: [])%list)
    by (vm_compute; reflexivity).
  assert (Hgood : @ical_event SampleHost.host
                    (settings_with_summary_key "summary") (PStr "summary")
                    meeting = Ok meeting_component)
    by (vm_compute; reflexivity).
  assert (Hbad : @ical_event SampleHost.host
                   (settings_with_summary_key "summary") (PStr "summary")
                   meeting_again = Raise (KeyError "summary"))
    by (vm_compute; reflexivity).
  split; [exact Hname|]. split; [exact Hne|]. split; [exact Hkey|].
  split; [exact Hsel|]. split; [exact Hgood|]. split; [exact Hbad|].
  destruct (@generate_ical_file_first_failure SampleHost.host
              (settings_with_summary_key "summary") world_of_four
              "calendar.ics" (PStr "summary") [meeting] meeting_again []
              [meeting_component] (KeyError "summary") Hname Hne Hkey Hsel)
    as (Hfst & Hfiles & _).
  - constructor; [exact Hgood | constructor].
  - exact Hbad.
  - split; [exact Hfst | exact Hfiles].
Defined.

(** At noon on 2024-01-01 the workshop, begun at 09:00, is not selected:
    the export is the same when the record has no metadata at all. *)
Lemma generate_ical_file_ignores_unselected_witness :
  instant (dtstart (plugin_data workshop))
  < instant (@astimezone SampleHost.host (@clock SampleHost.host 0))
  /\ fst (@generate_ical_file SampleHost.host
            (settings_with_summary_key "summary")
            (mk_world [workshop_without_metadata; meeting] [] 0 ∅ ∅))
     = fst (@generate_ical_file SampleHost.host
              (settings_with_summary_key "summary")
              world_with_workshop_and_meeting)
  /\ files (snd (@generate_ical_file SampleHost.host
                   (settings_with_summary_key "summary")
                   (mk_world [workshop_without_metadata; meeting] [] 0 ∅ ∅)))
     = files (snd (@generate_ical_file SampleHost.host
                     (settings_with_summary_key "summary")
                     world_with_workshop_and_meeting)).
Proof.
  assert (Hpast : instant (dtstart (plugin_data workshop))
                  < instant (@astimezone SampleHost.host
                               (@clock SampleHost.host
                                  (ticks world_with_workshop_and_meeting
                                   + length (@nil event)))))
    by (vm_compute; reflexivity).
  split; [exact Hpast|].
  exact (@generate_ical_file_ignores_unselected SampleHost.host
           (settings_with_summary_key "summary")
           world_with_workshop_and_meeting
           (mk_world [workshop_without_metadata; meeting] [] 0 ∅ ∅)
           [] [meeting] workshop workshop_without_metadata
           eq_refl eq_refl eq_refl eq_refl eq_refl Hpast).
Defined.

Section SerializedInstants.
Context `{H : Host}.

Lemma all_from_spec (test : Z -> bool) (fuel : nat) :
  forall x : Z,
    all_from test fuel x = true ->
    forall y : Z, x <= y < x + Z.of_nat fuel -> test y = true.
Proof.
  induction fuel as [|fuel IH]; intros x Hall y Hy; [lia|].
  cbn [all_from] in Hall. apply andb_true_iff in Hall as [Hx Hrest].
  destruct (Z.eq_dec y x) as [->|Hne]; [exact Hx|].
  apply (IH (x + 1) Hrest). lia.
Qed.

Lemma fmt_d_table (width : nat) (bound : Z) :
  all_from (fun k =>
              (decimal_value (fmt_d width k) =? k)
              && (String.length (fmt_d width k) =? width)%nat)
    (Z.to_nat bound) 0 = true ->
  forall x : Z,
    0 <= x < bound ->
    decimal_value (fmt_d width x) = x
    /\ String.length (fmt_d width x) = width.
Proof.
  intros Htable x Hx.
  pose proof (all_from_spec _ _ _ Htable x) as Hin.
  cbv beta in Hin.
  assert (Hin' : (decimal_value (fmt_d width x) =? x)
                 && (String.length (fmt_d width x) =? width)%nat = true)
    by (apply Hin; lia).
  apply andb_true_iff in Hin' as [Hv Hl].
  split; [apply Z.eqb_eq, Hv | apply Nat.eqb_eq, Hl].
Qed.

Lemma fmt_d_4 (x : Z) :
  0 <= x < 10000 ->
  decimal_value (fmt_d 4 x) = x /\ String.length (fmt_d 4 x) = 4%nat.
Proof.
  intros Hx. apply (fmt_d_table 4 10000); [vm_compute; reflexivity | lia].
Qed.

Lemma fmt_d_2 (x : Z) :
  0 <= x < 100 ->
  decimal_value (fmt_d 2 x) = x /\ String.length (fmt_d 2 x) = 2%nat.
Proof.
  intros Hx. apply (fmt_d_table 2 100); [vm_compute; reflexivity | lia].
Qed.

Lemma append_inj_length (s1 : string) :
  forall s2 r1 r2 : string,
    String.length s1 = String.length s2 ->
    s1 +:+ r1 = s2 +:+ r2 -> s1 = s2 /\ r1 = r2.
Proof.
  induction s1 as [|c s1 IH]; intros [|c' s2] r1 r2 Hlen Heq;
    cbn [String.length] in Hlen; try discriminate.
  - split; [reflexivity | exact Heq].
  - cbn [String.append] in Heq. injection Heq as -> Heq.
    destruct (IH s2 r1 r2) as [-> ->]; [lia | exact Heq |]. split; reflexivity.
Qed.

Lemma append_length (s1 s2 : string) :
  String.length (s1 +:+ s2) = (String.length s1 + String.length s2)%nat.
Proof.
  induction s1 as [|c s1 IH]; [reflexivity|].
  change (S (String.length (s1 +:+ s2))
          = S (String.length s1 + String.length s2)).
  rewrite IH. reflexivity.
Qed.

Lemma days_in_month_le (y m : Z) : Cal.days_in_month y m <= 31.
Proof.
  unfold Cal.days_in_month.
  destruct ((m =? 2) && Cal.is_leap y); [lia|].
  destruct m as [|p|p]; cbn; try lia.
  do 4 (try destruct p as [p|p|]; cbn; try lia).
Qed.

(** The basic form has sixteen characters and determines every field of
    a datetime down to the second. *)
Lemma basic_utc_form_inj (n n' : naive) :
  valid_naive n -> valid_naive n' ->
  String.length (basic_utc_form n) = 16%nat
  /\ (basic_utc_form n = basic_utc_form n' ->
      dt_year n = dt_year n' /\ dt_month n = dt_month n'
      /\ dt_day n = dt_day n' /\ dt_hour n = dt_hour n'
      /\ dt_minute n = dt_minute n' /\ dt_second n = dt_second n').
Proof.
  intros (Hy & Hm & Hd & Hh & Hmi & Hs & _) (Hy' & Hm' & Hd' & Hh' & Hmi' & Hs' & _).
  pose proof (days_in_month_le (dt_year n) (dt_month n)) as Hdm.
  pose proof (days_in_month_le (dt_year n') (dt_month n')) as Hdm'.
  destruct (fmt_d_4 (dt_year n)) as [Vy Ly]; [lia|].
  destruct (fmt_d_4 (dt_year n')) as [Vy' Ly']; [lia|].
  destruct (fmt_d_2 (dt_month n)) as [Vm Lm]; [lia|].
  destruct (fmt_d_2 (dt_month n')) as [Vm' Lm']; [lia|].
  destruct (fmt_d_2 (dt_day n)) as [Vd Ld]; [lia|].
  destruct (fmt_d_2 (dt_day n')) as [Vd' Ld']; [lia|].
  destruct (fmt_d_2 (dt_hour n)) as [Vh Lh]; [lia|].
  destruct (fmt_d_2 (dt_hour n')) as [Vh' Lh']; [lia|].
  destruct (fmt_d_2 (dt_minute n)) as [Vmi Lmi]; [lia|].
  destruct (fmt_d_2 (dt_minute n')) as [Vmi' Lmi']; [lia|].
  destruct (fmt_d_2 (dt_second n)) as [Vs Ls]; [lia|].
  destruct (fmt_d_2 (dt_second n')) as [Vs' Ls']; [lia|].
  unfold basic_utc_form. split.
  - rewrite !append_length, Ly, Lm, Ld, Lh, Lmi, Ls. reflexivity.
  - intros Heq.
    apply append_inj_length in Heq as [Ey Heq]; [|congruence].
    apply append_inj_length in Heq as [Em Heq]; [|congruence].
    apply append_inj_length in Heq as [Ed Heq]; [|congruence].
    apply append_inj_length in Heq as [_ Heq]; [|reflexivity].
    apply append_inj_length in Heq as [Eh Heq]; [|congruence].
    apply append_inj_length in Heq as [Emi Heq]; [|congruence].
    apply append_inj_length in Heq as [Es _]; [|congruence].
    repeat split; congruence.
Qed.

(** The fields of [of_wall_us] other than the microsecond depend on the
    whole second only. *)
Lemma of_wall_us_second (us us' : Z) (n n' : naive) :
  us / US_PER_SECOND = us' / US_PER_SECOND ->
  of_wall_us us = Ok n -> of_wall_us us' = Ok n' ->
  basic_utc_form n = basic_utc_form n'.
Proof.
  intros Hsec. unfold of_wall_us.
  assert (Hdays : us / US_PER_DAY = us' / US_PER_DAY).
  { unfold US_PER_DAY. rewrite (Z.mul_comm 86400).
    rewrite <- !Z.div_div by (unfold US_PER_SECOND; lia).
    rewrite Hsec. reflexivity. }
  assert (Hsecs : us mod US_PER_DAY / US_PER_SECOND
                  = us' mod US_PER_DAY / US_PER_SECOND).
  { assert (Hgen : forall a, a mod US_PER_DAY / US_PER_SECOND
                             = (a / US_PER_SECOND) mod 86400).
    { intros a. unfold US_PER_DAY. rewrite (Z.mul_comm 86400).
      rewrite Z.rem_mul_r by (unfold US_PER_SECOND; lia).
      rewrite Z.mul_comm, Z.div_add by (unfold US_PER_SECOND; lia).
      rewrite Z.div_small by (apply Z.mod_pos_bound; unfold US_PER_SECOND; lia).
      reflexivity. }
    rewrite !Hgen, Hsec. reflexivity. }
  rewrite Hdays, Hsecs.
  destruct ((0 <? us' / US_PER_DAY) && (us' / US_PER_DAY <=? Cal.MAXORDINAL));
    [|discriminate].
  destruct (Cal.ord2ymd (us' / US_PER_DAY)) as [[y m] d].
  intros [= <-] [= <-]. reflexivity.
Qed.

(** The whole second of a valid reading, from its fields. *)
Lemma wall_us_second (n : naive) :
  valid_naive n ->
  wall_us n / US_PER_SECOND = toordinal n * 86400 + seconds_of_day n.
Proof.
  intros (_ & _ & _ & _ & _ & _ & Hus). unfold wall_us.
  rewrite Z.div_add_l by (unfold US_PER_SECOND; lia).
  rewrite Z.div_small by exact Hus. lia.
Qed.

Lemma of_wall_us_ok_inv (us : Z) (n : naive) :
  of_wall_us us = Ok n ->
  0 < us / US_PER_DAY <= Cal.MAXORDINAL /\ valid_naive n /\ wall_us n = us.
Proof.
  intros Hok.
  assert (Hrange : 0 < us / US_PER_DAY <= Cal.MAXORDINAL).
  { unfold of_wall_us in Hok.
    destruct ((0 <? us / US_PER_DAY) && (us / US_PER_DAY <=? Cal.MAXORDINAL))
      eqn:Hr; [|discriminate].
    apply andb_true_iff in Hr as [H1 H2].
    apply Z.ltb_lt in H1. apply Z.leb_le in H2. lia. }
  split; [exact Hrange|].
  destruct (of_wall_us_spec us Hrange) as (n0 & Hn0 & Hvalid & Hwall).
  rewrite Hok in Hn0. injection Hn0 as <-. split; assumption.
Qed.

(** X12.  The serialization depends on the instant only, not on the
    zone it is expressed in, and it keeps the instant down to the
    second: two aware datetimes that [basic_utc_isoformat] accepts get
    the same string exactly when they denote the same second of the UTC
    time line.  The string has sixteen characters.  The function raises
    (OverflowError) exactly when the UTC date of the instant lies outside
    the years 1 to 9999. *)
Theorem basic_utc_isoformat_same_second (a b : aware) (sa sb : string) :
  basic_utc_isoformat (Aware a) = Ok sa ->
  basic_utc_isoformat (Aware b) = Ok sb ->
  (sa = sb <-> instant a / US_PER_SECOND = instant b / US_PER_SECOND)
  /\ String.length sa = 16%nat
  /\ 0 < instant a / US_PER_DAY <= Cal.MAXORDINAL
  /\ forall c : aware,
       ~ 0 < instant c / US_PER_DAY <= Cal.MAXORDINAL ->
       basic_utc_isoformat (Aware c)
       = Raise (OverflowError "date value out of range").
Proof.
  intros Ha Hb.
  unfold basic_utc_isoformat, utc_wall in Ha, Hb.
  destruct (of_wall_us (instant a)) as [na|] eqn:Hna; [|discriminate].
  destruct (of_wall_us (instant b)) as [nb|] eqn:Hnb; [|discriminate].
  destruct (of_wall_us_ok_inv _ _ Hna) as (Hra & Hva & Hwa).
  destruct (of_wall_us_ok_inv _ _ Hnb) as (Hrb & Hvb & Hwb).
  rewrite (strip_isoformat na Hva) in Ha. rewrite (strip_isoformat nb Hvb) in Hb.
  injection Ha as <-. injection Hb as <-.
  destruct (basic_utc_form_inj na nb Hva Hvb) as [Hlen Hinj].
  split; [|split; [exact Hlen|split; [exact Hra|]]].
  - split.
    + intros Heq. apply Hinj in Heq as (Ey & Em & Ed & Eh & Emi & Es).
      rewrite <- Hwa, <- Hwb, (wall_us_second na Hva), (wall_us_second nb Hvb).
      unfold toordinal, seconds_of_day. congruence.
    + intros Hsec. exact (of_wall_us_second _ _ na nb Hsec Hna Hnb).
  - intros c Hc. unfold basic_utc_isoformat, utc_wall, of_wall_us.
    destruct ((0 <? instant c / US_PER_DAY)
              && (instant c / US_PER_DAY <=? Cal.MAXORDINAL)) eqn:Hr;
      [|reflexivity].
    exfalso. apply Hc. apply andb_true_iff in Hr as [H1 H2].
    apply Z.ltb_lt in H1. apply Z.leb_le in H2. lia.
Qed.

End SerializedInstants.

(** 09:00:00 in the zone UTC-5 and 15:00:00.25 in the zone UTC+1 are in
    the same second. *)
Lemma basic_utc_isoformat_same_second_witness :
  @basic_utc_isoformat SampleHost.host (Aware march_first_9am)
  = Ok "20240301T140000Z"
  /\ @basic_utc_isoformat SampleHost.host (Aware three_pm_in_berlin)
     = Ok "20240301T140000Z"
  /\ instant march_first_9am / US_PER_SECOND
     = instant three_pm_in_berlin / US_PER_SECOND.
Proof.
  assert (Ha : @basic_utc_isoformat SampleHost.host (Aware march_first_9am)
               = Ok "20240301T140000Z") by (vm_compute; reflexivity).
  assert (Hb : @basic_utc_isoformat SampleHost.host (Aware three_pm_in_berlin)
               = Ok "20240301T140000Z") by (vm_compute; reflexivity).
  split; [exact Ha|]. split; [exact Hb|].
  destruct (@basic_utc_isoformat_same_second SampleHost.host
              march_first_9am three_pm_in_berlin _ _ Ha Hb) as [Hiff _].
  apply Hiff. reflexivity.
Defined.

Section LocalizedBuckets.

Lemma bucket_append_lookup (d : list (string * list event)) (lang : string)
    (e : event) (k : string) :
  bucket_lookup (bucket_append d lang e) k
  = if String.eqb lang k
    then Some (default [] (bucket_lookup d lang) ++ [e])%list
    else bucket_lookup d k.
Proof.
  induction d as [|[k0 v] d IH]; cbn [bucket_append bucket_lookup].
  - destruct (String.eqb lang k); reflexivity.
  - destruct (String.eqb_spec k0 lang) as [->|Hne]; cbn [bucket_lookup].
    + destruct (String.eqb lang k); reflexivity.
    + rewrite IH. destruct (String.eqb_spec k0 k) as [->|Hk].
      * destruct (String.eqb_spec lang k) as [->|_]; [contradiction | reflexivity].
      * reflexivity.
Qed.

Lemma bucket_append_keys (d : list (string * list event)) (lang : string)
    (e : event) :
  exists new : list string,
    map fst (bucket_append d lang e) = (map fst d ++ new)%list.
Proof.
  induction d as [|[k0 v] d [new IH]]; cbn [bucket_append].
  - exists [lang]. reflexivity.
  - destruct (String.eqb k0 lang); cbn [map fst].
    + exists []. rewrite app_nil_r. reflexivity.
    + exists new. rewrite IH. reflexivity.
Qed.

Lemma merged_nil (old : option (list event)) : merged old [] = old.
Proof. destruct old as [v|]; cbn; [rewrite app_nil_r|]; reflexivity. Qed.

(** The buckets the loop leaves when it comes to its end. *)
Lemma localize_loop_ok (l : list event) :
  forall d d' : list (string * list event),
    localize_loop l d = Some (Ok tt, d') ->
    (forall k : string,
        bucket_lookup d' k
        = merged (bucket_lookup d k) (List.filter (in_lang k) l))
    /\ exists new : list string, map fst d' = (map fst d ++ new)%list.
Proof.
  induction l as [|e l IH]; intros d d' Hrun; cbn [localize_loop] in Hrun.
  - injection Hrun as <-. split.
    + intros k. cbn [List.filter]. rewrite merged_nil. reflexivity.
    + exists []. rewrite app_nil_r. reflexivity.
  - destruct (metadata e !! "lang") as [[lang|]|] eqn:Hlang.
    + destruct (IH _ _ Hrun) as [Hlook [new Hkeys]]. split.
      * intros k. rewrite Hlook, bucket_append_lookup.
        cbn [List.filter]. unfold in_lang at 2. rewrite Hlang.
        destruct (String.eqb_spec lang k) as [->|Hne]; [|reflexivity].
        destruct (bucket_lookup d k) as [v|];
          cbn [merged default from_option id]; rewrite <- ?app_assoc;
          reflexivity.
      * destruct (bucket_append_keys d lang e) as [new0 Hk0].
        exists (new0 ++ new)%list. rewrite Hkeys, Hk0, app_assoc. reflexivity.
    + discriminate Hrun.
    + unfold getitem in Hrun.
      destruct (metadata e !! "title"); [|discriminate Hrun].
      destruct (IH _ _ Hrun) as [Hlook Hkeys]. split; [|exact Hkeys].
      intros k. rewrite Hlook. cbn [List.filter]. unfold in_lang at 2.
      rewrite Hlang. reflexivity.
Qed.

Lemma localize_loop_ok_localizable (l : list event) :
  forall d d' : list (string * list event),
    localize_loop l d = Some (Ok tt, d') -> Forall localizable l.
Proof.
  induction l as [|e l IH]; intros d d' Hrun; [constructor|].
  cbn [localize_loop] in Hrun. unfold getitem in Hrun.
  destruct (metadata e !! "lang") as [[lang|]|] eqn:Hlang.
  - constructor; [unfold localizable; rewrite Hlang; exact I | exact (IH _ _ Hrun)].
  - discriminate Hrun.
  - destruct (metadata e !! "title") as [t|] eqn:Ht; [|discriminate Hrun].
    constructor; [|exact (IH _ _ Hrun)].
    unfold localizable. rewrite Hlang, Ht. eexists; reflexivity.
Qed.

Lemma localize_loop_total (l : list event) :
  Forall localizable l ->
  forall d : list (string * list event),
    exists d', localize_loop l d = Some (Ok tt, d').
Proof.
  induction 1 as [|e l He _ IH]; intros d; cbn [localize_loop].
  - exists d. reflexivity.
  - unfold localizable in He. unfold getitem.
    destruct (metadata e !! "lang") as [[lang|]|]; [apply IH | contradiction |].
    destruct He as [t ->]. apply IH.
Qed.

Lemma localize_loop_app (l1 l2 : list event) :
  forall d d1 : list (string * list event),
    localize_loop l1 d = Some (Ok tt, d1) ->
    localize_loop (l1 ++ l2) d = localize_loop l2 d1.
Proof.
  induction l1 as [|e l1 IH]; intros d d1 Hrun; cbn [localize_loop app] in *.
  - injection Hrun as <-. reflexivity.
  - destruct (metadata e !! "lang") as [[lang|]|]; [exact (IH _ _ Hrun) | discriminate |].
    destruct (getitem (metadata e) "title"); [exact (IH _ _ Hrun) | discriminate].
Qed.

(** X13.  With the i18n_subsites plugin active and records that all
    carry a string language or else a title, [generate_localized_events]
    returns normally and changes the buckets only.  The bucket of each
    language is what it held before, followed by the records of that
    language in the order of [events]; a language without bucket and
    without record gets no bucket; records without language enter no
    bucket.  The buckets that were there keep their places, new ones
    follow them. *)
Theorem generate_localized_events_buckets (st : settings) (w : world) :
  "i18n_subsites" ∈ PLUGINS st ->
  Forall localizable (events w) ->
  exists d : list (string * list event),
    generate_localized_events st w
    = Some (Ok tt, mk_world (events w) d (ticks w) (files w) (context w))
    /\ (forall lang : string,
          bucket_lookup d lang
          = merged (bucket_lookup (localized_events w) lang)
              (List.filter (in_lang lang) (events w)))
    /\ (forall e : event,
          metadata e !! "lang" = None ->
          forall lang : string, e ∉ List.filter (in_lang lang) (events w))
    /\ exists new : list string,
         map fst d = (map fst (localized_events w) ++ new)%list.
Proof.
  intros Hplugin Hall.
  destruct (localize_loop_total _ Hall (localized_events w)) as [d Hrun].
  destruct (localize_loop_ok _ _ _ Hrun) as [Hlook Hkeys].
  exists d. unfold generate_localized_events.
  rewrite (bool_decide_eq_true_2 _ Hplugin), Hrun.
  split; [reflexivity|]. split; [exact Hlook|]. split; [|exact Hkeys].
  intros e Hnone lang Hin.
  apply list_elem_of_In, filter_In in Hin as [_ Hin].
  unfold in_lang in Hin. rewrite Hnone in Hin. discriminate Hin.
Qed.

(** X14.  A record that has neither a language nor a title stops
    [generate_localized_events] with KeyError('title'), raised by the
    log line for records without language.  The records before it are
    in their buckets by then, the records after it are in none. *)
Theorem generate_localized_events_untitled (st : settings) (w : world)
    (l1 l2 : list event) (e : event) :
  "i18n_subsites" ∈ PLUGINS st ->
  events w = (l1 ++ e :: l2)%list ->
  Forall localizable l1 ->
  metadata e !! "lang" = None ->
  metadata e !! "title" = None ->
  exists d : list (string * list event),
    generate_localized_events st w
    = Some (Raise (KeyError "title"),
            mk_world (events w) d (ticks w) (files w) (context w))
    /\ forall lang : string,
         bucket_lookup d lang
         = merged (bucket_lookup (localized_events w) lang)
             (List.filter (in_lang lang) l1).
Proof.
  intros Hplugin Hev Hall Hlang Htitle.
  destruct (localize_loop_total _ Hall (localized_events w)) as [d Hrun].
  destruct (localize_loop_ok _ _ _ Hrun) as [Hlook _].
  exists d. unfold generate_localized_events.
  rewrite (bool_decide_eq_true_2 _ Hplugin), Hev.
  rewrite (localize_loop_app l1 (e :: l2) _ _ Hrun).
  cbn [localize_loop]. unfold getitem. rewrite Hlang, Htitle.
  split; [reflexivity | exact Hlook].
Qed.

(** X15.  What the export reads after [generate_localized_events] has
    run on empty buckets.  Without the i18n_subsites plugin, or when no
    record carries a language, it is the whole of [events].  As soon as
    one record carries a language it is the records whose language is
    DEFAULT_LANG, in the order of [events]: records without language,
    such as those of recurring events, are then left out. *)
Theorem exported_collection_after_localization (st : settings)
    (w w1 : world) :
  localized_events w = [] ->
  generate_localized_events st w = Some (Ok tt, w1) ->
  events w1 = events w
  /\ ("i18n_subsites" ∉ PLUGINS st -> exported_collection st w1 = events w)
  /\ (Forall (fun e => has_lang e = false) (events w) ->
      exported_collection st w1 = events w)
  /\ ("i18n_subsites" ∈ PLUGINS st ->
      Exists (fun e => has_lang e = true) (events w) ->
      exported_collection st w1
      = List.filter (in_lang (DEFAULT_LANG st)) (events w)).
Proof.
  intros Hempty Hrun. unfold generate_localized_events in Hrun.
  destruct (bool_decide ("i18n_subsites" ∈ PLUGINS st)) eqn:Hplugin.
  2:{ injection Hrun as <-. apply bool_decide_eq_false_1 in Hplugin.
      assert (Hcol : exported_collection st w = events w).
      { unfold exported_collection. rewrite Hempty. reflexivity. }
      split; [reflexivity|]. split; [intros _; exact Hcol|].
      split; [intros _; exact Hcol|]. intros Hin. contradiction. }
  apply bool_decide_eq_true_1 in Hplugin.
  destruct (localize_loop (events w) (localized_events w)) as [[r d]|] eqn:Hloop;
    [|discriminate Hrun].
  injection Hrun as -> <-. destruct (localize_loop_ok _ _ _ Hloop) as [Hlook _].
  rewrite Hempty in Hlook. cbn [bucket_lookup] in Hlook.
  split; [reflexivity|]. split; [intros Hout; contradiction|].
  unfold exported_collection. cbn [localized_events events].
  split.
  - intros Hnone. destruct d as [|[k v] d]; [reflexivity|]. exfalso.
    specialize (Hlook k). cbn [bucket_lookup] in Hlook.
    rewrite String.eqb_refl in Hlook.
    assert (Hfilter : List.filter (in_lang k) (events w) = []).
    { clear Hlook Hloop. induction Hnone as [|e l He _ IH]; [reflexivity|].
      cbn [List.filter]. unfold in_lang. unfold has_lang in He.
      destruct (metadata e !! "lang") as [[s|]|]; [discriminate He | exact IH..]. }
    rewrite Hfilter in Hlook. discriminate Hlook.
  - intros _ Hsome. destruct d as [|b d].
    + exfalso. apply Exists_exists in Hsome as (e & Hin & He).
      unfold has_lang in He.
      destruct (metadata e !! "lang") as [[s|]|] eqn:Hlang; try discriminate He.
      specialize (Hlook s). cbn [bucket_lookup] in Hlook.
      assert (Hmem : In e (List.filter (in_lang s) (events w))).
      { apply filter_In. split; [apply list_elem_of_In; exact Hin|].
        unfold in_lang. rewrite Hlang. apply String.eqb_refl. }
      destruct (List.filter (in_lang s) (events w)); [contradiction|].
      discriminate Hlook.
    + rewrite Hlook. unfold merged.
      destruct (List.filter (in_lang (DEFAULT_LANG st)) (events w)); reflexivity.
Qed.

End LocalizedBuckets.

Lemma generate_localized_events_buckets_witness :
  "i18n_subsites" ∈ PLUGINS settings_with_subsites
  /\ Forall localizable (events world_of_two_languages)
  /\ exists d : list (string * list event),
       generate_localized_events settings_with_subsites world_of_two_languages
       = Some (Ok tt, mk_world (events world_of_two_languages) d 0 ∅ ∅)
       /\ bucket_lookup d "de"
          = Some [tagged "de" meeting; tagged "de" meeting_again]
       /\ bucket_lookup d "fr" = None.
Proof.
  assert (Hplugin : "i18n_subsites" ∈ PLUGINS settings_with_subsites)
    by (apply list_elem_of_here).
  assert (Hall : Forall localizable (events world_of_two_languages)).
  { repeat constructor; vm_compute; solve [exact I | eexists; reflexivity]. }
  split; [exact Hplugin|]. split; [exact Hall|].
  destruct (generate_localized_events_buckets settings_with_subsites
              world_of_two_languages Hplugin Hall) as (d & Hrun & Hlook & _).
  exists d. split; [exact Hrun|].
  split; rewrite Hlook; vm_compute; reflexivity.
Defined.

Lemma generate_localized_events_untitled_witness :
  "i18n_subsites" ∈ PLUGINS settings_with_subsites
  /\ events world_with_untitled_record
     = ([tagged "de" meeting]
        ++ workshop_without_metadata :: [tagged "en" workshop])%list
  /\ Forall localizable [tagged "de" meeting]
  /\ metadata workshop_without_metadata !! "lang" = None
  /\ metadata workshop_without_metadata !! "title" = None
  /\ exists d : list (string * list event),
       generate_localized_events settings_with_subsites
         world_with_untitled_record
       = Some (Raise (KeyError "title"),
               mk_world (events world_with_untitled_record) d 0 ∅ ∅)
       /\ bucket_lookup d "de" = Some [tagged "de" meeting]
       /\ bucket_lookup d "en" = None.
Proof.
  assert (Hplugin : "i18n_subsites" ∈ PLUGINS settings_with_subsites)
    by (apply list_elem_of_here).
  assert (Hall : Forall localizable [tagged "de" meeting]).
  { repeat constructor; vm_compute; exact I. }
  assert (Hlang : metadata workshop_without_metadata !! "lang" = None)
    by (vm_compute; reflexivity).
  assert (Htitle : metadata workshop_without_metadata !! "title" = None)
    by (vm_compute; reflexivity).
  split; [exact Hplugin|]. split; [reflexivity|]. split; [exact Hall|].
  split; [exact Hlang|]. split; [exact Htitle|].
  destruct (generate_localized_events_untitled settings_with_subsites
              world_with_untitled_record [tagged "de" meeting]
              [tagged "en" workshop] workshop_without_metadata
              Hplugin eq_refl Hall Hlang Htitle) as (d & Hrun & Hlook).
  exists d. split; [exact Hrun|].
  split; rewrite Hlook; vm_compute; reflexivity.
Defined.

(** With the default language English only the English article is read
    by the export: the recurring meetup, which has no language, is left
    out together with the German articles. *)
Lemma exported_collection_after_localization_witness :
  localized_events world_of_two_languages = []
  /\ generate_localized_events settings_with_subsites world_of_two_languages
     = Some (Ok tt, world_of_two_languages_localized)
  /\ exported_collection settings_with_subsites
       world_of_two_languages_localized
     = [tagged "en" workshop].
Proof.
  assert (Hrun : generate_localized_events settings_with_subsites
                   world_of_two_languages
                 = Some (Ok tt, world_of_two_languages_localized))
    by (vm_compute; reflexivity).
  split; [reflexivity|]. split; [exact Hrun|].
  destruct (exported_collection_after_localization settings_with_subsites
              world_of_two_languages world_of_two_languages_localized
              eq_refl Hrun) as (_ & _ & _ & Hcol).
  rewrite Hcol.
  - vm_compute. reflexivity.
  - apply list_elem_of_here.
  - apply Exists_cons_hd. vm_compute. reflexivity.
Defined.

Section ContextFrame.
Context `{H : Host}.

(** X16.  [populate_context_variables] always returns normally.  It
    leaves the events, the buckets and the files as they are, sets the
    two template variables and touches no other entry of the context.
    The clock is read once for each record: of [events] without buckets,
    of all buckets otherwise. *)
Theorem populate_context_variables_frame (w : world) :
  fst (populate_context_variables w) = Ok tt
  /\ events (snd (populate_context_variables w)) = events w
  /\ localized_events (snd (populate_context_variables w))
     = localized_events w
  /\ files (snd (populate_context_variables w)) = files w
  /\ (forall k : string,
        k <> "events_list" -> k <> "upcoming_events_list" ->
        context (snd (populate_context_variables w)) !! k = context w !! k)
  /\ is_Some (context (snd (populate_context_variables w)) !! "events_list")
  /\ is_Some (context (snd (populate_context_variables w))
                !! "upcoming_events_list")
  /\ ticks (snd (populate_context_variables w))
     = (match localized_events w with
        | [] => length (events w)
        | d => length (concat (map snd d))
        end + ticks w)%nat.
Proof.
  destruct (localized_events w) as [|b d] eqn:Hloc.
  - rewrite (populate_flat w Hloc). cbn [fst snd events localized_events files
                                          context ticks].
    rewrite Hloc.
    split; [reflexivity|]. split; [reflexivity|]. split; [reflexivity|].
    split; [reflexivity|]. split.
    + intros k Hk1 Hk2. rewrite !lookup_insert_ne by congruence. reflexivity.
    + split; [|split; [|reflexivity]].
      * rewrite lookup_insert_ne by discriminate. rewrite lookup_insert_eq.
        eexists; reflexivity.
      * rewrite lookup_insert_eq. eexists; reflexivity.
  - assert (Hne : localized_events w <> []) by (rewrite Hloc; discriminate).
    rewrite (populate_localized w Hne).
    cbn [fst snd events localized_events files context ticks].
    rewrite Hloc.
    split; [reflexivity|]. split; [reflexivity|]. split; [reflexivity|].
    split; [reflexivity|]. split.
    + intros k Hk1 Hk2. rewrite !lookup_insert_ne by congruence. reflexivity.
    + split; [|split; [|reflexivity]].
      * rewrite lookup_insert_ne by discriminate. rewrite lookup_insert_eq.
        eexists; reflexivity.
      * rewrite lookup_insert_eq. eexists; reflexivity.
Qed.

(** A later wall-clock reading is on the same day or on a later one. *)
Lemma wall_us_toordinal_mono (a b : naive) :
  valid_naive a -> valid_naive b ->
  wall_us a <= wall_us b -> toordinal a <= toordinal b.
Proof.
  intros (_ & _ & _ & Hh & Hm & Hs & Hu) (_ & _ & _ & Hh' & Hm' & Hs' & Hu').
  unfold wall_us, seconds_of_day, US_PER_SECOND in *. lia.
Qed.

(** A record the export selects is kept by [filter_future] at the same
    reading of the clock, when it does not end before it starts and its
    end is expressed in the offset of that reading. *)
Lemma selected_then_future (now : naive) (e : event) :
  valid_naive now ->
  valid_naive (wall (dtend (plugin_data e))) ->
  utcoffset (dtend (plugin_data e)) = local_utcoffset now ->
  instant (dtstart (plugin_data e)) <= instant (dtend (plugin_data e)) ->
  instant (astimezone now) <= instant (dtstart (plugin_data e)) ->
  filter_future now e = true.
Proof.
  intros Hnow Hend Hoff Horder Hsel.
  unfold filter_future.
  rewrite date_ge_toordinal.
  - apply Z.leb_le.
    change (toordinal now <= toordinal (wall (dtend (plugin_data e)))).
    apply wall_us_toordinal_mono; [exact Hnow | exact Hend |].
    unfold instant in Horder, Hsel. unfold astimezone in Hsel.
    cbn [wall utcoffset] in Hsel. unfold instant in Hsel.
    rewrite Hoff in Horder. lia.
  - destruct Hend as (Hy & Hm & Hd & _). exact (conj Hy (conj Hm Hd)).
  - destruct Hnow as (Hy & Hm & Hd & _). exact (conj Hy (conj Hm Hd)).
Qed.

(** X17.  While the clock stands still, every record the export selects
    is also in the list of upcoming events, provided that the record does
    not end before it starts and that its end carries the utcoffset the
    local zone has now.  The export compares instants, the list of
    upcoming events compares calendar dates: without the condition on
    the offsets the two tests are not comparable. *)
Theorem exported_records_are_upcoming (now : naive) (l : list event)
    (t t' : nat) :
  valid_naive now ->
  (forall i : nat, clock i = now) ->
  Forall (fun e =>
            valid_naive (wall (dtend (plugin_data e)))
            /\ utcoffset (dtend (plugin_data e)) = local_utcoffset now
            /\ instant (dtstart (plugin_data e))
               <= instant (dtend (plugin_data e))) l ->
  forall e : event, e ∈ selected_from t l -> e ∈ upcoming_from t' l.
Proof.
  intros Hnow Hclock Hall e Hsel.
  apply selected_from_spec in Hsel as (i & Hi & Hstart).
  apply upcoming_from_spec. exists i. split; [exact Hi|].
  rewrite Hclock in Hstart |- *.
  destruct (Forall_lookup_1 _ _ _ _ Hall Hi) as (Hend & Hoff & Horder).
  exact (selected_then_future now e Hnow Hend Hoff Horder Hstart).
Qed.

End ContextFrame.

(** At noon on 2024-01-01 the meeting of 2024-03-01 is selected by the
    export, and it is among the upcoming events. *)
Lemma exported_records_are_upcoming_witness :
  valid_naive SampleHost.noon
  /\ (forall i : nat, @clock SampleHost.host i = SampleHost.noon)
  /\ meeting ∈ @selected_from SampleHost.host 0 [workshop; meeting]
  /\ meeting ∈ @upcoming_from SampleHost.host 0 [workshop; meeting].
Proof.
  assert (Hnow : valid_naive SampleHost.noon) by (vm_compute; intuition discriminate).
  assert (Hclock : forall i : nat, @clock SampleHost.host i = SampleHost.noon)
    by reflexivity.
  assert (Hsel : meeting ∈ @selected_from SampleHost.host 0 [workshop; meeting]).
  { replace (@selected_from SampleHost.host 0 [workshop; meeting])
      with [meeting] by (vm_compute; reflexivity).
    apply list_elem_of_here. }
  split; [exact Hnow|]. split; [exact Hclock|]. split; [exact Hsel|].
  apply (@exported_records_are_upcoming SampleHost.host SampleHost.noon
           [workshop; meeting] 0 0 Hnow Hclock); [|exact Hsel].
  repeat constructor; vm_compute; intuition discriminate.
Defined.

Section RecurringComponents.
Context `{H : Host}.

(** X18.  The record of a recurring event in the export.  Its metadata
    has the keys title, summary, date and event-location and no other:
    with any other summary field the component cannot be built and the
    lookup raises KeyError of that field.  With the field summary the
    component has the configured summary (stripped of tags), the uid
    SITEURL followed by pages/ and the page url, the configured location
    and priority 5, and its DTSTAMP is the same string as its DTSTART. *)
Theorem recurring_record_component (st : settings) (spec : gmap string string)
    (w w' : world) :
  insert_recurring_event spec w = (Ok tt, w') ->
  exists (ev : event) (page loc summary : string),
    events w' = (events w ++ [ev])%list
    /\ spec !! "page_url" = Some page
    /\ spec !! "location" = Some loc
    /\ spec !! "summary" = Some summary
    /\ (forall k : string,
          k <> "title" -> k <> "summary" -> k <> "date" ->
          k <> "event-location" ->
          ical_event st (PStr k) ev = Raise (KeyError k))
    /\ (forall ve : vevent,
          ical_event st (PStr "summary") ev = Ok ve ->
          ve_summary ve = strip_html_tags summary
          /\ ve_uid ve = SITEURL st +:+ "pages/" +:+ page
          /\ ve_location ve = Some (MStr loc)
          /\ ve_priority ve = 5
          /\ ve_dtstamp ve = ve_dtstart ve
          /\ basic_utc_isoformat (Aware (dtstart (plugin_data ev)))
             = Ok (ve_dtstart ve)
          /\ basic_utc_isoformat (Aware (dtend (plugin_data ev)))
             = Ok (ve_dtend ve)).
Proof.
  unfold insert_recurring_event, bind, lift, datetime_now, raise,
    events_append, getitem.
  destruct (spec !! "recurring_rule") as [rule|]; [|discriminate].
  cbn [ticks events localized_events files context].
  destruct (rfc_rrule (clock (ticks w)) rule) as [rfc|]; [|discriminate].
  destruct (rrule_after rfc (clock (S (ticks w)))) as [next|]; [|discriminate].
  destruct (parse_timedelta (MStr <$> spec)) as [d|]; [|discriminate].
  destruct (spec !! "page_url") as [page|]; [|discriminate].
  destruct (spec !! "location") as [loc|]; [|discriminate].
  destruct (spec !! "title") as [title|]; [|discriminate].
  destruct (spec !! "summary") as [summary|]; [|discriminate].
  destruct next as [occ|]; [|discriminate].
  destruct (astimezone_call occ) as [start|] eqn:Hstart; [|discriminate].
  apply astimezone_call_ok_inv in Hstart. subst start.
  destruct (aware_add (astimezone occ) d) as [dtend_|]; [|discriminate].
  intros E. inversion E; subst w'; clear E.
  eexists _, page, loc, summary. cbn [events].
  split; [reflexivity|]. split; [reflexivity|]. split; [reflexivity|].
  split; [reflexivity|]. split.
  - intros k Hk1 Hk2 Hk3 Hk4.
    unfold ical_event, summary_value, getitem. cbn [metadata].
    rewrite !lookup_insert_ne by congruence. rewrite lookup_empty. reflexivity.
  - intros ve. unfold ical_event, summary_value, getitem.
    cbn [metadata plugin_data dtstart dtend url].
    rewrite (lookup_insert_ne _ "title" "summary") by discriminate.
    rewrite lookup_insert_eq.
    rewrite (lookup_insert_ne _ "title" "date") by discriminate.
    rewrite (lookup_insert_ne _ "summary" "date") by discriminate.
    rewrite lookup_insert_eq.
    rewrite (lookup_insert_ne _ "title" "event-location") by discriminate.
    rewrite (lookup_insert_ne _ "summary" "event-location") by discriminate.
    rewrite (lookup_insert_ne _ "date" "event-location") by discriminate.
    rewrite lookup_insert_eq.
    rewrite (basic_utc_isoformat_naive occ).
    destruct (basic_utc_isoformat (Aware (astimezone occ))) as [start|];
      [|discriminate].
    destruct (basic_utc_isoformat (Aware dtend_)) as [end_|]; [|discriminate].
    intros [= <-]. cbn [ve_summary ve_uid ve_location ve_priority ve_dtstamp
                        ve_dtstart ve_dtend].
    repeat split; reflexivity.
Qed.

End RecurringComponents.

(** The weekly meetup of the sample configuration: no component with
    the summary field [description]. *)
Lemma recurring_record_component_witness :
  @insert_recurring_event SampleHost.host weekly_meetup empty_world
  = (Ok tt, mk_world [meetup_event] [] 2 ∅ ∅)
  /\ exists ev : event,
       [meetup_event] = [ev]
       /\ @ical_event SampleHost.host settings_with_meetup
            (PStr "description") ev
          = Raise (KeyError "description").
Proof.
  assert (Hrec : @insert_recurring_event SampleHost.host weekly_meetup
                   empty_world
                 = (Ok tt, mk_world [meetup_event] [] 2 ∅ ∅))
    by (vm_compute; reflexivity).
  split; [exact Hrec|].
  destruct (@recurring_record_component SampleHost.host settings_with_meetup
              _ _ _ Hrec) as (ev & page & loc & summary & Hev & _ & _ & _
                              & Hother & _).
  exists ev. split; [exact Hev|].
  apply Hother; discriminate.
Defined.
